(** * Response extraction and claim validation of the restaurant-manager backend

    A shallow embedding of

    - [backend/genie_client_databricks.py] and [backend/genie_client_local.py]:
      [extract_sql_from_text], [extract_data_from_text], [ask_genie_structured],
      [ask_genie], [get_genie_health_status] and the environment check of
      the module body;
    - [validate_analysis.py]: the five validations of
      [PandaAnalysisValidator], [run_all_validations] and the missing types
      of [validate_data_completeness];
    - [panda_pnl_insights_notebook.py]: its own [extract_sql_from_text] and
      [extract_data_from_text];
    - [backend/app.py]: [df_to_response], the Genie entry of [health_check]
      and the endpoint [ask_genie];

    together with the library calls they are written in terms of: the Python
    [str] methods, the [re] module on the six SQL patterns and the separator
    pattern, and [pandas.read_csv] with its default arguments.  The
    embedding comes first, then the vocabulary of the statements, then the
    lemmas and theorems, by component.

    Conventions.  A Python [str] is a list of characters, the characters
    being the code points 0..255.  The numeric columns of the fact table
    are exact rationals.  A Python exception is a value of the type [exn],
    and a function that can raise returns a [result]. *)

From Stdlib Require Import List String Ascii Bool Arith ZArith QArith Qabs Lia Lqa.
From Stdlib Require Import DecimalString Floats.
Import ListNotations.

Set Implicit Arguments.
Close Scope Q_scope.
Open Scope nat_scope.

(** ** Python strings *)

Module Py.

Definition str := list ascii.

(** A literal of the source. *)
Definition L (s : string) : str := list_ascii_of_string s.

Definition chr_eqb (a b : ascii) : bool := Ascii.eqb a b.

Fixpoint str_eqb (a b : str) : bool :=
  match a, b with
  | [], [] => true
  | x :: a', y :: b' => chr_eqb x y && str_eqb a' b'
  | _, _ => false
  end.

Definition LF : ascii := ascii_of_nat 10.
Definition CR : ascii := ascii_of_nat 13.

(** [str.isspace] on one character: the code points below 256 that Python
    classifies as whitespace; [\s] of the [re] module uses the same table. *)
Definition isspace (c : ascii) : bool :=
  let n := nat_of_ascii c in
  ((9 <=? n) && (n <=? 13)) || ((28 <=? n) && (n <=? 32))
  || (n =? 133) || (n =? 160).

(** [c.lower()] on the letters A..Z; used for [re.IGNORECASE]. *)
Definition lower (c : ascii) : ascii :=
  let n := nat_of_ascii c in
  if (65 <=? n) && (n <=? 90) then ascii_of_nat (n + 32) else c.

Fixpoint lstrip_by (p : ascii -> bool) (s : str) : str :=
  match s with
  | [] => []
  | c :: t => if p c then lstrip_by p t else s
  end.

Fixpoint rstrip_by (p : ascii -> bool) (s : str) : str :=
  match s with
  | [] => []
  | c :: t =>
      match rstrip_by p t with
      | [] => if p c then [] else [c]
      | r => c :: r
      end
  end.

(** [s.strip()] and [s.strip(chars)]. *)
Definition strip_by (p : ascii -> bool) (s : str) : str :=
  rstrip_by p (lstrip_by p s).

Definition strip (s : str) : str := strip_by isspace s.

Definition strip_chars (chars : str) (s : str) : str :=
  strip_by (fun c => existsb (chr_eqb c) chars) s.

(** [s.split(sep)] for a one-character separator. *)
Fixpoint split (sep : ascii) (s : str) : list str :=
  match s with
  | [] => [[]]
  | c :: t =>
      if chr_eqb c sep then [] :: split sep t
      else match split sep t with
           | w :: ws => (c :: w) :: ws
           | [] => [[c]]
           end
  end.

(** [sep.join(parts)]. *)
Fixpoint join (sep : str) (parts : list str) : str :=
  match parts with
  | [] => []
  | [p] => p
  | p :: ps => p ++ sep ++ join sep ps
  end.

(** [s.count(c)] and [c in s] for a one-character [c]. *)
Definition count (c : ascii) (s : str) : nat :=
  List.length (filter (chr_eqb c) s).

Definition contains_chr (c : ascii) (s : str) : bool := existsb (chr_eqb c) s.

Fixpoint startswith (p s : str) : bool :=
  match p, s with
  | [], _ => true
  | x :: p', y :: s' => chr_eqb x y && startswith p' s'
  | _ :: _, [] => false
  end.

(** [sub in s] for strings. *)
Fixpoint contains (sub s : str) : bool :=
  startswith sub s ||
  match s with
  | [] => false
  | _ :: t => contains sub t
  end.

End Py.

(** ** The [re] module on the patterns of the sources *)

Module Re.
Import Py.

(** Regular expressions, restricted to what the patterns of the sources are
    built from: repetition is over a single-character class. *)
Inductive re : Type :=
| Eps
| Chr (p : ascii -> bool)
| Seq (r1 r2 : re)
| Alt (r1 r2 : re)
| Star (greedy : bool) (p : ascii -> bool)
| Grp (r : re)
| Bol
| Eol.

(** A literal character under [re.IGNORECASE]. *)
Definition ci (c : ascii) : ascii -> bool := fun x => chr_eqb (lower x) (lower c).

(** [.] under [re.DOTALL]. *)
Definition any : ascii -> bool := fun _ => true.

Fixpoint lit (s : str) : re :=
  match s with
  | [] => Eps
  | c :: t => Seq (Chr (ci c)) (lit t)
  end.

Definition plus (p : ascii -> bool) : re := Seq (Chr p) (Star true p).

Fixpoint cat (rs : list re) : re :=
  match rs with
  | [] => Eps
  | r :: rs' => Seq r (cat rs')
  end.

Section Matcher.
Variable A : Type.

(** Continuations take the position, the rest of the text and the text
    of group 1. *)
Definition cont := nat -> str -> option str -> option A.

Definition orelse (x y : option A) : option A :=
  match x with Some _ => x | None => y end.

Fixpoint star_greedy (p : ascii -> bool) (pos : nat) (s : str)
         (k : nat -> str -> option A) : option A :=
  match s with
  | c :: t => if p c then orelse (star_greedy p (S pos) t k) (k pos s) else k pos s
  | [] => k pos s
  end.

Fixpoint star_lazy (p : ascii -> bool) (pos : nat) (s : str)
         (k : nat -> str -> option A) : option A :=
  orelse (k pos s)
    match s with
    | c :: t => if p c then star_lazy p (S pos) t k else None
    | [] => None
    end.

(** The backtracking matcher: alternatives left to right, greedy
    repetition longest first, lazy repetition shortest first. *)
Fixpoint m (r : re) (pos : nat) (s : str) (g : option str) (k : cont) : option A :=
  match r with
  | Eps => k pos s g
  | Chr p =>
      match s with
      | c :: t => if p c then k (S pos) t g else None
      | [] => None
      end
  | Seq r1 r2 => m r1 pos s g (fun pos' s' g' => m r2 pos' s' g' k)
  | Alt r1 r2 => orelse (m r1 pos s g k) (m r2 pos s g k)
  | Star true p => star_greedy p pos s (fun pos' s' => k pos' s' g)
  | Star false p => star_lazy p pos s (fun pos' s' => k pos' s' g)
  | Grp r1 =>
      m r1 pos s g
        (fun pos' s' _ => k pos' s' (Some (firstn (List.length s - List.length s') s)))
  | Bol => if pos =? 0 then k pos s g else None
  | Eol =>
      match s with
      | [] => k pos s g
      | [c] => if chr_eqb c LF then k pos s g else None
      | _ => None
      end
  end.
End Matcher.

(** One match attempt at the current position: the text of group 1 (empty
    when the group did not take part) and the rest after the match. *)
Definition match_here (r : re) (pos : nat) (s : str) : option (str * str) :=
  m r pos s None
    (fun _ s' g => Some (match g with Some x => x | None => [] end, s')).

(** [re.match(r, s)] as a truth value. *)
Definition re_match (r : re) (s : str) : bool :=
  match match_here r 0 s with Some _ => true | None => false end.

(** [re.search]: the leftmost match. *)
Fixpoint search_from (r : re) (pos : nat) (s : str) : option (str * str) :=
  match match_here r pos s with
  | Some x => Some x
  | None =>
      match s with
      | [] => None
      | _ :: t => search_from r (S pos) t
      end
  end.

(** [re.findall] for a pattern with one group: the group texts of the
    successive non-overlapping matches, left to right.  The scan resumes at
    the end of a match, one character further after an empty one. *)
Fixpoint findall_from (fuel : nat) (r : re) (pos : nat) (s : str) : list str :=
  match fuel with
  | O => []
  | S fuel' =>
      match match_here r pos s with
      | Some (g, s') =>
          if List.length s' <? List.length s
          then g :: findall_from fuel' r (pos + (List.length s - List.length s')) s'
          else g :: match s with
                    | [] => []
                    | _ :: t => findall_from fuel' r (S pos) t
                    end
      | None =>
          match s with
          | [] => []
          | _ :: t => findall_from fuel' r (S pos) t
          end
      end
  end.

Definition findall (r : re) (s : str) : list str :=
  findall_from (S (List.length s)) r 0 s.

End Re.

(** ** Exceptions *)

Inductive exn : Type :=
| IndexError
| ZeroDivisionError
| ParserError
| EmptyDataError
| AttributeError
| OverflowError
| ValueError
| NameError (name : Py.str)
| AgentError (msg : Py.str).

Inductive result (A : Type) : Type :=
| Ok (a : A)
| Raise (e : exn).

Arguments Ok {A} a.
Arguments Raise {A} e.

Definition bind {A B : Type} (x : result A) (f : A -> result B) : result B :=
  match x with
  | Ok a => f a
  | Raise e => Raise e
  end.

Notation "x <- c ;; k" := (bind c (fun x => k))
  (at level 61, c at next level, right associativity).

(** ** [pandas.read_csv] with its default arguments *)

(** The C parser as [read_csv(StringIO(csv_text))] runs it: comma
    delimiter, double-quote quoting with doubled quotes, first line as
    header, blank lines skipped, default missing-value markers, per-column
    type inference.  A [float64] cell holds the double that the parser's
    own converter computes.  The parser converts the lines in chunks of
    [buffer_lines] lines, a power of two of at least 2^20 / (4 * width); the
    model is of a text that is one chunk. *)

Module Pandas.
Import Py.

Inductive value : Type :=
| VStr (s : str)
| VInt (z : Z)
| VFloat (f : float)
| VBool (b : bool)
| NaN.

Inductive dtype : Type := int64 | uint64 | float64 | bool_ | object.

Record Series : Type := { s_dtype : dtype; s_values : list value }.

Inductive Index : Type :=
| RangeIndex (n : nat)
| LabelIndex (labels : list Series).

Record DataFrame : Type :=
  { columns : list str; index : Index; data : list Series }.

(** [pd.DataFrame()]. *)
Definition empty_frame : DataFrame :=
  {| columns := []; index := RangeIndex 0; data := [] |}.

Definition n_rows (df : DataFrame) : nat :=
  match index df with
  | RangeIndex n => n
  | LabelIndex ls => match ls with s :: _ => List.length (s_values s) | [] => 0 end
  end.

(** [df.iloc[i].tolist()]: the cells of row [i], in column order. *)
Definition row (df : DataFrame) (i : nat) : list value :=
  map (fun s => nth i (s_values s) NaN) (data df).

Definition rows (df : DataFrame) : list (list value) :=
  map (row df) (seq 0 (n_rows df)).

(** *** The tokenizer *)

(** The states that the default arguments leave reachable.  The state for
    lines of blanks only, which a record beginning with a blank or a tab
    enters, is left out: in the text the extractor writes a record begins
    with a double quote, as long as its carriage returns are inside
    quotes. *)

Inductive pstate : Type :=
| START_RECORD | START_FIELD | IN_FIELD | IN_QUOTED_FIELD
| QUOTE_IN_QUOTED_FIELD | EAT_CRNL | EAT_CRNL_NOP.

(** The fields and lines are kept newest first. *)
Record parser_t : Type :=
  { state : pstate; word : str; line : list str; lines : list (list str) }.

Definition set_state (st : pstate) (p : parser_t) : parser_t :=
  {| state := st; word := word p; line := line p; lines := lines p |}.

Definition push_char (c : ascii) (p : parser_t) : parser_t :=
  {| state := state p; word := c :: word p; line := line p; lines := lines p |}.

Definition end_field (p : parser_t) : parser_t :=
  {| state := state p; word := []; line := rev (word p) :: line p; lines := lines p |}.

(** [end_line] with [header_end = 0]: the header line and the first data
    line are accepted as they are; a later line with more fields than the
    line before it is an error; a data line with fewer is filled up with
    empty fields. *)
Definition end_line (p : parser_t) : result parser_t :=
  let fields := List.length (line p) in
  let n_lines := List.length (lines p) in
  match lines p with
  | [] =>
      Ok {| state := START_RECORD; word := word p; line := []; lines := [rev (line p)] |}
  | prev :: _ =>
      let ex_fields := List.length prev in
      if negb (n_lines <=? 1) && (ex_fields <? fields) then Raise ParserError
      else
        Ok {| state := START_RECORD; word := word p; line := [];
              lines := (rev (line p) ++ repeat [] (ex_fields - fields)) :: lines p |}
  end.

Definition QUOTE : ascii := ascii_of_nat 34.
Definition COMMA : ascii := ","%char.

Definition start_field (c : ascii) (p : parser_t) : result parser_t :=
  if chr_eqb c LF then end_line (end_field p)
  else if chr_eqb c CR then Ok (set_state EAT_CRNL (end_field p))
  else if chr_eqb c QUOTE then Ok (set_state IN_QUOTED_FIELD p)
  else if chr_eqb c COMMA then Ok (set_state START_FIELD (end_field p))
  else Ok (set_state IN_FIELD (push_char c p)).

Definition start_record (c : ascii) (p : parser_t) : result parser_t :=
  if chr_eqb c LF then Ok p
  else if chr_eqb c CR then Ok (set_state EAT_CRNL_NOP p)
  else start_field c (set_state START_FIELD p).

(** One character of [tokenize_bytes]. *)
Definition step (p : parser_t) (c : ascii) : result parser_t :=
  match state p with
  | START_RECORD => start_record c p
  | START_FIELD => start_field c p
  | IN_FIELD =>
      if chr_eqb c LF then end_line (end_field p)
      else if chr_eqb c CR then Ok (set_state EAT_CRNL (end_field p))
      else if chr_eqb c COMMA then Ok (set_state START_FIELD (end_field p))
      else Ok (push_char c p)
  | IN_QUOTED_FIELD =>
      if chr_eqb c QUOTE then Ok (set_state QUOTE_IN_QUOTED_FIELD p)
      else Ok (push_char c p)
  | QUOTE_IN_QUOTED_FIELD =>
      if chr_eqb c QUOTE then Ok (set_state IN_QUOTED_FIELD (push_char c p))
      else if chr_eqb c COMMA then Ok (set_state START_FIELD (end_field p))
      else if chr_eqb c LF then end_line (end_field p)
      else if chr_eqb c CR then Ok (set_state EAT_CRNL (end_field p))
      else Ok (set_state IN_FIELD (push_char c p))
  | EAT_CRNL =>
      if chr_eqb c LF then end_line p
      else if chr_eqb c COMMA then
        p' <- end_line p ;; Ok (set_state START_FIELD (end_field p'))
      else p' <- end_line p ;; start_record c p'
  | EAT_CRNL_NOP =>
      if chr_eqb c LF || chr_eqb c COMMA then Ok (set_state START_RECORD p)
      else start_record c (set_state START_RECORD p)
  end.

Fixpoint tokenize_bytes (p : parser_t) (buf : str) : result parser_t :=
  match buf with
  | [] => Ok p
  | c :: t => p' <- step p c ;; tokenize_bytes p' t
  end.

(** [parser_handle_eof]. *)
Definition handle_eof (p : parser_t) : result parser_t :=
  match state p with
  | START_RECORD | EAT_CRNL_NOP => Ok p
  | IN_QUOTED_FIELD => Raise ParserError
  | IN_FIELD | START_FIELD | QUOTE_IN_QUOTED_FIELD => end_line (end_field p)
  | EAT_CRNL => end_line p
  end.

Definition parser_new : parser_t :=
  {| state := START_RECORD; word := []; line := []; lines := [] |}.

(** A word of the parser is a C string: it ends at its first NUL
    character. *)
Definition NUL : ascii := ascii_of_nat 0.

Fixpoint c_string (word : str) : str :=
  match word with
  | [] => []
  | c :: t => if chr_eqb c NUL then [] else c :: c_string t
  end.

(** The tokenized lines, oldest first, as the words that the conversions
    and the column names read. *)
Definition tokenize_all (csv_text : str) : result (list (list str)) :=
  p <- tokenize_bytes parser_new csv_text ;;
  p' <- handle_eof p ;;
  Ok (map (map c_string) (rev (lines p'))).

(** *** Column names *)

Definition str_of_nat (n : nat) : str :=
  L (NilEmpty.string_of_uint (Nat.to_uint n)).

Definition name_in (x : str) (l : list str) : bool := existsb (str_eqb x) l.

Fixpoint counts_get (counts : list (str * nat)) (col : str) : nat :=
  match counts with
  | [] => 0
  | (k, v) :: rest => if str_eqb k col then v else counts_get rest col
  end.

Definition counts_set (counts : list (str * nat)) (col : str) (v : nat) :=
  (col, v) :: counts.

(** The [while cur_count > 0] loop that renames a repeated column. *)
Fixpoint dedup_loop (fuel : nat) (this_header : list str) (counts : list (str * nat))
         (old_col col : str) (cur_count : nat) : list (str * nat) * str * nat :=
  match fuel with
  | O => (counts, col, cur_count)
  | S fuel' =>
      if cur_count =? 0 then (counts, col, cur_count)
      else
        let counts := counts_set counts old_col (cur_count + 1) in
        let col := old_col ++ L "." ++ str_of_nat cur_count in
        if name_in col this_header
        then dedup_loop fuel' this_header counts old_col col (cur_count + 1)
        else dedup_loop fuel' this_header counts old_col col (counts_get counts col)
  end.

Fixpoint set_nth (i : nat) (x : str) (l : list str) : list str :=
  match l, i with
  | [], _ => []
  | _ :: t, O => x :: t
  | y :: t, S i' => y :: set_nth i' x t
  end.

Fixpoint dedup_names (order : list nat) (this_header : list str)
         (counts : list (str * nat)) : list str :=
  match order with
  | [] => this_header
  | i :: rest =>
      let col := nth i this_header [] in
      let '(counts, col, cur_count) :=
        dedup_loop (2 * List.length this_header + 2) this_header counts col col
                   (counts_get counts col) in
      dedup_names rest (set_nth i col this_header)
                  (counts_set counts col (cur_count + 1))
  end.

(** The names of the header line: an empty name becomes [Unnamed: i], and
    repeated names are numbered, named columns first. *)
Definition header_names (header : list str) : list str :=
  let idx := List.seq 0 (List.length header) in
  let unnamed := filter (fun i => str_eqb (nth i header []) []) idx in
  let named := filter (fun i => negb (str_eqb (nth i header []) [])) idx in
  let this_header :=
    map (fun i => let name := nth i header [] in
                  if str_eqb name [] then L "Unnamed: " ++ str_of_nat i else name) idx in
  dedup_names (named ++ unnamed) this_header [].

(** *** Type inference of a column *)

Definition na_values : list str :=
  [] :: map L ["#N/A"; "#N/A N/A"; "#NA"; "-1.#IND"; "-1.#QNAN"; "-NaN"; "-nan";
         "1.#IND"; "1.#QNAN"; "<NA>"; "N/A"; "NA"; "NULL"; "NaN"; "None";
         "n/a"; "nan"; "null"]%string.

Definition is_na (tok : str) : bool := name_in tok na_values.

(** [isspace_ascii] and [isdigit_ascii]. *)
Definition c_isspace (c : ascii) : bool :=
  let n := nat_of_ascii c in ((9 <=? n) && (n <=? 13)) || (n =? 32).

Definition digit_of (c : ascii) : option Z :=
  let n := nat_of_ascii c in
  if (48 <=? n) && (n <=? 57) then Some (Z.of_nat (n - 48)) else None.

Definition isdigit_ascii (c : ascii) : bool :=
  match digit_of c with Some _ => true | None => false end.

(** An optional sign: whether it is a minus, and what follows it. *)
Definition sign (s : str) : bool * str :=
  match s with
  | c :: t =>
      if chr_eqb c "-"%char then (true, t)
      else if chr_eqb c "+"%char then (false, t)
      else (false, s)
  | [] => (false, s)
  end.

Definition lower_str (s : str) : str := map lower s.

Definition INT64_MAX : Z := 9223372036854775807.
Definition INT64_MIN : Z := -9223372036854775808.
Definition UINT64_MAX : Z := 18446744073709551615.

Inductive parse_error : Type := ERROR_NO_DIGITS | ERROR_OVERFLOW | ERROR_INVALID_CHARS.

(** The two digit loops of [str_to_int64]: a digit is taken while the
    number stays in range; [None] is the exit with [ERROR_OVERFLOW].  The
    division and the remainder are those of C. *)
Fixpoint negative_digits (int_min number : Z) (p : str) : option (Z * str) :=
  match p with
  | c :: t =>
      match digit_of c with
      | Some d =>
          let dig_pre_min := (- Z.rem int_min 10)%Z in
          let pre_min := Z.quot int_min 10 in
          if (pre_min <? number)%Z || ((number =? pre_min)%Z && (d <=? dig_pre_min)%Z)
          then negative_digits int_min (number * 10 - d)%Z t
          else None
      | None => Some (number, p)
      end
  | [] => Some (number, p)
  end.

Fixpoint positive_digits (int_max number : Z) (p : str) : option (Z * str) :=
  match p with
  | c :: t =>
      match digit_of c with
      | Some d =>
          let pre_max := Z.quot int_max 10 in
          let dig_pre_max := Z.rem int_max 10 in
          if (number <? pre_max)%Z || ((number =? pre_max)%Z && (d <=? dig_pre_max)%Z)
          then positive_digits int_max (number * 10 + d)%Z t
          else None
      | None => Some (number, p)
      end
  | [] => Some (number, p)
  end.

(** [str_to_int64(p_item, INT64_MIN, INT64_MAX, &error, '\0')]: blanks, a
    sign, digits, blanks. *)
Definition str_to_int64 (p_item : str) : Z + parse_error :=
  let p := lstrip_by c_isspace p_item in
  let '(isneg, p) := sign p in
  if match p with c :: _ => isdigit_ascii c | [] => false end then
    match (if isneg then negative_digits INT64_MIN 0 p
           else positive_digits INT64_MAX 0 p) with
    | None => inr ERROR_OVERFLOW
    | Some (number, p) =>
        match lstrip_by c_isspace p with
        | [] => inl number
        | _ :: _ => inr ERROR_INVALID_CHARS
        end
    end
  else inr ERROR_NO_DIGITS.

Record uint_state : Type :=
  { seen_sint : bool; seen_uint : bool; seen_null : bool }.

Definition uint_state_init : uint_state :=
  {| seen_sint := false; seen_uint := false; seen_null := false |}.

Definition uint64_conflict (state : uint_state) : bool :=
  seen_uint state && (seen_sint state || seen_null state).

(** [str_to_uint64(state, p_item, INT64_MAX, UINT64_MAX, &error, '\0')]: at
    a minus sign it notes a signed number and returns at once. *)
Definition str_to_uint64 (state : uint_state) (p_item : str)
  : uint_state * (Z + parse_error) :=
  let p := lstrip_by c_isspace p_item in
  if match p with c :: _ => chr_eqb c "-"%char | [] => false end then
    ({| seen_sint := true; seen_uint := seen_uint state; seen_null := seen_null state |},
     inl 0%Z)
  else
    let p := match p with
             | c :: t => if chr_eqb c "+"%char then t else p
             | [] => p
             end in
    if match p with c :: _ => isdigit_ascii c | [] => false end then
      match positive_digits UINT64_MAX 0 p with
      | None => (state, inr ERROR_OVERFLOW)
      | Some (number, p) =>
          match lstrip_by c_isspace p with
          | [] =>
              (if (INT64_MAX <? number)%Z
               then {| seen_sint := seen_sint state; seen_uint := true;
                       seen_null := seen_null state |}
               else state,
               inl number)
          | _ :: _ => (state, inr ERROR_INVALID_CHARS)
          end
      end
    else (state, inr ERROR_NO_DIGITS).

(** [_try_int64]: the words in order, up to the first that is not an
    integer; a missing value is held as [INT64_MIN].  [Ok None] is the
    return of [None]. *)
Fixpoint _try_int64 (words : list str) : result (option (list Z)) :=
  match words with
  | [] => Ok (Some [])
  | word :: rest =>
      if is_na word then
        data <- _try_int64 rest ;; Ok (option_map (cons INT64_MIN) data)
      else
        match str_to_int64 word with
        | inl number => data <- _try_int64 rest ;; Ok (option_map (cons number) data)
        | inr ERROR_OVERFLOW => Raise OverflowError
        | inr _ => Ok None
        end
  end.

Fixpoint _try_uint64_nogil (state : uint_state) (words : list str)
  : uint_state * (list Z + parse_error) :=
  match words with
  | [] => (state, inl [])
  | word :: rest =>
      if is_na word then
        let state := {| seen_sint := seen_sint state; seen_uint := seen_uint state;
                        seen_null := true |} in
        match _try_uint64_nogil state rest with
        | (state, inl data) => (state, inl (0%Z :: data))
        | r => r
        end
      else
        match str_to_uint64 state word with
        | (state, inl number) =>
            match _try_uint64_nogil state rest with
            | (state, inl data) => (state, inl (number :: data))
            | r => r
            end
        | (state, inr error) => (state, inr error)
        end
  end.

Definition _try_uint64 (words : list str) : result (option (list Z)) :=
  match _try_uint64_nogil uint_state_init words with
  | (_, inr ERROR_OVERFLOW) => Raise OverflowError
  | (_, inr _) => Ok None
  | (state, inl data) =>
      if uint64_conflict state then Raise ValueError
      else if seen_sint state then Raise OverflowError
      else Ok (Some data)
  end.

(** The double nearest to an integer, ties to even: the value of a C
    literal and of a C cast. *)
Definition float_of_Z (z : Z) : float := SF2Prim (binary_normalize prec emax z 0 false).

(** The table [e] of [precise_xstrtod]: the powers of ten from 1 to 1e308. *)
Definition e10 (k : Z) : float := float_of_Z (10 ^ k).

Definition max_digits : Z := 17.

(** A C [int], on overflow wrapped around. *)
Definition int32 (z : Z) : Z := ((z + 2 ^ 31) mod 2 ^ 32 - 2 ^ 31)%Z.

(** The loops of [precise_xstrtod] over digits: before the decimal point,
    where the digits after the seventeenth count into the exponent; after
    it, where they are passed over; and in the exponent. *)
Fixpoint integer_digits (number : float) (num_digits exponent : Z) (p : str)
  : float * Z * Z * str :=
  match p with
  | c :: t =>
      match digit_of c with
      | Some d =>
          if (num_digits <? max_digits)%Z
          then integer_digits (number * 10 + float_of_Z d)%float (num_digits + 1)%Z
                              exponent t
          else integer_digits number num_digits (int32 (exponent + 1)) t
      | None => (number, num_digits, exponent, p)
      end
  | [] => (number, num_digits, exponent, p)
  end.

Fixpoint decimal_digits (number : float) (num_digits num_decimals : Z) (p : str)
  : float * Z * Z * str :=
  match p with
  | c :: t =>
      match digit_of c with
      | Some d =>
          if (num_digits <? max_digits)%Z
          then decimal_digits (number * 10 + float_of_Z d)%float (num_digits + 1)%Z
                              (num_decimals + 1)%Z t
          else (number, num_digits, num_decimals, p)
      | None => (number, num_digits, num_decimals, p)
      end
  | [] => (number, num_digits, num_decimals, p)
  end.

Fixpoint exponent_digits (n num_digits : Z) (p : str) : Z * Z * str :=
  match p with
  | c :: t =>
      match digit_of c with
      | Some d =>
          if (num_digits <? max_digits)%Z
          then exponent_digits (int32 (n * 10 + d)) (num_digits + 1)%Z t
          else (n, num_digits, p)
      | None => (n, num_digits, p)
      end
  | [] => (n, num_digits, p)
  end.

(** [precise_xstrtod(str, &endptr, '.', 'E', '\0', 1, &error, NULL)], the
    converter of the default [float_precision]: the number and what is left
    of the word, or [None] where it sets [error]. *)
Definition precise_xstrtod (str_ : str) : option (float * str) :=
  let p := lstrip_by c_isspace str_ in
  let '(negative, p) := sign p in
  let '(number, num_digits, exponent, p) := integer_digits 0%float 0 0 p in
  let '(number, num_digits, exponent, p) :=
    if match p with c :: _ => chr_eqb c "."%char | [] => false end then
      let '(number, num_digits, num_decimals, p) :=
        decimal_digits number num_digits 0 (tl p) in
      let p := if (max_digits <=? num_digits)%Z then lstrip_by isdigit_ascii p else p in
      (number, num_digits, int32 (exponent - num_decimals), p)
    else (number, num_digits, exponent, p) in
  if (num_digits =? 0)%Z then None
  else
    let number := if negative then (- number)%float else number in
    let '(exponent, p) :=
      if match p with c :: _ => chr_eqb (lower c) "e"%char | [] => false end then
        let '(negative, q) := sign (tl p) in
        let '(n, num_digits, q') := exponent_digits 0 0 q in
        let exponent := if negative then int32 (exponent - n) else int32 (exponent + n) in
        (* without a digit, [p--]: back to the sign, or to the letter *)
        if (num_digits =? 0)%Z
        then (exponent, if List.length q <? List.length (tl p) then tl p else p)
        else (exponent, q')
      else (exponent, p) in
    if (308 <? exponent)%Z then None
    else
      let number :=
        if (0 <? exponent)%Z then (number * e10 exponent)%float
        else if (exponent <? -308)%Z then
          if (exponent <? -616)%Z then 0%float
          else (number / e10 (-308 - exponent) / e10 308)%float
        else (number / e10 (- exponent))%float in
      if PrimFloat.eqb number infinity || PrimFloat.eqb number neg_infinity then None
      else Some (number, lstrip_by c_isspace p).

(** One word of [_try_double]: the converter has to use the word up; else
    the word may still be a name of infinity. *)
Definition to_double (word : str) : option float :=
  match precise_xstrtod word with
  | Some (number, []) => Some number
  | _ =>
      let w := lower_str word in
      if name_in w (map L ["inf"; "+inf"; "infinity"; "+infinity"]%string)
      then Some infinity
      else if name_in w (map L ["-inf"; "-infinity"]%string) then Some neg_infinity
      else None
  end.

(** [to_boolean]: the word is TRUE or FALSE, in letters of either case. *)
Definition to_boolean (item : str) : option bool :=
  if str_eqb (lower_str item) (L "true") then Some true
  else if str_eqb (lower_str item) (L "false") then Some false
  else None.

(** Every word is a missing-value marker or is read by [f]: the loops of
    [_try_double] and [_try_bool_flex]. *)
Fixpoint try_all (f : str -> option value) (words : list str) : option (list value) :=
  match words with
  | [] => Some []
  | word :: rest =>
      if is_na word then option_map (cons NaN) (try_all f rest)
      else match f word, try_all f rest with
           | Some v, Some vs => Some (v :: vs)
           | _, _ => None
           end
  end.

Definition _try_double (words : list str) : option (list value) :=
  try_all (fun word => option_map VFloat (to_double word)) words.

Definition _try_bool_flex (words : list str) : option (list value) :=
  try_all (fun word => option_map VBool (to_boolean word)) words.

(** [_string_convert]: the words as they are; with [na_filter] set, the
    missing-value markers become [NaN]. *)
Definition _string_convert (na_filter : bool) (words : list str) : Series :=
  {| s_dtype := object;
     s_values := map (fun word => if na_filter && is_na word then NaN else VStr word)
                     words |}.

Definition na_count (words : list str) : nat := List.length (filter is_na words).

(** [result.astype(dtype)] of an integer column. *)
Definition astype (dt : dtype) (arr : Series) : Series :=
  match dt with
  | uint64 =>
      {| s_dtype := uint64;
         s_values := map (fun v => match v with
                                   | VInt z => VInt (z mod 2 ^ 64)
                                   | _ => v
                                   end) (s_values arr) |}
  | _ => arr
  end.

(** [_convert_with_dtype], with the count of missing values.  Only the
    integer conversion raises. *)
Definition _convert_with_dtype (dt : dtype) (na_filter : bool) (words : list str)
  : result (option (Series * nat)) :=
  match dt with
  | int64 | uint64 =>
      col_res <-
        match _try_int64 words with
        | Raise OverflowError =>
            data <- _try_uint64 words ;;
            Ok (option_map (fun d => ({| s_dtype := uint64; s_values := map VInt d |}, 0))
                           data)
        | r =>
            data <- r ;;
            Ok (option_map (fun d => ({| s_dtype := int64; s_values := map VInt d |},
                                      na_count words)) data)
        end ;;
      Ok (option_map (fun '(arr, n) => (astype dt arr, n)) col_res)
  | float64 =>
      Ok (option_map (fun vs => ({| s_dtype := float64; s_values := vs |}, na_count words))
                     (_try_double words))
  | bool_ =>
      Ok (option_map (fun vs => ({| s_dtype := bool_; s_values := vs |}, na_count words))
                     (_try_bool_flex words))
  | object =>
      Ok (Some (_string_convert na_filter words,
                if na_filter then na_count words else 0))
  end.

Definition dtype_cast_order : list dtype := [int64; float64; bool_; object].

(** [_convert_tokens]: the first type of the cast order that takes every
    word.  After a [ValueError], raised where unsigned numbers stand with
    signed or missing ones, the column is left as it is, the markers of
    missing values included; after an [OverflowError] it is a column of
    strings. *)
Fixpoint cast_loop (order : list dtype) (words : list str) : option (Series * nat) :=
  match order with
  | [] => None
  | dt :: rest =>
      match _convert_with_dtype dt true words with
      | Ok (Some col_res) => Some col_res
      | Ok None => cast_loop rest words
      | Raise ValueError => Some (_string_convert false words, 0)
      | Raise _ => Some (_string_convert true words, na_count words)
      end
  end.

(** [_maybe_upcast]: an integer column with missing values becomes a float
    column, in which every cell that held the marker [INT64_MIN] is [NaN];
    a boolean column becomes an object column. *)
Definition _maybe_upcast (arr : Series) : Series :=
  match s_dtype arr with
  | int64 =>
      {| s_dtype := float64;
         s_values := map (fun v => match v with
                                   | VInt z => if (z =? INT64_MIN)%Z then NaN
                                               else VFloat (float_of_Z z)
                                   | _ => v
                                   end) (s_values arr) |}
  | uint64 =>
      {| s_dtype := float64;
         s_values := map (fun v => match v with
                                   | VInt z => if (z =? UINT64_MAX)%Z then NaN
                                               else VFloat (float_of_Z z)
                                   | _ => v
                                   end) (s_values arr) |}
  | bool_ => {| s_dtype := object; s_values := s_values arr |}
  | _ => arr
  end.

(** One column of [_convert_column_data].  A table without data lines has
    object columns. *)
Definition convert_tokens (words : list str) : Series :=
  if (List.length words =? 0) then {| s_dtype := object; s_values := [] |} else
  match cast_loop dtype_cast_order words with
  | Some (col_res, n) => if 0 <? n then _maybe_upcast col_res else col_res
  | None => _string_convert true words
  end.

(** *** [read_csv] *)

(** Column [j] of the data lines. *)
Definition column (j : nat) (lines : list (list str)) : list str :=
  map (fun l => nth j l []) lines.

(** When the first data line has more fields than the header, the leading
    extra columns become the index and the header names the last columns. *)
Definition read_csv (csv_text : str) : result DataFrame :=
  lines <- tokenize_all csv_text ;;
  match lines with
  | [] => Raise EmptyDataError
  | header :: body =>
      let passed_count := List.length header in
      let field_count :=
        match body with
        | [] => passed_count
        | first :: _ => List.length first
        end in
      let leading_cols := field_count - passed_count in
      let cols := map (fun j => convert_tokens (column j body)) (List.seq 0 field_count) in
      Ok {| columns := header_names header;
            index := if leading_cols =? 0 then RangeIndex (List.length body)
                     else LabelIndex (firstn leading_cols cols);
            data := skipn leading_cols cols |}
  end.

(** [series.str.strip()]: only an object column that holds strings has the
    [.str] accessor; a cell that is not a string becomes [NaN]. *)
Definition is_bool (v : value) : bool :=
  match v with VBool _ => true | _ => false end.

Definition str_strip (s : Series) : result Series :=
  if existsb is_bool (s_values s)
  then Raise AttributeError
  else Ok {| s_dtype := object;
             s_values := map (fun v => match v with
                                       | VStr x => VStr (strip x)
                                       | _ => NaN
                                       end) (s_values s) |}.

End Pandas.

(** ** The Genie clients *)

(** The two client modules have the helper functions below in common, word
    for word; each is embedded on its own from its own file. *)

(** What [agent.invoke] hands back: a dict with an optional [messages]
    list, or an object with an optional [content] attribute; a message is
    a dict with optional [role] and [content] keys, or such an object. *)
Module Langchain.
Import Py.

Inductive Message : Type :=
| DictMessage (role content : option str)
| ObjMessage (content : option str).

Inductive AgentResult : Type :=
| DictResult (messages : option (list Message))
| ObjResult (content : option str).

Definition Agent := str -> result AgentResult.

End Langchain.

Module GenieDatabricks.
Import Py Re Pandas Langchain.

(** [sql_patterns], in the order of the list. *)
Definition fence : str := L "```".

(** [```sql\s*(.*?)\s*```] *)
Definition sql_block : re :=
  cat [lit (L "```sql"); Star true isspace; Grp (Star false any);
       Star true isspace; lit fence].

(** [```\s*(SELECT.*?)\s*```] *)
Definition code_block : re :=
  cat [lit fence; Star true isspace;
       Grp (Seq (lit (L "SELECT")) (Star false any));
       Star true isspace; lit fence].

(** [(SELECT\s+.*?(?:;|$))] *)
Definition inline_select : re :=
  Grp (cat [lit (L "SELECT"); plus isspace; Star false any;
            Alt (Chr (ci ";"%char)) Eol]).

(** [(INSERT\s+.*?(?:;|$))] *)
Definition inline_insert : re :=
  Grp (cat [lit (L "INSERT"); plus isspace; Star false any;
            Alt (Chr (ci ";"%char)) Eol]).

(** [(UPDATE\s+.*?(?:;|$))] *)
Definition inline_update : re :=
  Grp (cat [lit (L "UPDATE"); plus isspace; Star false any;
            Alt (Chr (ci ";"%char)) Eol]).

(** [(DELETE\s+.*?(?:;|$))] *)
Definition inline_delete : re :=
  Grp (cat [lit (L "DELETE"); plus isspace; Star false any;
            Alt (Chr (ci ";"%char)) Eol]).

Definition sql_patterns : list re :=
  [sql_block; code_block; inline_select; inline_insert; inline_update;
   inline_delete].

(** The loop over the patterns: the first pattern with a match decides. *)
Fixpoint first_match (patterns : list re) (text : str) : str :=
  match patterns with
  | [] => []
  | pattern :: rest =>
      match findall pattern text with
      | match0 :: _ => strip match0
      | [] => first_match rest text
      end
  end.

Definition extract_sql_from_text (text : str) : str :=
  first_match sql_patterns text.

Definition PIPE : ascii := "|"%char.

(** The separator pattern [^[\|\s\-:]+$]. *)
Definition separator_pattern : re :=
  cat [Bol;
       plus (fun c => chr_eqb c PIPE || isspace c || chr_eqb c "-"%char
                      || chr_eqb c ":"%char);
       Eol].

(** The loop over the lines; [break] returns what was collected. *)
Fixpoint collect_table_lines (lines : list str) (table_lines : list str)
         (in_table : bool) : list str :=
  match lines with
  | [] => table_lines
  | line :: rest =>
      let line := strip line in
      if contains_chr PIPE line && (2 <=? count PIPE line) then
        if negb (re_match separator_pattern line)
        then collect_table_lines rest (table_lines ++ [line]) true
        else collect_table_lines rest table_lines true
      else if in_table && str_eqb line [] then table_lines
      else if in_table && negb (contains_chr PIPE line) then table_lines
      else collect_table_lines rest table_lines in_table
  end.

(** The cells of one collected line. *)
Definition cells_of (line : str) : list str :=
  map strip (split PIPE (strip_chars [PIPE] line)).

Definition csv_line (line : str) : str :=
  join (L ",") (map (fun cell => [QUOTE] ++ cell ++ [QUOTE]) (cells_of line)).

(** The loop [for col in df.columns]: [df[col]] is a column only when the
    name occurs once. *)
Fixpoint strip_object_columns (all_names names : list str) (data : list Series)
  : result (list Series) :=
  match names, data with
  | col :: names', s :: data' =>
      if 2 <=? List.length (filter (str_eqb col) all_names) then Raise AttributeError
      else
        s' <- match s_dtype s with
              | object => str_strip s
              | _ => Ok s
              end ;;
        rest <- strip_object_columns all_names names' data' ;;
        Ok (s' :: rest)
  | _, _ => Ok []
  end.

(** The body of the [if len(table_lines) >= 2] branch. *)
Definition frame_of_table_lines (table_lines : list str) : result DataFrame :=
  let csv_lines := map csv_line table_lines in
  let csv_text := join [LF] csv_lines in
  df <- read_csv csv_text ;;
  let names := map strip (columns df) in
  data' <- strip_object_columns names names (data df) ;;
  Ok {| columns := names; index := index df; data := data' |}.

Definition extract_data_from_text (text : str) : DataFrame :=
  let lines := split LF text in
  let table_lines := collect_table_lines lines [] false in
  if 2 <=? List.length table_lines then
    match frame_of_table_lines table_lines with
    | Ok df => df
    | Raise _ => empty_frame
    end
  else empty_frame.

Record GenieResult : Type := { answer : str; sql : str; df : DataFrame }.

Definition enhanced_question (question : str) : str :=
  join [LF] (map L [
    EmptyString;
    "Context: You are analyzing data for Panda Restaurant Group, a fast-casual restaurant chain. ";
    "The data includes store performance, P&L metrics, operational data, and regional comparisons.";
    EmptyString;
    "Available tables and views:";
    "- users.ashwin_pothukuchi.pandapnl: Main P&L data by store and period (storenumber, periodid, Type, SubType, LineItem, Actual, Plan, Group)";
    "- users.ashwin_pothukuchi.storedim: Store dimension (storenumber, store_name, state, region, square_feet, store_type)  ";
    "- users.ashwin_pothukuchi.dimperiod: Period dimension (PeriodID, FiscalYear, FiscalPeriod, FiscalPeriodName, etc.)";
    "- users.ashwin_pothukuchi.panda_monthly_summary: Monthly P&L aggregates (month_year, total_revenue_sum, labor_pct_of_sales, ebitda_margin_pct, etc.)";
    "- users.ashwin_pothukuchi.panda_store_summary: Store-level performance summary (store_name, total_revenue, labor_pct_of_sales, ebitda_margin_pct, sales_per_sq_ft, etc.)";
    EmptyString;
    "Key data structure:";
    "- P&L data is organized by Type (Revenue, COGS, Labor, OpEx), SubType, and LineItem";
    "- Revenue items are positive, cost items are negative";
    "- Margins and percentages are pre-calculated in summary views";
    "- Store performance can be analyzed by region, store type, and size";
    EmptyString]%string)
  ++ [LF] ++ L "Question: " ++ question ++ [LF] ++
  join [LF] (map L [
    EmptyString;
    "Please provide actionable insights for restaurant operations and management.";
    "If you execute a SQL query, please include the query in your response.";
    "If you return data, please format it clearly in a table.";
    "Focus on operational metrics like labor costs, food costs, sales performance, and efficiency.";
    EmptyString]%string).

Definition truthy (content : option str) : bool :=
  match content with
  | Some (_ :: _) => true
  | _ => false
  end.

Definition is_assistant (role : option str) : bool :=
  match role with
  | Some r => str_eqb r (L "assistant")
  | None => false
  end.

(** The loop [for msg in reversed(messages)], over the reversed list. *)
Fixpoint scan_messages (msgs : list Message) : str :=
  match msgs with
  | [] => []
  | DictMessage role content :: rest =>
      if is_assistant role && truthy content
      then match content with Some c => c | None => [] end
      else scan_messages rest
  | ObjMessage (Some c) :: _ => c
  | ObjMessage None :: rest => scan_messages rest
  end.

(** The response text taken out of the agent's result. *)
Definition content_of (result : AgentResult) : str :=
  match result with
  | DictResult messages =>
      scan_messages (rev (match messages with Some l => l | None => [] end))
  | ObjResult (Some c) => c
  | ObjResult None => []
  end.

Definition str_of_exn (e : exn) : str :=
  match e with
  | AgentError msg => msg
  | _ => []
  end.

Definition ask_genie_structured (agent : Agent) (question : str) : GenieResult :=
  match agent (enhanced_question question) with
  | Ok result =>
      let content := content_of result in
      if negb (truthy (Some content)) then
        {| answer := L "No response from Genie"; sql := []; df := empty_frame |}
      else
        let sql := extract_sql_from_text content in
        let df := extract_data_from_text content in
        {| answer := content; sql := sql; df := df |}
  | Raise e =>
      {| answer := L "Error calling Genie: " ++ str_of_exn e; sql := [];
         df := empty_frame |}
  end.


(** [ask_genie]: the answer text alone. *)
Definition ask_genie (agent : Agent) (question : str) : str :=
  answer (ask_genie_structured agent question).

(** [get_genie_health_status]; [ask_genie] raises nothing, its errors are
    answers, so the [except] clause has no case here. *)
Definition get_genie_health_status (agent : Agent) : str :=
  let test_result :=
    ask_genie agent (L "Hello, can you help me analyze Panda Restaurant data?") in
  if truthy (Some test_result) && (0 <? List.length (strip test_result))
  then L "healthy"
  else L "error: No response from Genie".

(** The environment, as [os.getenv] reads it. *)
Definition Env := str -> option str.

(** The check of the module body: the names of the required variables that
    are unset or empty, and the message of the [EnvironmentError] raised
    for them, if any. *)
Definition _missing (env : Env) : list str :=
  map fst
      (filter (fun item => negb (truthy (snd item)))
              [(L "GENIE_SPACE_ID", env (L "GENIE_SPACE_ID"));
               (L "LLM_ENDPOINT_NAME", env (L "LLM_ENDPOINT_NAME"))]).

Definition environment_error (env : Env) : option str :=
  match _missing env with
  | [] => None
  | names =>
      Some (L "Missing required environment variables for Genie client: "
            ++ join (L ", ") names)
  end.

End GenieDatabricks.

(** [backend/genie_client_local.py]. *)
Module GenieLocal.
Import Py Re Pandas Langchain.

Definition fence : str := L "```".

(** [```sql\s*(.*?)\s*```] *)
Definition sql_block : re :=
  cat [lit (L "```sql"); Star true isspace; Grp (Star false any);
       Star true isspace; lit fence].

(** [```\s*(SELECT.*?)\s*```] *)
Definition code_block : re :=
  cat [lit fence; Star true isspace;
       Grp (Seq (lit (L "SELECT")) (Star false any));
       Star true isspace; lit fence].

(** [(SELECT\s+.*?(?:;|$))] *)
Definition inline_select : re :=
  Grp (cat [lit (L "SELECT"); plus isspace; Star false any;
            Alt (Chr (ci ";"%char)) Eol]).

(** [(INSERT\s+.*?(?:;|$))] *)
Definition inline_insert : re :=
  Grp (cat [lit (L "INSERT"); plus isspace; Star false any;
            Alt (Chr (ci ";"%char)) Eol]).

(** [(UPDATE\s+.*?(?:;|$))] *)
Definition inline_update : re :=
  Grp (cat [lit (L "UPDATE"); plus isspace; Star false any;
            Alt (Chr (ci ";"%char)) Eol]).

(** [(DELETE\s+.*?(?:;|$))] *)
Definition inline_delete : re :=
  Grp (cat [lit (L "DELETE"); plus isspace; Star false any;
            Alt (Chr (ci ";"%char)) Eol]).

Definition sql_patterns : list re :=
  [sql_block; code_block; inline_select; inline_insert; inline_update;
   inline_delete].

Fixpoint first_match (patterns : list re) (text : str) : str :=
  match patterns with
  | [] => []
  | pattern :: rest =>
      match findall pattern text with
      | match0 :: _ => strip match0
      | [] => first_match rest text
      end
  end.

Definition extract_sql_from_text (text : str) : str :=
  first_match sql_patterns text.

Definition PIPE : ascii := "|"%char.

Definition separator_pattern : re :=
  cat [Bol;
       plus (fun c => chr_eqb c PIPE || isspace c || chr_eqb c "-"%char
                      || chr_eqb c ":"%char);
       Eol].

Fixpoint collect_table_lines (lines : list str) (table_lines : list str)
         (in_table : bool) : list str :=
  match lines with
  | [] => table_lines
  | line :: rest =>
      let line := strip line in
      if contains_chr PIPE line && (2 <=? count PIPE line) then
        if negb (re_match separator_pattern line)
        then collect_table_lines rest (table_lines ++ [line]) true
        else collect_table_lines rest table_lines true
      else if in_table && str_eqb line [] then table_lines
      else if in_table && negb (contains_chr PIPE line) then table_lines
      else collect_table_lines rest table_lines in_table
  end.

Definition cells_of (line : str) : list str :=
  map strip (split PIPE (strip_chars [PIPE] line)).

Definition csv_line (line : str) : str :=
  join (L ",") (map (fun cell => [QUOTE] ++ cell ++ [QUOTE]) (cells_of line)).

Fixpoint strip_object_columns (all_names names : list str) (data : list Series)
  : result (list Series) :=
  match names, data with
  | col :: names', s :: data' =>
      if 2 <=? List.length (filter (str_eqb col) all_names) then Raise AttributeError
      else
        s' <- match s_dtype s with
              | object => str_strip s
              | _ => Ok s
              end ;;
        rest <- strip_object_columns all_names names' data' ;;
        Ok (s' :: rest)
  | _, _ => Ok []
  end.

Definition frame_of_table_lines (table_lines : list str) : result DataFrame :=
  let csv_lines := map csv_line table_lines in
  let csv_text := join [LF] csv_lines in
  df <- read_csv csv_text ;;
  let names := map strip (columns df) in
  data' <- strip_object_columns names names (data df) ;;
  Ok {| columns := names; index := index df; data := data' |}.

Definition extract_data_from_text (text : str) : DataFrame :=
  let lines := split LF text in
  let table_lines := collect_table_lines lines [] false in
  if 2 <=? List.length table_lines then
    match frame_of_table_lines table_lines with
    | Ok df => df
    | Raise _ => empty_frame
    end
  else empty_frame.

Record GenieResult : Type := { answer : str; sql : str; df : DataFrame }.

Definition enhanced_question (question : str) : str :=
  join [LF] (map L [
    EmptyString;
    "Context: You are analyzing data for Panda Restaurant Group, a fast-casual restaurant chain. ";
    "The data includes store performance, P&L metrics, operational data, and regional comparisons.";
    EmptyString]%string)
  ++ [LF] ++ L "Question: " ++ question ++ [LF] ++
  join [LF] (map L [
    EmptyString;
    "If you execute a SQL query, please include the query in your response.";
    "If you return data, please format it clearly.";
    "Focus on actionable insights for restaurant operations and management.";
    EmptyString]%string).

Definition truthy (content : option str) : bool :=
  match content with
  | Some (_ :: _) => true
  | _ => false
  end.

Definition is_assistant (role : option str) : bool :=
  match role with
  | Some r => str_eqb r (L "assistant")
  | None => false
  end.

Fixpoint scan_messages (msgs : list Message) : str :=
  match msgs with
  | [] => []
  | DictMessage role content :: rest =>
      if is_assistant role && truthy content
      then match content with Some c => c | None => [] end
      else scan_messages rest
  | ObjMessage (Some c) :: _ => c
  | ObjMessage None :: rest => scan_messages rest
  end.

Definition content_of (result : AgentResult) : str :=
  match result with
  | DictResult messages =>
      scan_messages (rev (match messages with Some l => l | None => [] end))
  | ObjResult (Some c) => c
  | ObjResult None => []
  end.

Definition str_of_exn (e : exn) : str :=
  match e with
  | AgentError msg => msg
  | _ => []
  end.

Definition ask_genie_structured (agent : Agent) (question : str) : GenieResult :=
  match agent (enhanced_question question) with
  | Ok result =>
      let content := content_of result in
      if negb (truthy (Some content)) then
        {| answer := L "No response from Genie"; sql := []; df := empty_frame |}
      else
        let sql := extract_sql_from_text content in
        let df := extract_data_from_text content in
        {| answer := content; sql := sql; df := df |}
  | Raise e =>
      {| answer := L "Error calling Genie: " ++ str_of_exn e; sql := [];
         df := empty_frame |}
  end.


(** [ask_genie]: the answer text alone. *)
Definition ask_genie (agent : Agent) (question : str) : str :=
  answer (ask_genie_structured agent question).

(** [get_genie_health_status]; [ask_genie] raises nothing, its errors are
    answers, so the [except] clause has no case here. *)
Definition get_genie_health_status (agent : Agent) : str :=
  let test_result :=
    ask_genie agent (L "Hello, can you help me with Panda Restaurant data?") in
  if truthy (Some test_result) && (0 <? List.length (strip test_result))
  then L "healthy"
  else L "error: No response from Genie".

(** The environment, as [os.getenv] reads it. *)
Definition Env := str -> option str.

(** [has_pat_auth], as a truth value. *)
Definition has_pat_auth (env : Env) : bool :=
  truthy (env (L "DB_HOST")) && truthy (env (L "DB_PAT")).

Definition _missing (env : Env) : list str :=
  map fst
      (filter (fun item => negb (truthy (snd item)))
              [(L "GENIE_SPACE_ID", env (L "GENIE_SPACE_ID"));
               (L "LLM_ENDPOINT_NAME", env (L "LLM_ENDPOINT_NAME"))]).

(** The checks of the module body: the message of the [EnvironmentError]
    raised, if any. *)
Definition environment_error (env : Env) : option str :=
  if negb (has_pat_auth env) then
    Some (L "Missing authentication credentials. For local development, provide DB_HOST and DB_PAT environment variables.")
  else
    match _missing env with
    | [] => None
    | names =>
        Some (L "Missing required environment variables for Genie client: "
              ++ join (L ", ") names)
    end.

End GenieLocal.

(** ** The claim validator of [validate_analysis.py] *)

Module Validator.
Import Py.
Local Open Scope Q_scope.

(** A row of [self.df], on the four columns the validator reads.  A text
    cell may be missing ([NaN]); the numeric cells are exact rationals. *)
Record Row : Type :=
  { Type_ : option str; LineItem : option str; Actual : Q; Plan : Q }.

Definition DataFrame := list Row.

(** [expected_value] and [actual_value]: a dict with the keys [actual],
    [plan] and [variance], or a number. *)
Inductive value : Type :=
| Dict (actual plan variance : Q)
| Num (x : Q).

(** The dataclass, without its [notes] text. *)
Record ValidationResult : Type :=
  { claim : str;
    expected_value : value;
    actual_value : value;
    variance : Q;
    is_valid : bool }.

Definition Qltb (x y : Q) : bool := negb (Qle_bool y x).

(** [self.df['Type'] == s], row by row. *)
Definition type_is (s : str) (r : Row) : bool :=
  match Type_ r with
  | Some t => str_eqb t s
  | None => false
  end.

(** [self.df['LineItem'].str.contains(pat, na=False)], row by row; the
    patterns of the source have no regular-expression operator in them, so
    the search is for the substring. *)
Definition line_item_contains (pat : str) (r : Row) : bool :=
  match LineItem r with
  | Some t => contains pat t
  | None => false
  end.

Definition empty (data : DataFrame) : bool :=
  match data with [] => true | _ => false end.

(** [column.iloc[0]]. *)
Definition iloc0 (column : list Q) : result Q :=
  match column with
  | x :: _ => Ok x
  | [] => Raise IndexError
  end.

Definition div (x y : Q) : result Q :=
  if Qeq_bool y 0 then Raise ZeroDivisionError else Ok (x / y).

(** [((actual - plan) / plan * 100) if plan != 0 else 0]. *)
Definition variance_pct_of (actual plan : Q) : result Q :=
  if negb (Qeq_bool plan 0)
  then q <- div (actual - plan) plan ;; Ok (q * 100)
  else Ok 0.

Definition food_sales (df : DataFrame) : DataFrame :=
  filter (fun r => type_is (L "Net Sales") r && line_item_contains (L "Sales_Food") r) df.

Definition beverage_sales (df : DataFrame) : DataFrame :=
  filter (fun r => type_is (L "Net Sales") r && line_item_contains (L "Sales_Beverage") r) df.

Definition retail_sales (df : DataFrame) : DataFrame :=
  filter (fun r => type_is (L "Net Sales") r && line_item_contains (L "Sales_Retail") r) df.

Definition food_claim : str :=
  L "Food Sales: $320,433 actual vs $341,386 plan (-6.1%)".
Definition beverage_claim : str :=
  L "Beverage Sales: $15,826 actual vs $19,442 plan (-18.6%)".
Definition retail_claim : str :=
  L "Retail Sales variance: -30.8%".

Definition validate_revenue_claims (df : DataFrame) : result (list ValidationResult) :=
  let results := [] in
  (* Claim 1 *)
  results <-
    (if negb (empty (food_sales df)) then
       actual <- iloc0 (map Actual (food_sales df)) ;;
       plan <- iloc0 (map Plan (food_sales df)) ;;
       variance_pct <- variance_pct_of actual plan ;;
       Ok (results ++
           [{| claim := food_claim;
               expected_value := Dict 320433 341386 (-61 # 10);
               actual_value := Dict actual plan variance_pct;
               variance := Qabs (variance_pct - (-61 # 10));
               is_valid := Qltb (Qabs (actual - 320433)) 1
                           && Qltb (Qabs (plan - 341386)) 1 |}])
     else Ok results) ;;
  (* Claim 2 *)
  results <-
    (if negb (empty (beverage_sales df)) then
       actual <- iloc0 (map Actual (beverage_sales df)) ;;
       plan <- iloc0 (map Plan (beverage_sales df)) ;;
       variance_pct <- variance_pct_of actual plan ;;
       Ok (results ++
           [{| claim := beverage_claim;
               expected_value := Dict 15826 19442 (-186 # 10);
               actual_value := Dict actual plan variance_pct;
               variance := Qabs (variance_pct - (-186 # 10));
               is_valid := Qltb (Qabs (actual - 15826)) 1
                           && Qltb (Qabs (plan - 19442)) 1 |}])
     else Ok results) ;;
  (* Claim 3 *)
  results <-
    (if negb (empty (retail_sales df)) then
       actual <- iloc0 (map Actual (retail_sales df)) ;;
       plan <- iloc0 (map Plan (retail_sales df)) ;;
       variance_pct <- variance_pct_of actual plan ;;
       Ok (results ++
           [{| claim := retail_claim;
               expected_value := Num (-308 # 10);
               actual_value := Num variance_pct;
               variance := Qabs (variance_pct - (-308 # 10));
               is_valid := Qltb (Qabs (variance_pct - (-308 # 10))) 1 |}])
     else Ok results) ;;
  Ok results.

(** An entry of [financial_claims]. *)
Record Claim : Type :=
  { metric : str;
    type_filter : str;
    line_item_filter : option str;
    expected_actual : Q;
    expected_plan : Q;
    expected_variance : Q }.

Definition food_sales_summary : Claim :=
  {| metric := L "Food Sales"; type_filter := L "Net Sales";
     line_item_filter := Some (L "Sales_Food");
     expected_actual := 320433; expected_plan := 341386;
     expected_variance := -61 # 10 |}.

Definition beverage_sales_summary : Claim :=
  {| metric := L "Beverage Sales"; type_filter := L "Net Sales";
     line_item_filter := Some (L "Sales_Beverage");
     expected_actual := 15826; expected_plan := 19442;
     expected_variance := -186 # 10 |}.

Definition controllable_profit_summary : Claim :=
  {| metric := L "Controllable Profit"; type_filter := L "Controllable Profit";
     line_item_filter := None;
     expected_actual := 539814; expected_plan := 577730;
     expected_variance := -66 # 10 |}.

Definition financial_claims : list Claim :=
  [food_sales_summary; beverage_sales_summary; controllable_profit_summary].

(** [if claim["line_item_filter"]]: neither [None] nor empty. *)
Definition has_filter (f : option str) : bool :=
  match f with
  | Some (_ :: _) => true
  | _ => false
  end.

(** The rows [data] of one claim. *)
Definition claim_data (df : DataFrame) (c : Claim) : DataFrame :=
  if has_filter (line_item_filter c) then
    filter (fun r => type_is (type_filter c) r
                     && line_item_contains
                          (match line_item_filter c with Some f => f | None => [] end) r) df
  else filter (type_is (type_filter c)) df.

Definition summary_claim_name (c : Claim) : str := metric c ++ L " summary metrics".

(** The body of the loop [for claim in financial_claims]. *)
Definition summary_body (df : DataFrame) (results : list ValidationResult) (c : Claim)
  : result (list ValidationResult) :=
  let data := claim_data df c in
  if negb (empty data) then
    actual <- iloc0 (map Actual data) ;;
    plan <- iloc0 (map Plan data) ;;
    variance_pct <- variance_pct_of actual plan ;;
    (* Handle negative values *)
    let negative := Qltb actual 0 in
    let plan := if negative then Qabs plan else plan in
    let actual := if negative then Qabs actual else actual in
    let is_valid :=
      Qltb (Qabs (actual - expected_actual c)) 1
      && Qltb (Qabs (plan - expected_plan c)) 1
      && Qltb (Qabs (variance_pct - expected_variance c)) (1 # 2) in
    Ok (results ++
        [{| claim := summary_claim_name c;
            expected_value :=
              Dict (expected_actual c) (expected_plan c) (expected_variance c);
            actual_value := Dict actual plan variance_pct;
            variance := Qabs (variance_pct - expected_variance c);
            is_valid := is_valid |}])
  else Ok results.

Fixpoint summary_loop (df : DataFrame) (claims : list Claim)
         (results : list ValidationResult) : result (list ValidationResult) :=
  match claims with
  | [] => Ok results
  | c :: rest => results' <- summary_body df results c ;; summary_loop df rest results'
  end.

Definition validate_summary_metrics (df : DataFrame) : result (list ValidationResult) :=
  summary_loop df financial_claims [].


(** ** The other claim groups *)

Definition restaurant_contrib (df : DataFrame) : DataFrame :=
  filter (type_is (L "Restaurant Contribution")) df.

Definition controllable_profit (df : DataFrame) : DataFrame :=
  filter (type_is (L "Controllable Profit")) df.

Definition restaurant_contribution_claim : str :=
  L "Restaurant Contribution: $562,065 vs $598,443 (-6.1%)".
Definition controllable_profit_claim : str :=
  L "Controllable Profit variance: -6.6%".

Definition validate_profitability_claims (df : DataFrame)
  : result (list ValidationResult) :=
  let results := [] in
  (* Claim 1 *)
  results <-
    (if negb (empty (restaurant_contrib df)) then
       actual <- iloc0 (map Actual (restaurant_contrib df)) ;;
       plan <- iloc0 (map Plan (restaurant_contrib df)) ;;
       variance_pct <- variance_pct_of actual plan ;;
       Ok (results ++
           [{| claim := restaurant_contribution_claim;
               expected_value := Dict 562065 598443 (-61 # 10);
               actual_value := Dict actual plan variance_pct;
               variance := Qabs (variance_pct - (-61 # 10));
               is_valid := Qltb (Qabs (actual - 562065)) 1
                           && Qltb (Qabs (plan - 598443)) 1 |}])
     else Ok results) ;;
  (* Claim 2 *)
  results <-
    (if negb (empty (controllable_profit df)) then
       actual <- iloc0 (map Actual (controllable_profit df)) ;;
       plan <- iloc0 (map Plan (controllable_profit df)) ;;
       variance_pct <- variance_pct_of actual plan ;;
       Ok (results ++
           [{| claim := controllable_profit_claim;
               expected_value := Num (-66 # 10);
               actual_value := Num variance_pct;
               variance := Qabs (variance_pct - (-66 # 10));
               is_valid := Qltb (Qabs (variance_pct - (-66 # 10))) (1 # 10) |}])
     else Ok results) ;;
  Ok results.

Definition promotions (df : DataFrame) : DataFrame :=
  filter (fun r => type_is (L "Net Sales") r
                   && line_item_contains (L "Sales_Promotion") r) df.

Definition promotions_claim : str :=
  L "Sales Promotions: $19,458 vs $14,164 (+37.4%)".

Definition validate_promotional_claims (df : DataFrame)
  : result (list ValidationResult) :=
  let results := [] in
  results <-
    (if negb (empty (promotions df)) then
       actual <- (x <- iloc0 (map Actual (promotions df)) ;; Ok (Qabs x)) ;;
       plan <- (x <- iloc0 (map Plan (promotions df)) ;; Ok (Qabs x)) ;;
       variance_pct <- variance_pct_of actual plan ;;
       Ok (results ++
           [{| claim := promotions_claim;
               expected_value := Dict 19458 14164 (374 # 10);
               actual_value := Dict actual plan variance_pct;
               variance := Qabs (variance_pct - (374 # 10));
               is_valid := Qltb (Qabs (actual - 19458)) 1
                           && Qltb (Qabs (plan - 14164)) 1 |}])
     else Ok results) ;;
  Ok results.

Definition employee_meals (df : DataFrame) : DataFrame :=
  filter (fun r => type_is (L "Net Sales") r
                   && line_item_contains (L "Employee_Meals") r) df.

Definition employee_meals_claim : str :=
  L "Employee Meals: $5,882 vs $10,454 (-43.7%)".

Definition validate_employee_meals_claims (df : DataFrame)
  : result (list ValidationResult) :=
  let results := [] in
  results <-
    (if negb (empty (employee_meals df)) then
       actual <- (x <- iloc0 (map Actual (employee_meals df)) ;; Ok (Qabs x)) ;;
       plan <- (x <- iloc0 (map Plan (employee_meals df)) ;; Ok (Qabs x)) ;;
       variance_pct <- variance_pct_of actual plan ;;
       Ok (results ++
           [{| claim := employee_meals_claim;
               expected_value := Dict 5882 10454 (-437 # 10);
               actual_value := Dict actual plan variance_pct;
               variance := Qabs (variance_pct - (-437 # 10));
               is_valid := Qltb (Qabs (actual - 5882)) 1
                           && Qltb (Qabs (plan - 10454)) 1 |}])
     else Ok results) ;;
  Ok results.

(** ** [run_all_validations] *)

(** The dict it returns; [detailed_results] keeps the outcomes themselves. *)
Record Report : Type :=
  { total_validations : Z;
    valid_count : Z;
    invalid_count : Z;
    accuracy_rate : Q;
    detailed_results : list ValidationResult }.

(** [sum(...)] of integers. *)
Definition sum (l : list Z) : Z := fold_left Z.add l 0%Z.

(** The rating line printed under the summary. *)
Inductive Rating : Type := EXCELLENT | GOOD | FAIR | POOR.

Definition rating (accuracy_rate : Q) : Rating :=
  if Qle_bool 95 accuracy_rate then EXCELLENT
  else if Qle_bool 85 accuracy_rate then GOOD
  else if Qle_bool 70 accuracy_rate then FAIR
  else POOR.

Definition run_all_validations (df : DataFrame) : result Report :=
  revenue_results <- validate_revenue_claims df ;;
  profitability_results <- validate_profitability_claims df ;;
  promotional_results <- validate_promotional_claims df ;;
  employee_meals_results <- validate_employee_meals_claims df ;;
  summary_results <- validate_summary_metrics df ;;
  let all_results :=
    revenue_results ++ profitability_results ++ promotional_results
    ++ employee_meals_results ++ summary_results in
  let total_validations := Z.of_nat (List.length all_results) in
  let valid_count := sum (map (fun _ => 1%Z) (filter is_valid all_results)) in
  let invalid_count := (total_validations - valid_count)%Z in
  accuracy_rate <-
    (if (0 <? total_validations)%Z
     then q <- div (inject_Z valid_count) (inject_Z total_validations) ;; Ok (q * 100)
     else Ok 0) ;;
  Ok {| total_validations := total_validations;
        valid_count := valid_count;
        invalid_count := invalid_count;
        accuracy_rate := accuracy_rate;
        detailed_results := all_results |}.

(** ** [validate_data_completeness] *)

Definition required_types : list str :=
  map L ["Net Sales"; "Cogs"; "Labor"; "Controllables"; "Fixed Costs";
         "Restaurant Contribution"; "Controllable Profit"]%string.

Definition cell_eqb (a b : option str) : bool :=
  match a, b with
  | Some x, Some y => str_eqb x y
  | None, None => true
  | _, _ => false
  end.

(** [series.unique()]: the values in order of first appearance. *)
Fixpoint unique (seen cells : list (option str)) : list (option str) :=
  match cells with
  | [] => []
  | c :: rest =>
      if existsb (cell_eqb c) seen then unique seen rest
      else c :: unique (c :: seen) rest
  end.

Definition present_types (df : DataFrame) : list (option str) :=
  unique [] (map Type_ df).

(** [t in present_types]: some element equals the string [t]. *)
Definition type_in (t : str) (present : list (option str)) : bool :=
  existsb (fun p => match p with Some s => str_eqb s t | None => false end) present.

(** The list [missing_types] that the check prints. *)
Definition missing_types (df : DataFrame) : list str :=
  filter (fun t => negb (type_in t (present_types df))) required_types.

(** The dict [null_counts] of the text columns. *)
Definition null_count (f : Row -> option str) (df : DataFrame) : nat :=
  List.length (filter (fun r => match f r with None => true | Some _ => false end) df).

End Validator.

(** ** The notebook's copy of the extractors *)

(** [panda_pnl_insights_notebook.py] carries its own
    [extract_sql_from_text] and [extract_data_from_text]: three SQL patterns
    instead of six, and no stripping of the object columns. *)

Module Notebook.
Import Py Re Pandas.

Definition fence : str := L "```".

(** [```sql\s*(.*?)\s*```] *)
Definition sql_block : re :=
  cat [lit (L "```sql"); Star true isspace; Grp (Star false any);
       Star true isspace; lit fence].

(** [```\s*(SELECT.*?)\s*```] *)
Definition code_block : re :=
  cat [lit fence; Star true isspace;
       Grp (Seq (lit (L "SELECT")) (Star false any));
       Star true isspace; lit fence].

(** [(SELECT\s+.*?(?:;|$))] *)
Definition inline_select : re :=
  Grp (cat [lit (L "SELECT"); plus isspace; Star false any;
            Alt (Chr (ci ";"%char)) Eol]).

Definition sql_patterns : list re := [sql_block; code_block; inline_select].

Fixpoint first_match (patterns : list re) (text : str) : str :=
  match patterns with
  | [] => []
  | pattern :: rest =>
      match findall pattern text with
      | match0 :: _ => strip match0
      | [] => first_match rest text
      end
  end.

Definition extract_sql_from_text (text : str) : str :=
  first_match sql_patterns text.

Definition PIPE : ascii := "|"%char.

Definition separator_pattern : re :=
  cat [Bol;
       plus (fun c => chr_eqb c PIPE || isspace c || chr_eqb c "-"%char
                      || chr_eqb c ":"%char);
       Eol].

Fixpoint collect_table_lines (lines : list str) (table_lines : list str)
         (in_table : bool) : list str :=
  match lines with
  | [] => table_lines
  | line :: rest =>
      let line := strip line in
      if contains_chr PIPE line && (2 <=? count PIPE line) then
        if negb (re_match separator_pattern line)
        then collect_table_lines rest (table_lines ++ [line]) true
        else collect_table_lines rest table_lines true
      else if in_table && str_eqb line [] then table_lines
      else if in_table && negb (contains_chr PIPE line) then table_lines
      else collect_table_lines rest table_lines in_table
  end.

Definition cells_of (line : str) : list str :=
  map strip (split PIPE (strip_chars [PIPE] line)).

Definition csv_line (line : str) : str :=
  join (L ",") (map (fun cell => [QUOTE] ++ cell ++ [QUOTE]) (cells_of line)).

(** The body of the [if len(table_lines) >= 2] branch: the column names
    are stripped, the cells are left as [read_csv] gives them. *)
Definition frame_of_table_lines (table_lines : list str) : result DataFrame :=
  let csv_lines := map csv_line table_lines in
  let csv_text := join [LF] csv_lines in
  df <- read_csv csv_text ;;
  Ok {| columns := map strip (columns df); index := index df; data := data df |}.

Definition extract_data_from_text (text : str) : DataFrame :=
  let lines := split LF text in
  let table_lines := collect_table_lines lines [] false in
  if 2 <=? List.length table_lines then
    match frame_of_table_lines table_lines with
    | Ok df => df
    | Raise _ => empty_frame
    end
  else empty_frame.

End Notebook.

(** ** The API layer *)

(** [backend/app.py]: [df_to_response], the Genie entry of the health
    check for an imported client module, and the [/api/genie/ask] endpoint
    for an imported client module and for the fallback functions that the
    import block defines after an [ImportError]. *)

Module App.
Import Py Pandas Langchain.

(** [str.lower] on the code points below 256. *)
Definition chr_lower (c : ascii) : ascii :=
  let n := nat_of_ascii c in
  if ((65 <=? n) && (n <=? 90)) || ((192 <=? n) && (n <=? 214))
     || ((216 <=? n) && (n <=? 222))
  then ascii_of_nat (n + 32) else c.

Definition str_lower (s : str) : str := map chr_lower s.

(** [df.empty]: an axis of length 0. *)
Definition empty (df : DataFrame) : bool :=
  (n_rows df =? 0) || (List.length (columns df) =? 0).

(** The test of the loop over [df.columns]. *)
Definition excluded (col : str) : bool :=
  let col_str := str_lower col in
  startswith (L "unnamed") col_str || startswith (L "index") col_str
  || str_eqb col_str (L "level_0").

(** [df.drop(columns=labels)]: every column whose name is among [labels]
    goes. *)
Definition drop (df : DataFrame) (labels : list str) : DataFrame :=
  let kept :=
    filter (fun cs => negb (existsb (str_eqb (fst cs)) labels))
           (combine (columns df) (data df)) in
  {| columns := map fst kept; index := index df; data := map snd kept |}.

(** A Python dict built from pairs: a repeated key keeps its place and
    takes the later value. *)
Fixpoint dict_set (d : list (str * value)) (k : str) (v : value) : list (str * value) :=
  match d with
  | [] => [(k, v)]
  | (k', v') :: rest =>
      if str_eqb k' k then (k', v) :: rest else (k', v') :: dict_set rest k v
  end.

Definition dict_of (pairs : list (str * value)) : list (str * value) :=
  fold_left (fun d kv => dict_set d (fst kv) (snd kv)) pairs [].

(** [df.to_dict(orient="records")]. *)
Definition to_dict_records (df : DataFrame) : list (list (str * value)) :=
  map (fun cells => dict_of (combine (columns df) cells)) (rows df).

(** The dict of [df_to_response], by its keys [columns], [rows] and [shape]. *)
Record TableResponse : Type :=
  { r_columns : list str;
    r_rows : list (list (str * value));
    r_shape : nat * nat }.

Definition df_to_response (df : DataFrame) : TableResponse :=
  if empty df then {| r_columns := []; r_rows := []; r_shape := (0, 0) |}
  else
    let columns_to_exclude := filter excluded (columns df) in
    let clean_df :=
      match columns_to_exclude with
      | _ :: _ => drop df columns_to_exclude
      | [] => df
      end in
    {| r_columns := columns clean_df;
       r_rows := to_dict_records clean_df;
       r_shape := (n_rows clean_df, List.length (columns clean_df)) |}.

(** Which client module the import picked. *)
Inductive Environment : Type := databricks_apps | development.

(** What the import block binds the name [ask_genie_structured] to: the
    function of the client module picked, or, after an [ImportError], the
    fallback function. *)
Inductive Client : Type :=
| imported (env : Environment)
| fallback.

(** [ask_genie_structured], by the fields of its result.  The fallback
    function formats its answer with the name [e] of the [except] clause
    that defines it; Python unbinds that name when the clause ends, so the
    call raises [NameError]. *)
Definition ask_genie_structured (client : Client) (agent : Agent) (question : str)
  : result (str * str * DataFrame) :=
  match client with
  | imported databricks_apps =>
      let r := GenieDatabricks.ask_genie_structured agent question in
      Ok (GenieDatabricks.answer r, GenieDatabricks.sql r, GenieDatabricks.df r)
  | imported development =>
      let r := GenieLocal.ask_genie_structured agent question in
      Ok (GenieLocal.answer r, GenieLocal.sql r, GenieLocal.df r)
  | fallback => Raise (NameError (L "e"))
  end.

Definition get_genie_health_status (env : Environment) (agent : Agent) : str :=
  match env with
  | databricks_apps => GenieDatabricks.get_genie_health_status agent
  | development => GenieLocal.get_genie_health_status agent
  end.

Record GenieQuery : Type := { question : str; context : option str }.

Record GenieResponse : Type :=
  { answer : str;
    sql : option str;
    data : option TableResponse;
    status : str }.

Definition truthy (s : option str) : bool :=
  match s with
  | Some (_ :: _) => true
  | _ => false
  end.

(** [str(e)] of the exceptions that reach the handler. *)
Definition str_of_exn (e : exn) : str :=
  match e with
  | NameError name => L "name '" ++ name ++ L "' is not defined"
  | AgentError msg => msg
  | _ => []
  end.

(** What the handler ends with: the response it returns, or the
    [HTTPException] it raises. *)
Inductive Reply : Type :=
| Returns (response : GenieResponse)
| HTTPException (status_code : nat) (detail : str).

(** The endpoint [/api/genie/ask]. *)
Definition ask_genie (client : Client) (agent : Agent) (query : GenieQuery) : Reply :=
  let enhanced_question :=
    if truthy (context query)
    then L "Context: " ++ match context query with Some c => c | None => [] end
         ++ [LF; LF] ++ L "Question: " ++ question query
    else question query in
  match ask_genie_structured client agent enhanced_question with
  | Ok (result_answer, result_sql, result_df) =>
      let data_dict :=
        if negb (empty result_df) then Some (df_to_response result_df) else None in
      Returns {| answer := result_answer;
                 sql := if truthy (Some result_sql) then Some result_sql else None;
                 data := data_dict;
                 status := L "success" |}
  | Raise e => HTTPException 500 (L "Genie query failed: " ++ str_of_exn e)
  end.


End App.

(** * Vocabulary of the statements *)

(** ** The validator *)

Module ValidatorSpec.
Import Py Validator.
Local Open Scope Q_scope.

(** The outcome sequence has an outcome for the claim named [c]. *)
Definition has_outcome (c : str) (results : list ValidationResult) : Prop :=
  exists r, In r results /\ claim r = c.

(** What one block of [validate_revenue_claims] appends: nothing when the
    selection is empty, else one result from the first selected row. *)
Definition block (sel : DataFrame) (mk : Q -> Q -> Q -> ValidationResult)
  : list ValidationResult :=
  match sel with
  | [] => []
  | r :: _ =>
      [mk (Actual r) (Plan r)
          (if Qeq_bool (Plan r) 0 then 0 else (Actual r - Plan r) / Plan r * 100)]
  end.

(** The outcomes of the three blocks, by the values read from the row. *)
Definition food_result (actual plan variance_pct : Q) : ValidationResult :=
  {| claim := food_claim;
     expected_value := Dict 320433 341386 (-61 # 10);
     actual_value := Dict actual plan variance_pct;
     variance := Qabs (variance_pct - (-61 # 10));
     is_valid := Qltb (Qabs (actual - 320433)) 1 && Qltb (Qabs (plan - 341386)) 1 |}.

Definition beverage_result (actual plan variance_pct : Q) : ValidationResult :=
  {| claim := beverage_claim;
     expected_value := Dict 15826 19442 (-186 # 10);
     actual_value := Dict actual plan variance_pct;
     variance := Qabs (variance_pct - (-186 # 10));
     is_valid := Qltb (Qabs (actual - 15826)) 1 && Qltb (Qabs (plan - 19442)) 1 |}.

Definition retail_result (actual plan variance_pct : Q) : ValidationResult :=
  {| claim := retail_claim;
     expected_value := Num (-308 # 10);
     actual_value := Num variance_pct;
     variance := Qabs (variance_pct - (-308 # 10));
     is_valid := Qltb (Qabs (variance_pct - (-308 # 10))) 1 |}.

(** The outcome of one turn of the loop of [validate_summary_metrics], by
    the first selected row. *)
Definition summary_result (c : Claim) (r : Row) : ValidationResult :=
  let variance_pct :=
    if Qeq_bool (Plan r) 0 then 0 else (Actual r - Plan r) / Plan r * 100 in
  let negative := Qltb (Actual r) 0 in
  let plan := if negative then Qabs (Plan r) else Plan r in
  let actual := if negative then Qabs (Actual r) else Actual r in
  {| claim := summary_claim_name c;
     expected_value := Dict (expected_actual c) (expected_plan c) (expected_variance c);
     actual_value := Dict actual plan variance_pct;
     variance := Qabs (variance_pct - expected_variance c);
     is_valid :=
       Qltb (Qabs (actual - expected_actual c)) 1
       && Qltb (Qabs (plan - expected_plan c)) 1
       && Qltb (Qabs (variance_pct - expected_variance c)) (1 # 2) |}.

Definition summary_block (df : DataFrame) (c : Claim) : list ValidationResult :=
  match claim_data df c with
  | [] => []
  | r :: _ => [summary_result c r]
  end.

(** The computed variance an outcome records. *)
Definition computed_variance_pct (r : ValidationResult) : Q :=
  match actual_value r with
  | Dict _ _ v => v
  | Num v => v
  end.

(** A fact table with one beverage row, and one with two food rows. *)
Definition df_beverage_only : DataFrame :=
  [ {| Type_ := Some (L "Net Sales"); LineItem := Some (L "Sales_Beverage");
       Actual := 15826; Plan := 19442 |} ].

Definition df_two_food_rows : DataFrame :=
  [ {| Type_ := Some (L "Net Sales"); LineItem := Some (L "Sales_Food");
       Actual := 100; Plan := 120 |};
    {| Type_ := Some (L "Net Sales"); LineItem := Some (L "Sales_Food_Catering");
       Actual := 50; Plan := 60 |} ].

(** The sum of a field over rows, as the specification has it for several
    matching rows. *)
Definition total (f : Row -> Q) (rows : DataFrame) : Q :=
  fold_right Qplus 0 (map f rows).

(** The sign handling of [validate_summary_metrics]. *)
Definition normalized (actual x : Q) : Q := if Qltb actual 0 then Qabs x else x.






End ValidatorSpec.

(** ** The SQL extractor *)

Module SqlSpec.
Import Py Re GenieDatabricks.

(** [a] is [b] up to the case of letters; [s] starts with [p] up to the
    case of letters. *)
Fixpoint ci_equal (a b : str) : bool :=
  match a, b with
  | [], [] => true
  | x :: a', y :: b' => ci y x && ci_equal a' b'
  | _, _ => false
  end.

Fixpoint startswith_ci (p s : str) : bool :=
  match p, s with
  | [], _ => true
  | x :: p', y :: s' => ci x y && startswith_ci p' s'
  | _ :: _, [] => false
  end.

(** No SQL-tagged opening fence starts inside [pre], in the text [pre ++ rest]. *)
Fixpoint no_opener_in (pre rest : str) : bool :=
  match pre with
  | [] => true
  | _ :: t => negb (startswith_ci (L "```sql") (pre ++ rest)) && no_opener_in t rest
  end.

(** The first closing fence after [inner] is the one right behind it. *)
Fixpoint fence_free (inner : str) : bool :=
  match inner with
  | [] => true
  | _ :: t => negb (startswith fence (inner ++ fence)) && fence_free t
  end.

(** After blanks, [s] goes on with a fence. *)
Definition closes (s : str) : bool := startswith fence (lstrip_by isspace s).

(** In the words of the specification: an inline statement is one that
    begins with SELECT, INSERT, UPDATE or DELETE
    [(?:SELECT|INSERT|UPDATE|DELETE)\s+.*?(?:;|$)], and the statement to
    return is the first one of the text in scan order. *)
Definition inline_any : re :=
  Grp (cat [Alt (lit (L "SELECT"))
              (Alt (lit (L "INSERT")) (Alt (lit (L "UPDATE")) (lit (L "DELETE"))));
            plus isspace; Star false any; Alt (Chr (ci ";"%char)) Eol]).

Definition first_inline_statement (text : str) : str :=
  match search_from inline_any 0 text with
  | Some (g, _) => strip g
  | None => []
  end.

(** The first statement of the first keyword that has one, the keywords
    taken in the order SELECT, INSERT, UPDATE, DELETE. *)
Definition first_by_keyword (text : str) : str :=
  match search_from inline_select 0 text with
  | Some (g, _) => strip g
  | None =>
      match search_from inline_insert 0 text with
      | Some (g, _) => strip g
      | None =>
          match search_from inline_update 0 text with
          | Some (g, _) => strip g
          | None =>
              match search_from inline_delete 0 text with
              | Some (g, _) => strip g
              | None => []
              end
          end
      end
  end.

(** A text with an INSERT statement before a SELECT statement. *)
Definition insert_then_select : str := L "INSERT INTO t VALUES (1); SELECT 1;".

(** The continuation a match attempt ends with. *)
Definition fin : cont (str * str) :=
  fun _ s' g => Some (match g with Some x => x | None => [] end, s').

(** The end of the two fence patterns: [\s*```]. *)
Definition tail : re := Seq (Star true isspace) (Seq (lit fence) Eps).

End SqlSpec.

(** ** The table extractor *)

Module TableSpec.
Import Py Pandas GenieDatabricks.

(** Scenario B of the specification. *)
Definition scenario_B : str :=
  join [LF] (map L ["| Type | Actual | Plan |";
                    "|------|--------|------|";
                    "| Food | 100 | 120 |"]%string).

(** The collected lines of a text, and their cells. *)
Definition table_lines (text : str) : list str :=
  collect_table_lines (split LF text) [] false.

Definition table_cells (text : str) : list (list str) :=
  map cells_of (table_lines text).

(** The cell holds no double quote; the cell as the extractor writes it. *)
Definition quote_free (cell : str) : bool := negb (contains_chr QUOTE cell).

(** The cell holds no NUL character. *)
Definition nul_free (cell : str) : bool := negb (contains_chr NUL cell).


(** The column of words that are not all integers: the rest of the cast
    order. *)
Definition convert_rest (words : list str) : Series :=
  match _try_double words with
  | Some vs => {| s_dtype := float64; s_values := vs |}
  | None =>
      match _try_bool_flex words with
      | Some vs =>
          {| s_dtype := if 0 <? na_count words then object else bool_; s_values := vs |}
      | None => _string_convert true words
      end
  end.

(** What a cell of a column of type [dt] can be, for a column read from
    the words [words]. *)
Definition cell_of (words : list str) (dt : dtype) (v : value) : Prop :=
  match v with
  | NaN => True
  | VInt _ => dt = int64 \/ dt = uint64
  | VFloat _ => dt = float64
  | VStr word => dt = object /\ In word words
  | VBool b =>
      (dt = bool_ \/ dt = object)
      /\ exists word, In word words /\ to_boolean word = Some b
  end.

Definition quoted (cell : str) : str := [QUOTE] ++ cell ++ [QUOTE].

(** The CSV text of rows of cells. *)
Definition csv_of (rows : list (list str)) : str :=
  join [LF] (map (fun cells => join (L ",") (map quoted cells)) rows).

(** [end_line] on the lines alone, newest first. *)
Definition add_line (lines : list (list str)) (cells : list str)
  : result (list (list str)) :=
  match lines with
  | [] => Ok [cells]
  | prev :: _ =>
      if negb (List.length lines <=? 1) && (List.length prev <? List.length cells)
      then Raise ParserError
      else Ok ((cells ++ repeat [] (List.length prev - List.length cells)) :: lines)
  end.

Fixpoint add_lines (lines : list (list str)) (rows : list (list str))
  : result (list (list str)) :=
  match rows with
  | [] => Ok lines
  | cells :: rest => lines' <- add_line lines cells ;; add_lines lines' rest
  end.

(** A row filled up to [n] cells with empty cells. *)
Definition pad (n : nat) (cells : list str) : list str :=
  cells ++ repeat [] (n - List.length cells).

(** The parser is about to read a field and holds no character of it. *)
Definition at_line_start (p : parser_t) : Prop :=
  (state p = START_RECORD \/ state p = START_FIELD) /\ word p = [].




(** The parser at the start of a line, with the lines [ls] read. *)
Definition fresh (ls : list (list str)) : parser_t :=
  {| state := START_RECORD; word := []; line := []; lines := ls |}.

End TableSpec.

(** ** The response parser *)

Module ClientSpec.
Import Py Langchain.

(** An agent that answers with no message at all. *)
Definition silent_agent : Agent := fun _ => Ok (DictResult (Some [])).

End ClientSpec.

(** ** The report of all validations *)

Module ReportSpec.
Import Py Validator ValidatorSpec.
Local Open Scope Q_scope.

(** The outcomes of the four other blocks, by the values they record. *)
Definition restaurant_contribution_result (actual plan variance_pct : Q)
  : ValidationResult :=
  {| claim := restaurant_contribution_claim;
     expected_value := Dict 562065 598443 (-61 # 10);
     actual_value := Dict actual plan variance_pct;
     variance := Qabs (variance_pct - (-61 # 10));
     is_valid := Qltb (Qabs (actual - 562065)) 1 && Qltb (Qabs (plan - 598443)) 1 |}.

Definition controllable_profit_result (actual plan variance_pct : Q)
  : ValidationResult :=
  {| claim := controllable_profit_claim;
     expected_value := Num (-66 # 10);
     actual_value := Num variance_pct;
     variance := Qabs (variance_pct - (-66 # 10));
     is_valid := Qltb (Qabs (variance_pct - (-66 # 10))) (1 # 10) |}.

Definition promotions_result (actual plan variance_pct : Q) : ValidationResult :=
  {| claim := promotions_claim;
     expected_value := Dict 19458 14164 (374 # 10);
     actual_value := Dict actual plan variance_pct;
     variance := Qabs (variance_pct - (374 # 10));
     is_valid := Qltb (Qabs (actual - 19458)) 1 && Qltb (Qabs (plan - 14164)) 1 |}.

Definition employee_meals_result (actual plan variance_pct : Q) : ValidationResult :=
  {| claim := employee_meals_claim;
     expected_value := Dict 5882 10454 (-437 # 10);
     actual_value := Dict actual plan variance_pct;
     variance := Qabs (variance_pct - (-437 # 10));
     is_valid := Qltb (Qabs (actual - 5882)) 1 && Qltb (Qabs (plan - 10454)) 1 |}.

(** A row with its two numbers made absolute. *)
Definition abs_row (r : Row) : Row :=
  {| Type_ := Type_ r; LineItem := LineItem r;
     Actual := Qabs (Actual r); Plan := Qabs (Plan r) |}.

(** The outcomes of the five groups, in the order of [run_all_validations]. *)
Definition outcomes (df : DataFrame) : list ValidationResult :=
  (block (food_sales df) food_result ++ block (beverage_sales df) beverage_result
   ++ block (retail_sales df) retail_result)
  ++ (block (restaurant_contrib df) restaurant_contribution_result
      ++ block (controllable_profit df) controllable_profit_result)
  ++ block (map abs_row (promotions df)) promotions_result
  ++ block (map abs_row (employee_meals df)) employee_meals_result
  ++ flat_map (summary_block df) financial_claims.

(** The report, by the outcomes. *)
Definition report_of (all_results : list ValidationResult) : Report :=
  let total := Z.of_nat (List.length all_results) in
  let valid := Z.of_nat (List.length (filter is_valid all_results)) in
  {| total_validations := total;
     valid_count := valid;
     invalid_count := (total - valid)%Z;
     accuracy_rate := if (0 <? total)%Z then inject_Z valid / inject_Z total * 100 else 0;
     detailed_results := all_results |}.

(** A row with the sign of its actual or of its plan turned where the
    tests say so. *)
Definition negate_where (which_actual which_plan : Row -> bool) (r : Row) : Row :=
  {| Type_ := Type_ r; LineItem := LineItem r;
     Actual := if which_actual r then - Actual r else Actual r;
     Plan := if which_plan r then - Plan r else Plan r |}.

(** The row is of one of the three types the validations select. *)
Definition relevant (r : Row) : bool :=
  type_is (L "Net Sales") r || type_is (L "Restaurant Contribution") r
  || type_is (L "Controllable Profit") r.

(** Every selection of the validations has a row. *)
Definition every_claim_matched (df : DataFrame) : bool :=
  negb (empty (food_sales df)) && negb (empty (beverage_sales df))
  && negb (empty (retail_sales df)) && negb (empty (restaurant_contrib df))
  && negb (empty (controllable_profit df)) && negb (empty (promotions df))
  && negb (empty (employee_meals df)).

(** A fact table with one row for each selection. *)
Definition df_all_claims : DataFrame :=
  [ {| Type_ := Some (L "Net Sales"); LineItem := Some (L "Sales_Food");
       Actual := 320433; Plan := 341386 |};
    {| Type_ := Some (L "Net Sales"); LineItem := Some (L "Sales_Beverage");
       Actual := 15826; Plan := 19442 |};
    {| Type_ := Some (L "Net Sales"); LineItem := Some (L "Sales_Retail");
       Actual := 692; Plan := 1000 |};
    {| Type_ := Some (L "Net Sales"); LineItem := Some (L "Sales_Promotion");
       Actual := -19458; Plan := -14164 |};
    {| Type_ := Some (L "Net Sales"); LineItem := Some (L "Employee_Meals");
       Actual := -5882; Plan := -10454 |};
    {| Type_ := Some (L "Restaurant Contribution"); LineItem := None;
       Actual := 562065; Plan := 598443 |};
    {| Type_ := Some (L "Controllable Profit"); LineItem := None;
       Actual := 539814; Plan := 577730 |} ].

End ReportSpec.

(** ** The clients and the API layer *)

Module ServiceSpec.
Import Py Pandas Langchain.

(** The loop over the reversed messages passes over a message: a dict that
    is not an assistant message with content, or an object without a
    [content] attribute. *)
Definition skipped (msg : Message) : bool :=
  match msg with
  | DictMessage role content =>
      negb (GenieDatabricks.is_assistant role && GenieDatabricks.truthy content)
  | ObjMessage None => true
  | ObjMessage (Some _) => false
  end.

Definition message_content (msg : Message) : str :=
  match msg with
  | DictMessage _ (Some c) => c
  | ObjMessage (Some c) => c
  | _ => []
  end.

(** The agent answered, with a text that is not empty and holds blanks only. *)
Definition blank_reply (reply : result AgentResult) : bool :=
  match reply with
  | Ok result =>
      match GenieDatabricks.content_of result with
      | [] => false
      | c :: s => forallb isspace (c :: s)
      end
  | Raise _ => false
  end.

(** The probe of the health check, as the agent receives it. *)
Definition probe : str :=
  GenieDatabricks.enhanced_question
    (L "Hello, can you help me analyze Panda Restaurant data?").


(** The variable [name] is set in the environment and not empty. *)
Definition is_set (env : str -> option str) (name : string) : Prop :=
  GenieDatabricks.truthy (env (L name)) = true.

(** A result with an assistant message followed by a user message. *)
Definition answered_then_asked : AgentResult :=
  DictResult (Some [DictMessage (Some (L "user")) (Some (L "Hi"));
                    DictMessage (Some (L "assistant")) (Some (L "Sales are up."));
                    DictMessage (Some (L "user")) (Some (L "Thanks"))]).


End ServiceSpec.

(** ** More on the SQL extractor *)

Module ExtractionSpec.
Import Py Re GenieDatabricks SqlSpec.

(** [p] occurs in [s], up to the case of letters. *)
Fixpoint occurs_ci (p s : str) : bool :=
  startswith_ci p s ||
  match s with
  | [] => false
  | _ :: t => occurs_ci p t
  end.

(** The text has a fence or one of the four keywords in it. *)
Definition mentions_sql (text : str) : bool :=
  occurs_ci fence text || occurs_ci (L "SELECT") text || occurs_ci (L "INSERT") text
  || occurs_ci (L "UPDATE") text || occurs_ci (L "DELETE") text.

(** No occurrence of [p] begins inside [pre], in the text [pre ++ rest]. *)
Fixpoint none_starts_in (p pre rest : str) : bool :=
  match pre with
  | [] => true
  | _ :: t => negb (startswith_ci p (pre ++ rest)) && none_starts_in p t rest
  end.

Definition SEMICOLON : ascii := ";"%char.

(** [s] is a contiguous piece of [text]. *)
Definition piece_of (s text : str) : Prop := exists a b, text = a ++ s ++ b.

(** [s] is an end of [text]. *)
Definition end_of (s text : str) : Prop := exists a, text = a ++ s.

(** The text of group 1, if any, is a piece of [text]. *)
Definition group_in (text : str) (g : option str) : Prop :=
  match g with
  | Some x => piece_of x text
  | None => True
  end.

End ExtractionSpec.

(** ** More on the table extractor *)

Module FrameSpec.
Import Py Re Pandas GenieDatabricks TableSpec.

(** The test of the scan for a line of a table. *)
Definition table_row (line : str) : bool :=
  contains_chr PIPE line && (2 <=? count PIPE line).

(** Some line of the text passes the test. *)
Definition has_table_row (text : str) : bool :=
  existsb (fun line => table_row (strip line)) (split LF text).

(** A letter of the alphabet, in either case. *)
Definition alpha (c : ascii) : bool :=
  let n := nat_of_ascii (lower c) in (97 <=? n) && (n <=? 122).

(** The words that stand for a boolean, an infinity or a missing value. *)
Definition reserved : list str :=
  map L ["true"; "false"; "inf"; "infinity"; "nan"; "na"; "null"; "none"; "n/a"]%string.

(** The cell is text at sight: it begins with a letter and is not, in any
    case of letters, one of the reserved words. *)
Definition plain_text (cell : str) : bool :=
  match cell with c :: _ => alpha c | [] => false end
  && negb (name_in (lower_str cell) reserved).

(** A table that [read_csv] reads in one chunk: at most 1024 lines of at
    most 128 cells. *)
Definition one_chunk (cells : list (list str)) : bool :=
  (List.length cells <=? 1024) && forallb (fun r => List.length r <=? 128) cells.

(** A cell of an object column that [str.strip] leaves as it is. *)
Definition text_or_missing (v : value) : Prop :=
  match v with
  | VStr x => strip x = x
  | NaN => True
  | _ => False
  end.

(** The cell is a boolean literal of [read_csv]; it is one or a
    missing-value marker. *)
Definition is_boolean (cell : str) : bool :=
  match to_boolean cell with Some _ => true | None => false end.

Definition boolean_or_missing (cell : str) : bool := is_na cell || is_boolean cell.

(** A table of text, and a text with two tables. *)
Definition stores_table : str :=
  join [LF] (map L ["| Store | Region |";
                    "|-------|--------|";
                    "| Downtown | West |";
                    "| Airport | East |"]%string).

Definition two_tables_head : str :=
  join [LF] (map L ["Top stores:";
                    "| Store | Sales |";
                    "| Downtown | 100 |"]%string).

(** A table with a comma inside a cell. *)
Definition notes_table : str :=
  join [LF] (map L ["| Store | Note |";
                    "| Downtown | up, then down |"]%string).

(** A table whose first data row is wider than its header, and one with a
    boolean column that has a gap. *)
Definition wide_row_table : str :=
  join [LF] (map L ["| Store | Sales |";
                    "| West | Downtown | 100 |";
                    "| East | Airport | 90 |"]%string).

Definition open_stores_table : str :=
  join [LF] (map L ["| Store | Open |";
                    "| Downtown | True |";
                    "| Airport | |"]%string).

End FrameSpec.

Unset Implicit Arguments.

(** * The validator *)

Module ValidatorFacts.
Import Py Validator ValidatorSpec.
Local Open Scope Q_scope.

Lemma variance_pct_of_ok (actual plan : Q) :
  variance_pct_of actual plan =
  Ok (if Qeq_bool plan 0 then 0 else (actual - plan) / plan * 100).
Proof.
  unfold variance_pct_of, div.
  destruct (Qeq_bool plan 0); reflexivity.
Qed.


Lemma revenue_claims_distinct :
  food_claim <> beverage_claim /\ food_claim <> retail_claim
  /\ beverage_claim <> retail_claim.
Proof. repeat split; intro H; vm_compute in H; discriminate H. Qed.

Lemma validate_revenue_claims_blocks (df : DataFrame) :
  validate_revenue_claims df =
  Ok (block (food_sales df) food_result ++ block (beverage_sales df) beverage_result
      ++ block (retail_sales df) retail_result).
Proof.
  unfold validate_revenue_claims, block.
  destruct (food_sales df) as [|r1 l1], (beverage_sales df) as [|r2 l2],
           (retail_sales df) as [|r3 l3]; simpl;
    rewrite ?variance_pct_of_ok; simpl; rewrite ?variance_pct_of_ok; simpl;
    rewrite ?variance_pct_of_ok; reflexivity.
Qed.


Lemma summary_body_block (df : DataFrame) (results : list ValidationResult) (c : Claim) :
  summary_body df results c = Ok (results ++ summary_block df c).
Proof.
  unfold summary_body, summary_block.
  destruct (claim_data df c) as [|r l]; simpl.
  - rewrite app_nil_r. reflexivity.
  - rewrite variance_pct_of_ok. reflexivity.
Qed.

Lemma summary_loop_blocks (df : DataFrame) (claims : list Claim) :
  forall results,
    summary_loop df claims results = Ok (results ++ flat_map (summary_block df) claims).
Proof.
  induction claims as [|c claims IH]; intro results; simpl.
  - rewrite app_nil_r. reflexivity.
  - rewrite summary_body_block. simpl. rewrite IH, <- app_assoc. reflexivity.
Qed.

Lemma validate_summary_metrics_blocks (df : DataFrame) :
  validate_summary_metrics df = Ok (flat_map (summary_block df) financial_claims).
Proof. unfold validate_summary_metrics. rewrite summary_loop_blocks. reflexivity. Qed.

Lemma in_block sel mk r :
  In r (block sel mk) ->
  exists row rest, sel = row :: rest /\
    r = mk (Actual row) (Plan row)
           (if Qeq_bool (Plan row) 0 then 0 else (Actual row - Plan row) / Plan row * 100).
Proof.
  destruct sel as [|row rest]; simpl; [tauto|].
  intros [H|[]]. exists row, rest. split; [reflexivity|symmetry; exact H].
Qed.

Lemma in_revenue_results (df : DataFrame) r :
  In r (block (food_sales df) food_result ++ block (beverage_sales df) beverage_result
        ++ block (retail_sales df) retail_result) ->
  exists row v,
    In row df
    /\ v = (if Qeq_bool (Plan row) 0 then 0 else (Actual row - Plan row) / Plan row * 100)
    /\ (r = food_result (Actual row) (Plan row) v
        \/ r = beverage_result (Actual row) (Plan row) v
        \/ r = retail_result (Actual row) (Plan row) v).
Proof.
  intro H. rewrite !in_app_iff in H.
  destruct H as [H|[H|H]]; apply in_block in H; destruct H as (row & rest & Hsel & Hr);
    eexists row, _; (split; [|split; [reflexivity|]]).
  - assert (Hin : In row (food_sales df)) by (rewrite Hsel; left; reflexivity).
    apply filter_In in Hin. tauto.
  - tauto.
  - assert (Hin : In row (beverage_sales df)) by (rewrite Hsel; left; reflexivity).
    apply filter_In in Hin. tauto.
  - tauto.
  - assert (Hin : In row (retail_sales df)) by (rewrite Hsel; left; reflexivity).
    apply filter_In in Hin. tauto.
  - tauto.
Qed.

Lemma summary_names_distinct (c c' : Claim) :
  In c financial_claims -> In c' financial_claims ->
  summary_claim_name c = summary_claim_name c' -> c = c'.
Proof.
  unfold financial_claims. simpl.
  intros [ <- | [ <- | [ <- | [] ] ] ] [ <- | [ <- | [ <- | [] ] ] ] H; try reflexivity;
    vm_compute in H; discriminate H.
Qed.

Lemma has_outcome_app c l1 l2 :
  has_outcome c (l1 ++ l2) <-> has_outcome c l1 \/ has_outcome c l2.
Proof.
  unfold has_outcome. split.
  - intros (r & Hin & Hc). apply in_app_iff in Hin.
    destruct Hin; [left|right]; exists r; tauto.
  - intros [(r & Hin & Hc)|(r & Hin & Hc)]; exists r; rewrite in_app_iff; tauto.
Qed.

Lemma has_outcome_block c sel mk :
  (forall a p v, claim (mk a p v) = c) ->
  has_outcome c (block sel mk) <-> sel <> [].
Proof.
  intro Hmk. unfold has_outcome, block. destruct sel as [|row rest]; simpl.
  - split; [intros (r & [] & _)|congruence].
  - split; [discriminate|]. intros _. eexists. split; [left; reflexivity|apply Hmk].
Qed.

Lemma no_outcome_block c sel mk :
  (forall a p v, claim (mk a p v) <> c) -> ~ has_outcome c (block sel mk).
Proof.
  intros Hmk (r & Hin & Hc). apply in_block in Hin.
  destruct Hin as (row & rest & _ & ->). exact (Hmk _ _ _ Hc).
Qed.

Lemma has_outcome_summary (df : DataFrame) (c : Claim) :
  In c financial_claims ->
  has_outcome (summary_claim_name c) (flat_map (summary_block df) financial_claims)
  <-> claim_data df c <> [].
Proof.
  intro Hc. unfold has_outcome. split.
  - intros (r & Hin & Hname). apply in_flat_map in Hin.
    destruct Hin as (c' & Hc' & Hin). unfold summary_block in Hin.
    destruct (claim_data df c') as [|row rest] eqn:E; [destruct Hin|].
    destruct Hin as [<-|[]]. simpl in Hname.
    apply summary_names_distinct in Hname; [|exact Hc'|exact Hc].
    subst c'. rewrite E. discriminate.
  - intro Hne. destruct (claim_data df c) as [|row rest] eqn:E; [congruence|].
    exists (summary_result c row). split; [|reflexivity].
    apply in_flat_map. exists c. split; [exact Hc|].
    unfold summary_block. rewrite E. left. reflexivity.
Qed.

(** C1, as stated: on a fact table with a beverage row only, the food
    claim matches no row and there is no outcome for it, with zeros or
    otherwise. *)
Lemma food_claim_without_rows_dropped :
  ~ (food_sales df_beverage_only = [] ->
     exists results r v,
       validate_revenue_claims df_beverage_only = Ok results
       /\ In r results /\ claim r = food_claim /\ actual_value r = Dict 0 0 v).
Proof.
  intro H. destruct (H eq_refl) as (results & r & v & Hres & Hin & Hc & _).
  rewrite validate_revenue_claims_blocks in Hres. injection Hres as <-.
  destruct Hin as [ <- | [] ]. simpl in Hc.
  destruct revenue_claims_distinct as (Hfb & _). apply Hfb. symmetry. exact Hc.
Qed.

(** C1, amended: a claim whose filter matches zero rows has no outcome in
    the outcome sequence, and a claim whose filter matches a row has one:
    in [validate_revenue_claims] and in [validate_summary_metrics] the
    outcomes are those of the claims with at least one matching row. *)
Theorem outcome_iff_rows_match (df : DataFrame) :
  (exists results,
     validate_revenue_claims df = Ok results
     /\ (has_outcome food_claim results <-> food_sales df <> [])
     /\ (has_outcome beverage_claim results <-> beverage_sales df <> [])
     /\ (has_outcome retail_claim results <-> retail_sales df <> []))
  /\ (exists results,
        validate_summary_metrics df = Ok results
        /\ forall c, In c financial_claims ->
             (has_outcome (summary_claim_name c) results <-> claim_data df c <> [])).
Proof.
  destruct revenue_claims_distinct as (Hfb & Hfr & Hbr).
  split.
  - eexists. split; [apply validate_revenue_claims_blocks|].
    rewrite !has_outcome_app.
    pose proof (@has_outcome_block food_claim (food_sales df) food_result
                  (fun _ _ _ => eq_refl)) as F1.
    pose proof (@has_outcome_block beverage_claim (beverage_sales df) beverage_result
                  (fun _ _ _ => eq_refl)) as B2.
    pose proof (@has_outcome_block retail_claim (retail_sales df) retail_result
                  (fun _ _ _ => eq_refl)) as R3.
    assert (F2 : ~ has_outcome food_claim (block (beverage_sales df) beverage_result))
      by (apply no_outcome_block; intros a p v E; simpl in E; congruence).
    assert (F3 : ~ has_outcome food_claim (block (retail_sales df) retail_result))
      by (apply no_outcome_block; intros a p v E; simpl in E; congruence).
    assert (B1 : ~ has_outcome beverage_claim (block (food_sales df) food_result))
      by (apply no_outcome_block; intros a p v E; simpl in E; congruence).
    assert (B3 : ~ has_outcome beverage_claim (block (retail_sales df) retail_result))
      by (apply no_outcome_block; intros a p v E; simpl in E; congruence).
    assert (R1 : ~ has_outcome retail_claim (block (food_sales df) food_result))
      by (apply no_outcome_block; intros a p v E; simpl in E; congruence).
    assert (R2 : ~ has_outcome retail_claim (block (beverage_sales df) beverage_result))
      by (apply no_outcome_block; intros a p v E; simpl in E; congruence).
    tauto.
  - eexists. split; [apply validate_summary_metrics_blocks|].
    intros c Hc. apply has_outcome_summary. exact Hc.
Qed.





(** C2, as stated: with two rows matching the food claim, the computed
    actual and plan are not the sums over the two rows. *)
Lemma two_matching_rows_not_summed :
  List.length (food_sales df_two_food_rows) = 2%nat
  /\ ~ (forall results r a p v,
          validate_revenue_claims df_two_food_rows = Ok results ->
          In r results -> claim r = food_claim -> actual_value r = Dict a p v ->
          a == total Actual (food_sales df_two_food_rows)
          /\ p == total Plan (food_sales df_two_food_rows)).
Proof.
  split; [reflexivity|].
  intro H.
  destruct (H _ (food_result 100 120 ((100 - 120) / 120 * 100)) 100 120 _
              (validate_revenue_claims_blocks df_two_food_rows)
              (or_introl eq_refl) eq_refl eq_refl) as [Ha _].
  vm_compute in Ha. discriminate Ha.
Qed.

(** C2, amended: no error is raised, and for every claim whose filter
    matches one row or more the computed actual and plan (for the retail
    claim, the computed variance) are those of the first matching row, not
    sums over the matching rows; [validate_summary_metrics] records them in
    absolute value when the actual value is negative. *)
Theorem first_matching_row_taken (df : DataFrame) :
  (exists results,
     validate_revenue_claims df = Ok results
     /\ (forall row rest, food_sales df = row :: rest ->
           exists r v, In r results /\ claim r = food_claim
                       /\ actual_value r = Dict (Actual row) (Plan row) v)
     /\ (forall row rest, beverage_sales df = row :: rest ->
           exists r v, In r results /\ claim r = beverage_claim
                       /\ actual_value r = Dict (Actual row) (Plan row) v)
     /\ (forall row rest, retail_sales df = row :: rest ->
           exists r, In r results /\ claim r = retail_claim
                     /\ actual_value r =
                        Num (if Qeq_bool (Plan row) 0 then 0
                             else (Actual row - Plan row) / Plan row * 100)))
  /\ (exists results,
        validate_summary_metrics df = Ok results
        /\ forall c row rest,
             In c financial_claims -> claim_data df c = row :: rest ->
             exists r v, In r results /\ claim r = summary_claim_name c
                         /\ actual_value r =
                            Dict (normalized (Actual row) (Actual row))
                                 (normalized (Actual row) (Plan row)) v).
Proof.
  split.
  - eexists. split; [apply validate_revenue_claims_blocks|].
    split; [|split]; intros row rest Hsel; rewrite Hsel; cbn [block].
    + eexists _, _. split.
      * apply in_or_app. left. left. reflexivity.
      * split; reflexivity.
    + eexists _, _. split.
      * apply in_or_app. right. apply in_or_app. left. left. reflexivity.
      * split; reflexivity.
    + eexists. split.
      * apply in_or_app. right. apply in_or_app. right. left. reflexivity.
      * split; reflexivity.
  - eexists. split; [apply validate_summary_metrics_blocks|].
    intros c row rest Hc Hsel.
    exists (summary_result c row). eexists.
    split; [|split; reflexivity].
    apply in_flat_map. exists c. split; [exact Hc|].
    unfold summary_block. rewrite Hsel. left. reflexivity.
Qed.

Lemma first_matching_row_taken_witness :
  exists results r v,
    validate_revenue_claims df_two_food_rows = Ok results /\ In r results
    /\ claim r = food_claim /\ actual_value r = Dict 100 120 v.
Proof.
  destruct (first_matching_row_taken df_two_food_rows)
    as [(results & Hres & Hfood & _) _].
  destruct (Hfood _ _ eq_refl) as (r & v & Hin & Hc & Hv).
  exists results, r, v. repeat split; assumption.
Defined.

End ValidatorFacts.

(** * The SQL extractor *)

Module SqlFacts.
Import Py Re GenieDatabricks SqlSpec.

Section WithResult.
Variable A : Type.
Implicit Types (k : cont A) (s : str) (pos : nat).

Lemma orelse_none_r (x : option A) : orelse x None = x.
Proof. destruct x; reflexivity. Qed.

Lemma m_lit (p : str) : forall s pos g k,
  m (lit p) pos s g k =
  if startswith_ci p s then k (pos + List.length p) (skipn (List.length p) s) g
  else None.
Proof.
  induction p as [|c p IH]; intros s pos g k; simpl.
  - rewrite Nat.add_0_r. reflexivity.
  - destruct s as [|y s]; [reflexivity|].
    destruct (ci c y); simpl; [|reflexivity].
    rewrite IH. rewrite Nat.add_succ_r. reflexivity.
Qed.

Lemma startswith_ci_app (o p s : str) :
  ci_equal o p = true -> startswith_ci p (o ++ s) = true /\ skipn (List.length p) (o ++ s) = s.
Proof.
  revert p. induction o as [|x o IH]; intros [|y p] H; simpl in *; try discriminate.
  - split; reflexivity.
  - apply andb_true_iff in H. destruct H as [H1 H2].
    rewrite H1. simpl. apply IH. exact H2.
Qed.

Lemma star_greedy_success (p : ascii -> bool) (k : nat -> str -> option A) x : forall s pos,
  k (pos + (List.length s - List.length (lstrip_by p s))) (lstrip_by p s) = Some x ->
  star_greedy p pos s k = Some x.
Proof.
  induction s as [|c t IH]; intros pos H; simpl in *.
  - rewrite Nat.add_0_r in H. exact H.
  - destruct (p c) eqn:E.
    + rewrite (IH (S pos)); [reflexivity|].
      assert (Hle : List.length (lstrip_by p t) <= List.length t).
      { clear. induction t as [|d t IH]; simpl; [lia|]. destruct (p d); simpl; lia. }
      replace (S pos + (List.length t - List.length (lstrip_by p t)))
        with (pos + (S (List.length t) - List.length (lstrip_by p t))) by lia.
      exact H.
    + simpl in H. rewrite Nat.sub_diag, Nat.add_0_r in H. exact H.
Qed.

Lemma star_greedy_strict (p : ascii -> bool) (k : nat -> str -> option A) :
  (forall pos c t, p c = true -> k pos (c :: t) = None) ->
  forall s pos, exists pos', star_greedy p pos s k = k pos' (lstrip_by p s).
Proof.
  intros Hk. induction s as [|c t IH]; intro pos; simpl.
  - exists pos. reflexivity.
  - destruct (p c) eqn:E.
    + rewrite (Hk pos c t E), orelse_none_r. apply IH.
    + exists pos. reflexivity.
Qed.


Lemma star_lazy_ext (p : ascii -> bool) (k k' : nat -> str -> option A) :
  (forall pos s, k pos s = k' pos s) ->
  forall s pos, star_lazy p pos s k = star_lazy p pos s k'.
Proof.
  intro H. induction s as [|c t IH]; intro pos; simpl; rewrite H; [reflexivity|].
  destruct (p c); [rewrite IH|]; reflexivity.
Qed.

Lemma star_greedy_ext (p : ascii -> bool) (k k' : nat -> str -> option A) :
  (forall pos s, k pos s = k' pos s) ->
  forall s pos, star_greedy p pos s k = star_greedy p pos s k'.
Proof.
  intro H. induction s as [|c t IH]; intro pos; simpl; rewrite ?H; [reflexivity|].
  destruct (p c); [rewrite IH|]; reflexivity.
Qed.

End WithResult.

Lemma ci_backtick (y : ascii) : ci "`"%char y = chr_eqb "`"%char y.
Proof.
  destruct y as [[] [] [] [] [] [] [] []]; reflexivity.
Qed.

Lemma space_not_backtick (y : ascii) : isspace y = true -> chr_eqb "`"%char y = false.
Proof.
  destruct y as [[] [] [] [] [] [] [] []]; vm_compute; congruence.
Qed.

Lemma startswith_ci_fence (s : str) : startswith_ci fence s = startswith fence s.
Proof.
  unfold fence. simpl.
  destruct s as [|a [|b [|c s]]]; simpl; rewrite ?ci_backtick; reflexivity.
Qed.

Lemma lstrip_length (p : ascii -> bool) (s : str) :
  List.length (lstrip_by p s) <= List.length s.
Proof. induction s as [|d t IH]; simpl; [lia|]. destruct (p d); simpl; lia. Qed.

Lemma lstrip_app_stop (p : ascii -> bool) (a b : str) :
  lstrip_by p b = b -> lstrip_by p (a ++ b) = lstrip_by p a ++ b.
Proof.
  intro Hb. induction a as [|c a IH]; simpl; [exact Hb|].
  destruct (p c); [exact IH|reflexivity].
Qed.

Lemma lstrip_fence (post : str) : lstrip_by isspace (fence ++ post) = fence ++ post.
Proof. reflexivity. Qed.

Lemma rstrip_nil_lstrip (p : ascii -> bool) (s : str) :
  rstrip_by p s = [] <-> lstrip_by p s = [].
Proof.
  induction s as [|c t IH]; simpl; [tauto|].
  destruct (p c) eqn:E.
  - destruct (rstrip_by p t); [tauto|].
    split; [discriminate|]. intro H. apply IH in H. discriminate H.
  - destruct (rstrip_by p t); split; discriminate.
Qed.

Lemma rstrip_prefix (p : ascii -> bool) (s : str) :
  firstn (List.length (rstrip_by p s)) s = rstrip_by p s.
Proof.
  induction s as [|c t IH]; simpl; [reflexivity|].
  destruct (rstrip_by p t) as [|d r] eqn:E.
  - destruct (p c); reflexivity.
  - simpl. f_equal. exact IH.
Qed.

Lemma rstrip_length (p : ascii -> bool) (s : str) :
  List.length (rstrip_by p s) <= List.length s.
Proof.
  induction s as [|c t IH]; simpl; [lia|].
  destruct (rstrip_by p t); [destruct (p c)|]; simpl in *; lia.
Qed.

Lemma fence_free_lstrip (s : str) :
  fence_free s = true -> fence_free (lstrip_by isspace s) = true.
Proof.
  induction s as [|c t IH]; [reflexivity|].
  intro H. simpl. destruct (isspace c).
  - apply IH. simpl in H. apply andb_true_iff in H. tauto.
  - exact H.
Qed.

Lemma startswith_app_long (p a b : str) :
  List.length p <= List.length a -> startswith p (a ++ b) = startswith p a.
Proof.
  revert a. induction p as [|x p IH]; intros [|y a] H; simpl in *; try reflexivity; try lia.
  rewrite IH by lia. reflexivity.
Qed.

Lemma fence_free_not_closes (c : ascii) (t post : str) :
  fence_free (c :: t) = true ->
  startswith fence ((c :: t) ++ fence ++ post) = false.
Proof.
  intros H. simpl in H. apply andb_true_iff in H. destruct H as [H _].
  apply negb_true_iff in H.
  rewrite app_assoc, startswith_app_long; [exact H|].
  rewrite length_app. simpl. lia.
Qed.


Lemma closes_after (s0 post : str) :
  fence_free s0 = true ->
  closes (s0 ++ fence ++ post) =
  match lstrip_by isspace s0 with [] => true | _ => false end.
Proof.
  intro H. unfold closes.
  rewrite lstrip_app_stop by apply lstrip_fence.
  apply fence_free_lstrip in H.
  destruct (lstrip_by isspace s0) as [|c t]; [reflexivity|].
  apply fence_free_not_closes. exact H.
Qed.

Lemma star_lazy_first (A : Type) (F : str -> A) (post : str) : forall s0 pos,
  fence_free s0 = true ->
  star_lazy any pos (s0 ++ fence ++ post)
    (fun _ s => if closes s then Some (F s) else None)
  = Some (F (skipn (List.length (rstrip_by isspace s0)) s0 ++ fence ++ post)).
Proof.
  induction s0 as [|c t IH]; intros pos H.
  - reflexivity.
  - change (star_lazy any pos ((c :: t) ++ fence ++ post)
              (fun _ s => if closes s then Some (F s) else None))
      with (orelse (if closes ((c :: t) ++ fence ++ post)
                    then Some (F ((c :: t) ++ fence ++ post)) else None)
                   (star_lazy any (S pos) (t ++ fence ++ post)
                      (fun _ s => if closes s then Some (F s) else None))).
    rewrite (closes_after _ _ H).
    destruct (lstrip_by isspace (c :: t)) as [|d u] eqn:E.
    + apply rstrip_nil_lstrip in E. rewrite E. reflexivity.
    + simpl orelse. rewrite IH.
      2:{ simpl in H. apply andb_true_iff in H. tauto. }
      f_equal. f_equal.
      assert (Hne : rstrip_by isspace (c :: t) <> []).
      { intro R. apply rstrip_nil_lstrip in R. congruence. }
      simpl in Hne |- *.
      destruct (rstrip_by isspace t) as [|x r]; [|reflexivity].
      destruct (isspace c); [congruence|reflexivity].
Qed.

Lemma m_seq (A : Type) r1 r2 pos s g (k : cont A) :
  m (Seq r1 r2) pos s g k = m r1 pos s g (fun pos' s' g' => m r2 pos' s' g' k).
Proof. reflexivity. Qed.

Lemma m_eps (A : Type) pos s g (k : cont A) : m Eps pos s g k = k pos s g.
Proof. reflexivity. Qed.

Lemma m_star_greedy (A : Type) p pos s g (k : cont A) :
  m (Star true p) pos s g k = star_greedy p pos s (fun pos' s' => k pos' s' g).
Proof. reflexivity. Qed.

Lemma m_star_lazy (A : Type) p pos s g (k : cont A) :
  m (Star false p) pos s g k = star_lazy p pos s (fun pos' s' => k pos' s' g).
Proof. reflexivity. Qed.

Lemma m_grp (A : Type) r pos s g (k : cont A) :
  m (Grp r) pos s g k =
  m r pos s g (fun pos' s' _ => k pos' s' (Some (firstn (List.length s - List.length s') s))).
Proof. reflexivity. Qed.

Lemma m_tail (pos : nat) (s : str) (g : option str) :
  m tail pos s g fin =
  if closes s
  then Some (match g with Some x => x | None => [] end,
             skipn 3 (lstrip_by isspace s))
  else None.
Proof.
  unfold tail. rewrite m_seq, m_star_greedy.
  destruct (@star_greedy_strict (str * str) isspace
              (fun pos' s' => m (Seq (lit fence) Eps) pos' s' g fin)) with (s := s) (pos := pos)
    as [pos' ->].
  - intros p c t Hc. rewrite m_seq, m_lit, startswith_ci_fence.
    change (startswith fence (c :: t))
      with (chr_eqb "`"%char c && startswith (L "``") t).
    rewrite (space_not_backtick _ Hc). reflexivity.
  - rewrite m_seq, m_lit, startswith_ci_fence. unfold closes.
    destruct (startswith fence (lstrip_by isspace s)); reflexivity.
Qed.

Lemma strip_strip (s : str) : strip (strip s) = strip s.
Proof.
  unfold strip, strip_by.
  set (u := lstrip_by isspace s).
  assert (Hu : lstrip_by isspace u = u).
  { subst u. induction s as [|c t IH]; simpl; [reflexivity|].
    destruct (isspace c) eqn:E; [exact IH|]. simpl. rewrite E. reflexivity. }
  clearbody u.
  assert (H1 : lstrip_by isspace (rstrip_by isspace u) = rstrip_by isspace u).
  { destruct u as [|c t]; [reflexivity|].
    simpl in Hu. destruct (isspace c) eqn:E.
    - exfalso. pose proof (lstrip_length isspace t) as Hl. rewrite Hu in Hl. simpl in Hl. lia.
    - simpl. destruct (rstrip_by isspace t); rewrite ?E; simpl; rewrite ?E; reflexivity. }
  rewrite H1.
  clear. induction u as [|c t IH]; simpl; [reflexivity|].
  destruct (rstrip_by isspace t) as [|d r] eqn:E.
  - destruct (isspace c) eqn:Ec; simpl; rewrite ?Ec; reflexivity.
  - simpl in IH |- *. rewrite IH. reflexivity.
Qed.

Lemma lstrip_after_rstrip (p : ascii -> bool) (s : str) :
  lstrip_by p (skipn (List.length (rstrip_by p s)) s) = [].
Proof.
  induction s as [|c t IH]; [reflexivity|].
  simpl rstrip_by.
  destruct (rstrip_by p t) as [|d r] eqn:E.
  - apply rstrip_nil_lstrip in E.
    destruct (p c) eqn:Ec; simpl; rewrite ?Ec; exact E.
  - exact IH.
Qed.

Lemma match_sql_block (opener inner post : str) (pos : nat) :
  ci_equal opener (L "```sql") = true ->
  fence_free inner = true ->
  match_here sql_block pos (opener ++ inner ++ fence ++ post) = Some (strip inner, post).
Proof.
  intros Hop Hff. unfold match_here, sql_block.
  change (cat [lit (L "```sql"); Star true isspace; Grp (Star false any);
               Star true isspace; lit fence])
    with (Seq (lit (L "```sql"))
            (Seq (Star true isspace) (Seq (Grp (Star false any)) tail))).
  change (fun (_ : nat) (s' : str) (g : option str) =>
            Some (match g with Some x => x | None => [] end, s')) with fin.
  rewrite m_seq, m_lit.
  destruct (startswith_ci_app _ _ (inner ++ fence ++ post) Hop) as [-> ->].
  rewrite m_seq, m_star_greedy.
  apply star_greedy_success.
  rewrite lstrip_app_stop by apply lstrip_fence.
  set (s0 := lstrip_by isspace inner).
  rewrite m_seq, m_grp, m_star_lazy.
  erewrite star_lazy_ext.
  2:{ intros p s. apply m_tail. }
  assert (Hs0 : fence_free s0 = true) by (apply fence_free_lstrip; exact Hff).
  rewrite (@star_lazy_first _
             (fun s => (firstn (List.length (s0 ++ fence ++ post) - List.length s)
                               (s0 ++ fence ++ post),
                        skipn 3 (lstrip_by isspace s))) post s0 _ Hs0).
  f_equal. f_equal.
  - pose proof (rstrip_length isspace s0) as Hl.
    rewrite !length_app, length_skipn.
    replace (List.length s0 + (List.length fence + List.length post) -
             (List.length s0 - List.length (rstrip_by isspace s0) +
              (List.length fence + List.length post)))
      with (List.length (rstrip_by isspace s0)) by lia.
    rewrite firstn_app.
    replace (List.length (rstrip_by isspace s0) - List.length s0) with 0 by lia.
    simpl. rewrite app_nil_r. apply rstrip_prefix.
  - rewrite lstrip_app_stop by apply lstrip_fence.
    rewrite lstrip_after_rstrip. reflexivity.
Qed.

Lemma match_sql_block_none (pos : nat) (s : str) :
  startswith_ci (L "```sql") s = false -> match_here sql_block pos s = None.
Proof.
  intro H. unfold match_here, sql_block.
  change (cat [lit (L "```sql"); Star true isspace; Grp (Star false any);
               Star true isspace; lit fence])
    with (Seq (lit (L "```sql"))
            (Seq (Star true isspace) (Seq (Grp (Star false any)) tail))).
  rewrite m_seq, m_lit, H. reflexivity.
Qed.

Lemma search_skips (r : re) (pre rest : str) :
  (forall pos a b, pre = a ++ b -> b <> [] -> match_here r pos (b ++ rest) = None) ->
  forall pos, search_from r pos (pre ++ rest) = search_from r (pos + List.length pre) rest.
Proof.
  induction pre as [|c t IH]; intros H pos.
  - simpl. rewrite Nat.add_0_r. reflexivity.
  - change (search_from r pos ((c :: t) ++ rest))
      with (match match_here r pos ((c :: t) ++ rest) with
            | Some x => Some x
            | None => search_from r (S pos) (t ++ rest)
            end).
    rewrite (H pos [] (c :: t) eq_refl) by discriminate.
    rewrite IH.
    + simpl. rewrite Nat.add_succ_r. reflexivity.
    + intros pos' a b E Hb. apply (H pos' (c :: a) b); [rewrite E; reflexivity|exact Hb].
Qed.

Lemma search_from_hit (r : re) (pos : nat) (s : str) x :
  match_here r pos s = Some x -> search_from r pos s = Some x.
Proof. intro H. destruct s; simpl; rewrite H; reflexivity. Qed.

Lemma no_opener_suffix (pre rest a b : str) :
  no_opener_in pre rest = true -> pre = a ++ b -> b <> [] ->
  startswith_ci (L "```sql") (b ++ rest) = false.
Proof.
  revert pre. induction a as [|c a IH]; intros pre H E Hb; simpl in E; subst pre.
  - destruct b as [|d b]; [congruence|].
    cbn [no_opener_in] in H. apply andb_true_iff in H. destruct H as [H _].
    apply negb_true_iff in H. exact H.
  - cbn [app no_opener_in] in H. apply andb_true_iff in H. destruct H as [_ H].
    apply (IH _ H eq_refl Hb).
Qed.

Lemma findall_head (r : re) : forall s fuel pos,
  List.length s < fuel ->
  match search_from r pos s with
  | Some (g, _) => exists rest, findall_from fuel r pos s = g :: rest
  | None => findall_from fuel r pos s = []
  end.
Proof.
  induction s as [|c t IH]; intros fuel pos Hf; (destruct fuel as [|fuel]; [simpl in Hf; lia|]).
  - simpl. destruct (match_here r pos []) as [[g s']|]; [|reflexivity].
    destruct (List.length s' <? 0); eexists; reflexivity.
  - cbn [search_from findall_from].
    destruct (match_here r pos (c :: t)) as [[g s']|].
    + destruct (List.length s' <? List.length (c :: t)); eexists; reflexivity.
    + apply IH. simpl in Hf. lia.
Qed.

Lemma findall_search (r : re) (s : str) :
  match search_from r 0 s with
  | Some (g, _) => exists rest, findall r s = g :: rest
  | None => findall r s = []
  end.
Proof. apply findall_head. lia. Qed.

(** C8: in a text whose first SQL-tagged opening fence is followed by
    [inner] and a closing fence, [extract_sql_from_text] returns [inner]
    with the surrounding whitespace trimmed, whatever precedes the fence
    and whatever follows it, generic fences and inline statements
    included. *)
Theorem sql_tagged_fence_extracted (pre opener inner post : str) :
  ci_equal opener (L "```sql") = true ->
  no_opener_in pre (opener ++ inner ++ fence ++ post) = true ->
  fence_free inner = true ->
  extract_sql_from_text (pre ++ opener ++ inner ++ fence ++ post) = strip inner.
Proof.
  intros Hop Hpre Hff.
  unfold extract_sql_from_text, sql_patterns. cbn [first_match].
  pose proof (findall_search sql_block (pre ++ opener ++ inner ++ fence ++ post)) as Hfa.
  rewrite search_skips in Hfa.
  2:{ intros pos a b E Hb. apply match_sql_block_none.
      apply (no_opener_suffix _ _ a b Hpre E Hb). }
  rewrite (search_from_hit _ _ _ _ (match_sql_block _ _ _ _ Hop Hff)) in Hfa.
  destruct Hfa as [rest ->]. apply strip_strip.
Qed.

Lemma sql_tagged_fence_extracted_witness :
  extract_sql_from_text
    (L "Here: " ++ L "```sql" ++ (LF :: L "SELECT 1" ++ [LF]) ++ fence ++ L " and that's it")
  = L "SELECT 1".
Proof.
  exact (@sql_tagged_fence_extracted (L "Here: ") (L "```sql") (LF :: L "SELECT 1" ++ [LF])
           (L " and that's it") eq_refl eq_refl eq_refl).
Defined.


(** C5, as stated: with an INSERT statement before a SELECT statement and
    no fenced block, the statement returned is not the first one of the
    text. *)
Lemma later_select_returned_before_insert :
  findall sql_block insert_then_select = []
  /\ findall code_block insert_then_select = []
  /\ findall inline_select insert_then_select = [L "SELECT 1;"]
  /\ findall inline_insert insert_then_select = [L "INSERT INTO t VALUES (1);"]
  /\ first_inline_statement insert_then_select = L "INSERT INTO t VALUES (1);"
  /\ extract_sql_from_text insert_then_select = L "SELECT 1;"
  /\ extract_sql_from_text insert_then_select
     <> first_inline_statement insert_then_select.
Proof.
  repeat split; try (vm_compute; reflexivity).
  intro H. vm_compute in H. discriminate H.
Qed.

Lemma first_match_search (p : re) (rest : list re) (text : str) :
  first_match (p :: rest) text =
  match search_from p 0 text with
  | Some (g, _) => strip g
  | None => first_match rest text
  end.
Proof.
  cbn [first_match].
  pose proof (findall_search p text) as H.
  destruct (search_from p 0 text) as [[g s']|].
  - destruct H as [tl ->]. reflexivity.
  - rewrite H. reflexivity.
Qed.

Lemma search_none (p : re) (text : str) :
  findall p text = [] -> search_from p 0 text = None.
Proof.
  intro H. pose proof (findall_search p text) as Hs.
  destruct (search_from p 0 text) as [[g s']|]; [|reflexivity].
  destruct Hs as [tl Hs]. congruence.
Qed.

(** C5, amended: without a fenced block, the keyword decides before the
    position does: the first SELECT statement if there is one, else the
    first INSERT statement, else the first UPDATE statement, else the
    first DELETE statement, else the empty string. *)
Theorem inline_statement_by_keyword_order (text : str) :
  findall sql_block text = [] ->
  findall code_block text = [] ->
  extract_sql_from_text text = first_by_keyword text.
Proof.
  intros H1 H2. unfold extract_sql_from_text, sql_patterns.
  rewrite !first_match_search.
  rewrite (search_none _ _ H1), (search_none _ _ H2). reflexivity.
Qed.

Lemma inline_statement_by_keyword_order_witness :
  extract_sql_from_text insert_then_select = first_by_keyword insert_then_select.
Proof.
  exact (inline_statement_by_keyword_order insert_then_select eq_refl eq_refl).
Defined.

End SqlFacts.

(** * The response parser and the two clients *)

Module ClientFacts.
Import Py Re Pandas Langchain ClientSpec.

(** C9: when the response text taken from the agent's result is empty,
    [ask_genie_structured] returns the sentinel answer, the empty SQL and
    the empty table. *)
Theorem empty_response_gives_sentinel (agent : Agent) (question : str)
        (result : AgentResult) :
  agent (GenieDatabricks.enhanced_question question) = Ok result ->
  GenieDatabricks.content_of result = [] ->
  GenieDatabricks.ask_genie_structured agent question =
  {| GenieDatabricks.answer := L "No response from Genie";
     GenieDatabricks.sql := [];
     GenieDatabricks.df := empty_frame |}.
Proof.
  intros Hagent Hcontent. unfold GenieDatabricks.ask_genie_structured.
  rewrite Hagent, Hcontent. reflexivity.
Qed.

Lemma empty_response_gives_sentinel_witness :
  GenieDatabricks.ask_genie_structured silent_agent (L "Hello") =
  {| GenieDatabricks.answer := L "No response from Genie";
     GenieDatabricks.sql := [];
     GenieDatabricks.df := empty_frame |}.
Proof.
  exact (empty_response_gives_sentinel silent_agent (L "Hello")
           (DictResult (Some [])) eq_refl eq_refl).
Defined.

(** C10: the helper functions of the local client and of the Databricks
    client agree on every text. *)
Theorem clients_extract_alike (text : str) :
  GenieLocal.extract_sql_from_text text = GenieDatabricks.extract_sql_from_text text
  /\ GenieLocal.extract_data_from_text text = GenieDatabricks.extract_data_from_text text.
Proof. split; reflexivity. Qed.

End ClientFacts.

(** * The table extractor *)

Module TableFacts.
Import Py Re Pandas GenieDatabricks TableSpec.

(** C6, as stated: the cells of the row are not three strings. *)
Lemma scenario_B_cells_not_all_strings :
  rows (extract_data_from_text scenario_B)
  <> [[VStr (L "Food"); VStr (L "100"); VStr (L "120")]].
Proof. intro H. vm_compute in H. discriminate H. Qed.

(** C6, amended: on the three lines of scenario B the table has the
    columns Type, Actual and Plan and one row, whose cells are the string
    Food and the integers 100 and 120. *)
Theorem scenario_B_table :
  columns (extract_data_from_text scenario_B) = [L "Type"; L "Actual"; L "Plan"]
  /\ rows (extract_data_from_text scenario_B) = [[VStr (L "Food"); VInt 100; VInt 120]]
  /\ map s_dtype (data (extract_data_from_text scenario_B)) = [object; int64; int64].
Proof. repeat split; vm_compute; reflexivity. Qed.


(** ** The tokenizer on the text the extractor writes *)

Lemma quote_free_cons (c : ascii) (cell : str) :
  quote_free (c :: cell) = true -> chr_eqb c QUOTE = false /\ quote_free cell = true.
Proof.
  unfold quote_free, contains_chr. simpl.
  rewrite negb_true_iff, orb_false_iff, negb_true_iff.
  intros [H1 H2]. split; [|exact H2].
  unfold chr_eqb in *. rewrite Ascii.eqb_sym. exact H1.
Qed.

Lemma tokenize_in_quotes (cell rest : str) : forall w l ls,
  quote_free cell = true ->
  tokenize_bytes {| state := IN_QUOTED_FIELD; word := w; line := l; lines := ls |}
                 (cell ++ rest)
  = tokenize_bytes {| state := IN_QUOTED_FIELD; word := rev cell ++ w; line := l;
                      lines := ls |} rest.
Proof.
  induction cell as [|c cell IH]; intros w l ls H; [reflexivity|].
  apply quote_free_cons in H. destruct H as [Hc H].
  cbn [app tokenize_bytes]. unfold step at 1. cbn [state]. rewrite Hc.
  cbn [bind]. unfold push_char. cbn [state word line lines].
  rewrite IH by exact H. cbn [rev]. rewrite <- app_assoc. reflexivity.
Qed.

Lemma tokenize_quoted (cell rest : str) (p : parser_t) :
  at_line_start p -> quote_free cell = true ->
  tokenize_bytes p (quoted cell ++ rest)
  = tokenize_bytes {| state := QUOTE_IN_QUOTED_FIELD; word := rev cell; line := line p;
                      lines := lines p |} rest.
Proof.
  intros [Hst Hw] H. unfold quoted.
  rewrite <- !app_assoc. cbn [app tokenize_bytes].
  assert (E : step p QUOTE =
              Ok {| state := IN_QUOTED_FIELD; word := []; line := line p;
                    lines := lines p |}).
  { destruct p as [st w l ls]. cbn in Hst, Hw. subst w.
    destruct Hst as [-> | ->]; reflexivity. }
  rewrite E. cbn [bind].
  rewrite tokenize_in_quotes by exact H.
  cbn [tokenize_bytes]. unfold step at 1. cbn [state].
  replace (chr_eqb QUOTE QUOTE) with true by reflexivity.
  cbn [bind]. rewrite app_nil_r. reflexivity.
Qed.

Lemma last_cons (c' : str) (cells : list str) : forall c,
  last (c' :: cells) c = last cells c'.
Proof.
  revert c'. induction cells as [|x cells IH]; intros c' c; [reflexivity|].
  change (last (c' :: x :: cells) c) with (last (x :: cells) c).
  rewrite !IH. reflexivity.
Qed.

(** After the text of one row the parser holds the last cell as the
    current word and the other cells as the fields of the line. *)
Lemma tokenize_row (cells : list str) : forall (c : str) (rest : str) (p : parser_t),
  at_line_start p -> Forall (fun x => quote_free x = true) (c :: cells) ->
  tokenize_bytes p (join (L ",") (map quoted (c :: cells)) ++ rest)
  = tokenize_bytes {| state := QUOTE_IN_QUOTED_FIELD;
                      word := rev (last cells c);
                      line := rev (removelast (c :: cells)) ++ line p;
                      lines := lines p |} rest.
Proof.
  induction cells as [|c' cells IH]; intros c rest p Hp Hq.
  - cbn [map join]. rewrite tokenize_quoted; [reflexivity|exact Hp|].
    inversion Hq; assumption.
  - change (join (L ",") (map quoted (c :: c' :: cells)))
      with (quoted c ++ L "," ++ join (L ",") (map quoted (c' :: cells))).
    rewrite <- !app_assoc.
    inversion Hq as [|? ? Hc Hq']; subst.
    rewrite tokenize_quoted by assumption.
    change (L "," ++ join (L ",") (map quoted (c' :: cells)) ++ rest)
      with (COMMA :: (join (L ",") (map quoted (c' :: cells)) ++ rest)).
    cbn [tokenize_bytes]. unfold step at 1. cbn [state].
    replace (chr_eqb COMMA QUOTE) with false by reflexivity.
    replace (chr_eqb COMMA COMMA) with true by reflexivity.
    cbn [bind]. rewrite IH; [|split; [right; reflexivity|reflexivity]|exact Hq'].
    unfold set_state, end_field. cbn [state word line lines].
    rewrite rev_involutive.
    f_equal. f_equal.
    + f_equal. symmetry. apply last_cons.
    + change (removelast (c :: c' :: cells)) with (c :: removelast (c' :: cells)).
      cbn [rev]. rewrite <- app_assoc. reflexivity.
Qed.

Lemma rev_removelast_last (c : str) (cells : list str) :
  last cells c :: rev (removelast (c :: cells)) = rev (c :: cells).
Proof.
  revert c. induction cells as [|c' cells IH]; intro c; [reflexivity|].
  change (removelast (c :: c' :: cells)) with (c :: removelast (c' :: cells)).
  rewrite last_cons. cbn [rev]. rewrite app_comm_cons, IH. reflexivity.
Qed.

Lemma end_line_add_line st w (cells : list str) (ls : list (list str)) :
  end_line {| state := st; word := w; line := rev cells; lines := ls |}
  = (ls' <- add_line ls cells ;;
     Ok {| state := START_RECORD; word := w; line := []; lines := ls' |}).
Proof.
  unfold end_line, add_line. cbn [state word line lines].
  rewrite rev_involutive, length_rev.
  destruct ls as [|prev ls]; [reflexivity|].
  destruct (negb (List.length (prev :: ls) <=? 1) && (List.length prev <? List.length cells));
    reflexivity.
Qed.


Lemma fresh_at_line_start ls : at_line_start (fresh ls).
Proof. split; [left|]; reflexivity. Qed.

Lemma end_of_row (c : str) (cells : list str) (ls : list (list str)) :
  end_line (end_field {| state := QUOTE_IN_QUOTED_FIELD; word := rev (last cells c);
                         line := rev (removelast (c :: cells)) ++ [];
                         lines := ls |})
  = (ls' <- add_line ls (c :: cells) ;; Ok (fresh ls')).
Proof.
  unfold end_field. cbn [state word line lines].
  rewrite rev_involutive, app_nil_r, rev_removelast_last.
  apply end_line_add_line.
Qed.

Lemma tokenize_rows (rows : list (list str)) : forall (r : list str) (ls : list (list str)),
  Forall (fun x => x <> [] /\ Forall (fun c => quote_free c = true) x) (r :: rows) ->
  (p <- tokenize_bytes (fresh ls) (csv_of (r :: rows)) ;; handle_eof p)
  = (ls' <- add_lines ls (r :: rows) ;; Ok (fresh ls')).
Proof.
  induction rows as [|r' rows IH]; intros r ls H;
    inversion H as [|? ? [Hne Hq] H']; subst;
    (destruct r as [|c cells]; [congruence|]).
  - change (csv_of [c :: cells]) with (join (L ",") (map quoted (c :: cells))).
    rewrite <- (app_nil_r (join (L ",") (map quoted (c :: cells)))).
    rewrite tokenize_row; [|apply fresh_at_line_start|exact Hq].
    cbn [tokenize_bytes bind handle_eof state fresh line lines].
    rewrite end_of_row. cbn [add_lines].
    destruct (add_line ls (c :: cells)); reflexivity.
  - change (csv_of ((c :: cells) :: r' :: rows))
      with (join (L ",") (map quoted (c :: cells)) ++ LF :: csv_of (r' :: rows)).
    rewrite tokenize_row; [|apply fresh_at_line_start|exact Hq].
    cbn [tokenize_bytes]. unfold step at 1. cbn [state fresh line lines].
    replace (chr_eqb LF QUOTE) with false by reflexivity.
    replace (chr_eqb LF COMMA) with false by reflexivity.
    replace (chr_eqb LF LF) with true by reflexivity.
    rewrite end_of_row. cbn [add_lines].
    destruct (add_line ls (c :: cells)) as [ls'|e]; [|reflexivity].
    cbn [bind]. apply IH. exact H'.
Qed.

(** The words that [read_csv] reads are the cells, each up to its first
    NUL character. *)
Lemma tokenize_all_csv (r : list str) (rows : list (list str)) :
  Forall (fun x => x <> [] /\ Forall (fun c => quote_free c = true) x) (r :: rows) ->
  tokenize_all (csv_of (r :: rows))
  = (ls <- add_lines [] (r :: rows) ;; Ok (map (map c_string) (rev ls))).
Proof.
  intro H. unfold tokenize_all.
  pose proof (tokenize_rows rows r [] H) as E. unfold fresh in E at 1.
  change parser_new with {| state := START_RECORD; word := []; line := []; lines := [] |}.
  destruct (tokenize_bytes {| state := START_RECORD; word := []; line := []; lines := [] |}
                           (csv_of (r :: rows))) as [p|e]; cbn [bind] in *.
  - rewrite E. destruct (add_lines [] (r :: rows)); reflexivity.
  - destruct (add_lines [] (r :: rows)); [discriminate E|].
    cbn [bind] in *. congruence.
Qed.

Lemma c_string_nul_free (cell : str) : nul_free cell = true -> c_string cell = cell.
Proof.
  unfold nul_free, contains_chr. induction cell as [|c t IH]; [reflexivity|].
  cbn [existsb c_string]. rewrite negb_true_iff, orb_false_iff. intros [Hc Ht].
  assert (E : chr_eqb c NUL = false)
    by (unfold chr_eqb in *; rewrite Ascii.eqb_sym; exact Hc).
  rewrite E. f_equal. apply IH. rewrite negb_true_iff. exact Ht.
Qed.

Lemma map_c_string_nul_free (cells : list str) :
  Forall (fun c => nul_free c = true) cells -> map c_string cells = cells.
Proof.
  intro H. induction H as [|c l Hc H IH]; [reflexivity|].
  cbn [map]. rewrite (c_string_nul_free _ Hc), IH. reflexivity.
Qed.

Lemma lines_nul_free (ls : list (list str)) :
  Forall (Forall (fun c => nul_free c = true)) ls -> map (map c_string) ls = ls.
Proof.
  intro H. induction H as [|l ls Hl H IH]; [reflexivity|].
  cbn [map]. rewrite (map_c_string_nul_free _ Hl), IH. reflexivity.
Qed.

(** ** The tokens of the CSV text *)

Lemma add_line_tokens (P : str -> Prop) (ls ls' : list (list str)) (cells : list str) :
  P [] -> Forall (Forall P) ls -> Forall P cells ->
  add_line ls cells = Ok ls' -> Forall (Forall P) ls'.
Proof.
  intros Hnil Hls Hcells H. unfold add_line in H.
  destruct ls as [|prev rest].
  - injection H as <-. constructor; [exact Hcells|constructor].
  - destruct (negb (List.length (prev :: rest) <=? 1)
              && (List.length prev <? List.length cells)); [discriminate H|].
    injection H as <-. constructor; [|exact Hls].
    apply Forall_app. split; [exact Hcells|].
    apply Forall_forall. intros x Hx. apply repeat_spec in Hx. subst x. exact Hnil.
Qed.

Lemma add_lines_tokens (P : str -> Prop) (rows : list (list str)) : forall ls ls',
  P [] -> Forall (Forall P) ls -> Forall (Forall P) rows ->
  add_lines ls rows = Ok ls' -> Forall (Forall P) ls'.
Proof.
  induction rows as [|cells rows IH]; intros ls ls' Hnil Hls Hrows H.
  - simpl in H. injection H as <-. exact Hls.
  - inversion Hrows as [|? ? Hcells Hrows']; subst.
    cbn [add_lines] in H.
    destruct (add_line ls cells) as [ls1|e] eqn:E; [|discriminate H].
    cbn [bind] in H.
    apply (IH ls1 ls' Hnil); [|exact Hrows'|exact H].
    apply (add_line_tokens P ls ls1 cells Hnil Hls Hcells E).
Qed.

Lemma column_tokens (P : str -> Prop) (j : nat) (body : list (list str)) :
  P [] -> Forall (Forall P) body -> Forall P (column j body).
Proof.
  intros Hnil H. unfold column. induction H as [|l body Hl H IH]; [constructor|].
  cbn [map]. constructor; [|exact IH].
  assert (Hx : forall d : str, P d -> P (nth j l d)).
  { intros d Hd.
    destruct (nth_in_or_default j l d) as [Hin|E]; [|rewrite E; exact Hd].
    rewrite Forall_forall in Hl. apply Hl. exact Hin. }
  apply Hx. exact Hnil.
Qed.

(** Without a NUL character in a cell, the words are the cells. *)
Lemma tokenize_all_clean (r : list str) (rows : list (list str)) :
  Forall (fun x => x <> [] /\ Forall (fun c => quote_free c = true) x) (r :: rows) ->
  Forall (Forall (fun c => nul_free c = true)) (r :: rows) ->
  tokenize_all (csv_of (r :: rows))
  = (ls <- add_lines [] (r :: rows) ;; Ok (rev ls)).
Proof.
  intros Hwf Hnul. rewrite (tokenize_all_csv _ _ Hwf).
  destruct (add_lines [] (r :: rows)) as [ls|e] eqn:E; [|reflexivity].
  cbn [bind]. f_equal. apply lines_nul_free. apply Forall_rev.
  apply (add_lines_tokens (fun c => nul_free c = true) (r :: rows) [] ls);
    [reflexivity|constructor|exact Hnul|exact E].
Qed.

(** ** Lines with too many or too few cells *)

Lemma add_lines_later (W : nat) (rest : list (list str)) : forall prev ls,
  List.length prev = W -> ls <> [] ->
  (Forall (fun r => List.length r <= W) rest ->
   add_lines (prev :: ls) rest = Ok (rev (map (pad W) rest) ++ prev :: ls))
  /\ (Exists (fun r => W < List.length r) rest ->
      add_lines (prev :: ls) rest = Raise ParserError).
Proof.
  induction rest as [|r rest IH]; intros prev ls HW Hls.
  - split; [reflexivity|]. intro H. inversion H.
  - cbn [add_lines]. unfold add_line.
    assert (Hlen : (List.length (prev :: ls) <=? 1) = false).
    { destruct ls; [congruence|]. reflexivity. }
    rewrite Hlen, HW. cbn [negb andb].
    destruct (W <? List.length r) eqn:E.
    + apply Nat.ltb_lt in E. split; [|reflexivity].
      intro H. inversion H; subst. lia.
    + apply Nat.ltb_ge in E. cbn [bind].
      destruct (IH (r ++ repeat [] (W - List.length r)) (prev :: ls)) as [IH1 IH2].
      * rewrite length_app, repeat_length. lia.
      * discriminate.
      * split.
        -- intro H. inversion H; subst. rewrite IH1 by assumption.
           cbn [map rev]. rewrite <- app_assoc. reflexivity.
        -- intro H. inversion H; subst; [lia|]. apply IH2. assumption.
Qed.


Lemma pad_length (n : nat) (cells : list str) :
  List.length cells <= n -> List.length (pad n cells) = n.
Proof. intro H. unfold pad. rewrite length_app, repeat_length. lia. Qed.

Lemma add_lines_table (h first : list str) (rest : list (list str)) :
  let W := Nat.max (List.length h) (List.length first) in
  (Forall (fun r => List.length r <= W) rest ->
   add_lines [] (h :: first :: rest)
   = Ok (rev (map (pad W) rest) ++ [pad (List.length h) first; h]))
  /\ (Exists (fun r => W < List.length r) rest ->
      add_lines [] (h :: first :: rest) = Raise ParserError).
Proof.
  intro W. cbn [add_lines add_line bind List.length Nat.leb negb andb].
  apply add_lines_later; [|discriminate].
  rewrite length_app, repeat_length. subst W. lia.
Qed.

Lemma split_not_nil (sep : ascii) (s : str) : split sep s <> [].
Proof.
  induction s as [|c t IH]; simpl; [discriminate|].
  destruct (chr_eqb c sep); [discriminate|].
  destruct (split sep t); [congruence|discriminate].
Qed.

Lemma cells_of_not_nil (line : str) : cells_of line <> [].
Proof.
  unfold cells_of. intro H. apply map_eq_nil in H.
  exact (split_not_nil _ _ H).
Qed.

Lemma csv_text_of_lines (tl : list str) :
  join [LF] (map csv_line tl) = csv_of (map cells_of tl).
Proof. unfold csv_of. rewrite map_map. reflexivity. Qed.

Lemma table_rows_well_formed (text : str) (cells : list (list str)) :
  table_cells text = cells ->
  Forall (Forall (fun c => quote_free c = true)) cells ->
  Forall (fun x => x <> [] /\ Forall (fun c => quote_free c = true) x) cells.
Proof.
  intros <- H. unfold table_cells in *.
  induction (table_lines text) as [|l tl IH]; [constructor|].
  cbn [map] in *. inversion H; subst.
  constructor; [split; [apply cells_of_not_nil|assumption]|].
  apply IH. assumption.
Qed.

(** ** The conversion of a column, case by case *)

Lemma convert_tokens_eq (words : list str) :
  words <> [] ->
  convert_tokens words =
  match _try_int64 words with
  | Ok (Some data) =>
      if 0 <? na_count words
      then _maybe_upcast {| s_dtype := int64; s_values := map VInt data |}
      else {| s_dtype := int64; s_values := map VInt data |}
  | Ok None => convert_rest words
  | Raise OverflowError =>
      match _try_uint64 words with
      | Ok (Some data) => {| s_dtype := uint64; s_values := map VInt data |}
      | Ok None => convert_rest words
      | Raise ValueError => _string_convert false words
      | Raise _ => _string_convert true words
      end
  | Raise ValueError => _string_convert false words
  | Raise _ => _string_convert true words
  end.
Proof.
  intro Hne. unfold convert_tokens.
  destruct (List.length words =? 0) eqn:El.
  { apply Nat.eqb_eq in El. destruct words; [congruence|discriminate El]. }
  assert (Hrest : match cast_loop [float64; bool_; object] words with
                  | Some (col_res, n) => if 0 <? n then _maybe_upcast col_res else col_res
                  | None => _string_convert true words
                  end = convert_rest words).
  { unfold convert_rest. cbn [cast_loop]. unfold _convert_with_dtype.
    destruct (_try_double words) as [vs|]; cbn [option_map].
    - destruct (0 <? na_count words); reflexivity.
    - destruct (_try_bool_flex words) as [vs|]; cbn [option_map].
      + destruct (0 <? na_count words); reflexivity.
      + cbn [andb]. destruct (0 <? na_count words); reflexivity. }
  assert (Hstr : forall b : bool, (if 0 <? (if b then na_count words else 0)
                            then _maybe_upcast (_string_convert b words)
                            else _string_convert b words) = _string_convert b words).
  { intro b. destruct (0 <? _); reflexivity. }
  unfold dtype_cast_order. cbn [cast_loop]. unfold _convert_with_dtype at 1.
  destruct (_try_int64 words) as [[data|]|e]; cbn [bind option_map astype].
  - reflexivity.
  - exact Hrest.
  - destruct e; cbn [bind]; try apply (Hstr true); try apply (Hstr false).
    destruct (_try_uint64 words) as [[data|]|e]; cbn [bind option_map astype].
    + reflexivity.
    + exact Hrest.
    + destruct e; try apply (Hstr true); apply (Hstr false).
Qed.

Lemma try_all_values (f : str -> option value) (P : value -> Prop) (toks : list str) :
  P NaN -> (forall tok v, In tok toks -> f tok = Some v -> P v) ->
  forall vs, try_all f toks = Some vs -> Forall P vs.
Proof.
  intros Hnan. induction toks as [|tok rest IH]; intros Hf vs H.
  - simpl in H. injection H as <-. constructor.
  - cbn [try_all] in H. destruct (is_na tok).
    + destruct (try_all f rest) as [vs'|] eqn:E; [|discriminate H].
      simpl in H. injection H as <-. constructor; [exact Hnan|].
      apply IH; [|reflexivity]. intros t v Ht. apply Hf. right. exact Ht.
    + destruct (f tok) as [v|] eqn:Ev; [|discriminate H].
      destruct (try_all f rest) as [vs'|] eqn:E; [|discriminate H].
      injection H as <-. constructor.
      * apply (Hf tok v); [left; reflexivity|exact Ev].
      * apply IH; [|reflexivity]. intros t v' Ht. apply Hf. right. exact Ht.
Qed.

Lemma string_convert_cells (b : bool) (words : list str) :
  Forall (cell_of words object) (s_values (_string_convert b words)).
Proof.
  unfold _string_convert. cbn [s_values].
  apply Forall_forall. intros v Hv. apply in_map_iff in Hv.
  destruct Hv as (word & <- & Hin).
  destruct (b && is_na word); [exact I|]. split; [reflexivity|exact Hin].
Qed.

Lemma convert_rest_cells (words : list str) :
  Forall (cell_of words (s_dtype (convert_rest words))) (s_values (convert_rest words)).
Proof.
  unfold convert_rest.
  destruct (_try_double words) as [vs|] eqn:E1.
  - cbn [s_dtype s_values].
    apply (try_all_values (fun word => option_map VFloat (to_double word))
             (cell_of words float64) words); [exact I| |exact E1].
    intros tok v _ Hv. destruct (to_double tok); [|discriminate Hv].
    injection Hv as <-. reflexivity.
  - destruct (_try_bool_flex words) as [vs|] eqn:E2.
    + cbn [s_dtype s_values].
      apply (try_all_values (fun word => option_map VBool (to_boolean word))
               (cell_of words (if 0 <? na_count words then object else bool_)) words);
        [exact I| |exact E2].
      intros tok v Hin Hv. destruct (to_boolean tok) as [b|] eqn:Eb; [|discriminate Hv].
      injection Hv as <-. split.
      * destruct (0 <? na_count words); [right|left]; reflexivity.
      * exists tok. split; [exact Hin|exact Eb].
    + apply string_convert_cells.
Qed.

(** Every cell of a column is of the type of the column; a string is one
    of the words, a boolean stands for one. *)
Lemma convert_tokens_cells (words : list str) :
  Forall (cell_of words (s_dtype (convert_tokens words)))
         (s_values (convert_tokens words)).
Proof.
  destruct words as [|w ws]; [constructor|].
  rewrite convert_tokens_eq by discriminate.
  set (words := w :: ws).
  assert (Hint : forall data : list Z,
             Forall (cell_of words int64) (map VInt data)).
  { intro data. apply Forall_forall. intros v Hv. apply in_map_iff in Hv.
    destruct Hv as (z & <- & _). left. reflexivity. }
  destruct (_try_int64 words) as [[data|]|e].
  - destruct (0 <? na_count words); [|apply Hint].
    unfold _maybe_upcast. cbn [s_dtype s_values].
    apply Forall_forall. intros v Hv. rewrite map_map in Hv. apply in_map_iff in Hv.
    destruct Hv as (z & <- & _). destruct (z =? INT64_MIN)%Z; [exact I|reflexivity].
  - apply convert_rest_cells.
  - destruct e; try apply string_convert_cells.
    destruct (_try_uint64 words) as [[data|]|e].
    + cbn [s_dtype s_values]. apply Forall_forall. intros v Hv. apply in_map_iff in Hv.
      destruct Hv as (z & <- & _). right. reflexivity.
    + apply convert_rest_cells.
    + destruct e; apply string_convert_cells.
Qed.

(** ** Missing cells are read as [NaN] *)


Lemma nth_error_map_some (A B : Type) (f : A -> B) (l : list A) (i : nat) (x : A) :
  nth_error l i = Some x -> nth_error (map f l) i = Some (f x).
Proof. intro H. rewrite nth_error_map, H. reflexivity. Qed.



Lemma na_count_positive (words : list str) (i : nat) (word : str) :
  nth_error words i = Some word -> is_na word = true -> (0 <? na_count words) = true.
Proof.
  intros Hi Hna. apply Nat.ltb_lt. unfold na_count.
  assert (Hin : In word (filter is_na words)).
  { apply filter_In. split; [exact (nth_error_In _ _ Hi)|exact Hna]. }
  destruct (filter is_na words); [destruct Hin|simpl; lia].
Qed.





Lemma str_strip_nan (s s' : Series) (i : nat) :
  str_strip s = Ok s' -> nth_error (s_values s) i = Some NaN ->
  nth_error (s_values s') i = Some NaN.
Proof.
  unfold str_strip. destruct (existsb _ (s_values s)); [discriminate|].
  intros H Hi. injection H as <-. cbn [s_values].
  rewrite (nth_error_map_some _ _ _ _ _ _ Hi). reflexivity.
Qed.

Lemma strip_object_columns_nan (all_names : list str) (names : list str) :
  forall (data data' : list Series),
  strip_object_columns all_names names data = Ok data' ->
  List.length data <= List.length names ->
  List.length data' = List.length data
  /\ forall j s, nth_error data j = Some s ->
       exists s', nth_error data' j = Some s'
                  /\ forall i, nth_error (s_values s) i = Some NaN ->
                               nth_error (s_values s') i = Some NaN.
Proof.
  induction names as [|col names IH]; intros data data' H Hlen.
  - destruct data; [|simpl in Hlen; lia]. injection H as <-.
    split; [reflexivity|]. intros [|j] s Hs; discriminate Hs.
  - destruct data as [|s0 data].
    { injection H as <-. split; [reflexivity|]. intros [|j] s Hs; discriminate Hs. }
    cbn [strip_object_columns] in H.
    destruct (2 <=? List.length (filter (str_eqb col) all_names)); [discriminate H|].
    destruct (match s_dtype s0 with object => str_strip s0 | _ => Ok s0 end)
      as [s0'|e] eqn:E0; [|discriminate H].
    cbn [bind] in H.
    destruct (strip_object_columns all_names names data) as [rest|e] eqn:E1;
      [|discriminate H].
    cbn [bind] in H. injection H as <-.
    destruct (IH _ _ E1) as [IHl IHn]; [simpl in Hlen; lia|].
    split; [simpl; rewrite IHl; reflexivity|].
    intros [|j] s Hs; cbn [nth_error] in *.
    + injection Hs as <-. exists s0'. split; [reflexivity|].
      intros i Hi. destruct (s_dtype s0);
        try (injection E0 as <-; exact Hi).
      exact (str_strip_nan _ _ _ E0 Hi).
    + apply IHn. exact Hs.
Qed.


Lemma set_nth_length (i : nat) (x : str) (l : list str) :
  List.length (set_nth i x l) = List.length l.
Proof.
  revert i. induction l as [|y l IH]; intros [|i]; simpl; try reflexivity.
  rewrite IH. reflexivity.
Qed.

Lemma dedup_names_length (order : list nat) : forall this_header counts,
  List.length (dedup_names order this_header counts) = List.length this_header.
Proof.
  induction order as [|i order IH]; intros th counts; [reflexivity|].
  cbn [dedup_names].
  destruct (dedup_loop (2 * List.length th + 2) th counts (nth i th []) (nth i th [])
                       (counts_get counts (nth i th []))) as [[c col] n].
  rewrite IH. apply set_nth_length.
Qed.

Lemma header_names_length (h : list str) :
  List.length (header_names h) = List.length h.
Proof.
  unfold header_names. rewrite dedup_names_length, length_map, length_seq. reflexivity.
Qed.


Lemma column_c_string (j : nat) (body : list (list str)) :
  column j (map (map c_string) body) = map c_string (column j body).
Proof.
  unfold column. rewrite !map_map. apply map_ext. intro l.
  exact (map_nth c_string l [] j).
Qed.

(** The frame of a table without surplus cells, by the words. *)
Lemma read_csv_padded_words (h first : list str) (rest : list (list str)) :
  Forall (fun x => x <> [] /\ Forall (fun c => quote_free c = true) x)
         (h :: first :: rest) ->
  Forall (fun r => List.length r <= List.length h) (first :: rest) ->
  read_csv (csv_of (h :: first :: rest))
  = Ok {| columns := header_names (map c_string h);
          index := RangeIndex (List.length (first :: rest));
          data := map (fun j => convert_tokens
                                  (map c_string
                                     (column j (map (pad (List.length h)) (first :: rest)))))
                      (List.seq 0 (List.length h)) |}.
Proof.
  intros Hwf Hle. inversion Hle as [|? ? Hfirst Hrest]; subst.
  unfold read_csv. rewrite tokenize_all_csv by exact Hwf.
  destruct (add_lines_table h first rest) as [H _].
  rewrite Nat.max_l in H by exact Hfirst.
  rewrite (H Hrest). cbn [bind].
  rewrite rev_app_distr, rev_involutive. cbn [rev app map].
  rewrite !length_map, (pad_length _ _ Hfirst), Nat.sub_diag.
  cbn [Nat.eqb skipn List.length]. rewrite !length_map.
  f_equal. f_equal. apply map_ext. intro j.
  rewrite <- column_c_string. reflexivity.
Qed.

Lemma read_csv_padded (h first : list str) (rest : list (list str)) :
  Forall (fun x => x <> [] /\ Forall (fun c => quote_free c = true) x)
         (h :: first :: rest) ->
  Forall (Forall (fun c => nul_free c = true)) (h :: first :: rest) ->
  Forall (fun r => List.length r <= List.length h) (first :: rest) ->
  read_csv (csv_of (h :: first :: rest))
  = Ok {| columns := header_names h;
          index := RangeIndex (List.length (first :: rest));
          data := map (fun j => convert_tokens
                                  (column j (map (pad (List.length h)) (first :: rest))))
                      (List.seq 0 (List.length h)) |}.
Proof.
  intros Hwf Hnul Hle. inversion Hle as [|? ? Hfirst Hrest]; subst.
  unfold read_csv. rewrite tokenize_all_clean by assumption.
  destruct (add_lines_table h first rest) as [H _].
  rewrite Nat.max_l in H by exact Hfirst.
  rewrite (H Hrest). cbn [bind].
  rewrite rev_app_distr, rev_involutive. cbn [rev app].
  rewrite (pad_length _ _ Hfirst), Nat.sub_diag.
  cbn [Nat.eqb skipn List.length map]. rewrite length_map. reflexivity.
Qed.

Lemma pad_tokens (P : str -> Prop) (n : nat) (body : list (list str)) :
  P [] -> Forall (Forall P) body -> Forall (Forall P) (map (pad n) body).
Proof.
  intros Hnil H. induction H as [|r body Hr H IH]; [constructor|].
  cbn [map]. constructor; [|exact IH].
  unfold pad. apply Forall_app. split; [exact Hr|].
  apply Forall_forall. intros x Hx. apply repeat_spec in Hx. subst x. exact Hnil.
Qed.


Lemma extract_of_frame (text : str) (h first : list str) (rest : list (list str)) :
  table_cells text = h :: first :: rest ->
  extract_data_from_text text =
  match frame_of_table_lines (table_lines text) with
  | Ok df => df
  | Raise _ => empty_frame
  end.
Proof.
  intro H. unfold extract_data_from_text. fold (table_lines text).
  assert (Hl : 2 <= List.length (table_lines text)).
  { unfold table_cells in H. apply (f_equal (@List.length _)) in H.
    rewrite length_map in H. simpl in H. lia. }
  apply Nat.leb_le in Hl. rewrite Hl. reflexivity.
Qed.

(** ** Distinct, non-empty header names are kept as they are *)

Lemma str_eqb_eq (a b : str) : str_eqb a b = true <-> a = b.
Proof.
  revert b. induction a as [|x a IH]; intros [|y b]; simpl; split; intro H;
    try reflexivity; try discriminate.
  - apply andb_true_iff in H. destruct H as [H1 H2].
    apply Ascii.eqb_eq in H1. apply IH in H2. congruence.
  - injection H as -> ->. apply andb_true_iff. split.
    + apply Ascii.eqb_refl.
    + apply IH. reflexivity.
Qed.

Lemma str_eqb_refl (a : str) : str_eqb a a = true.
Proof. apply str_eqb_eq. reflexivity. Qed.

Lemma str_eqb_neq (a b : str) : a <> b -> str_eqb a b = false.
Proof.
  intro H. destruct (str_eqb a b) eqn:E; [|reflexivity].
  apply str_eqb_eq in E. contradiction.
Qed.

Lemma set_nth_same (l : list str) : forall i, set_nth i (nth i l []) l = l.
Proof.
  induction l as [|y l IH]; intros [|i]; simpl; try reflexivity.
  rewrite IH. reflexivity.
Qed.

Lemma dedup_names_distinct (th : list str) : forall order counts,
  NoDup th -> NoDup order ->
  (forall i, In i order -> i < List.length th) ->
  (forall k, counts_get counts k <> 0 ->
     exists j, j < List.length th /\ nth j th [] = k /\ ~ In j order) ->
  dedup_names order th counts = th.
Proof.
  intros order. induction order as [|i order IH]; intros counts Hth Hord Hlt Hc;
    [reflexivity|].
  cbn [dedup_names].
  assert (Hz : counts_get counts (nth i th []) = 0).
  { destruct (counts_get counts (nth i th [])) eqn:E; [reflexivity|].
    destruct (Hc (nth i th [])) as (j & Hj & Hn & Hnot); [rewrite E; discriminate|].
    exfalso. apply Hnot. left.
    apply (proj1 (NoDup_nth th []) Hth); [apply Hlt; left; reflexivity|exact Hj|].
    symmetry. exact Hn. }
  rewrite Hz.
  replace (dedup_loop (2 * List.length th + 2) th counts (nth i th []) (nth i th []) 0)
    with (counts, nth i th [], 0).
  2:{ replace (2 * List.length th + 2) with (S (2 * List.length th + 1)) by lia.
      reflexivity. }
  rewrite set_nth_same. inversion Hord as [|? ? Hni Hord']; subst.
  apply IH; [exact Hth|exact Hord'|intros; apply Hlt; right; assumption|].
  intros k Hk. unfold counts_set in Hk. cbn [counts_get] in Hk.
  destruct (str_eqb (nth i th []) k) eqn:E.
  - apply str_eqb_eq in E. exists i. split; [apply Hlt; left; reflexivity|].
    split; [exact E|exact Hni].
  - destruct (Hc k Hk) as (j & Hj & Hn & Hnot). exists j.
    split; [exact Hj|]. split; [exact Hn|]. intro Hin. apply Hnot. right. exact Hin.
Qed.

Lemma map_nth_seq (l : list str) :
  map (fun i => nth i l []) (List.seq 0 (List.length l)) = l.
Proof.
  induction l as [|x l IH]; [reflexivity|].
  cbn [List.length List.seq map nth]. f_equal.
  rewrite <- seq_shift, map_map. exact IH.
Qed.

Lemma filter_none (A : Type) (P : A -> bool) (l : list A) :
  (forall x, In x l -> P x = false) -> filter P l = [].
Proof.
  induction l as [|x l IH]; intro H; [reflexivity|].
  cbn [filter]. rewrite (H x) by (left; reflexivity).
  apply IH. intros y Hy. apply H. right. exact Hy.
Qed.

Lemma filter_all (A : Type) (P : A -> bool) (l : list A) :
  (forall x, In x l -> P x = true) -> filter P l = l.
Proof.
  induction l as [|x l IH]; intro H; [reflexivity|].
  cbn [filter]. rewrite (H x) by (left; reflexivity).
  f_equal. apply IH. intros y Hy. apply H. right. exact Hy.
Qed.

Lemma header_names_distinct (h : list str) :
  NoDup h -> Forall (fun name => name <> []) h -> header_names h = h.
Proof.
  intros Hnd Hne. unfold header_names. cbv zeta.
  assert (Hidx : forall i, In i (List.seq 0 (List.length h)) -> nth i h [] <> []).
  { intros i Hi. apply in_seq in Hi.
    rewrite Forall_forall in Hne. apply Hne. apply nth_In. lia. }
  assert (Hun : filter (fun i => str_eqb (nth i h []) []) (List.seq 0 (List.length h)) = []).
  { apply filter_none. intros i Hi. apply str_eqb_neq. apply Hidx. exact Hi. }
  assert (Hna : filter (fun i => negb (str_eqb (nth i h []) [])) (List.seq 0 (List.length h))
                = List.seq 0 (List.length h)).
  { apply filter_all. intros i Hi. rewrite str_eqb_neq by (apply Hidx; exact Hi).
    reflexivity. }
  assert (Hth : map (fun i => if str_eqb (nth i h []) []
                              then L "Unnamed: " ++ str_of_nat i else nth i h [])
                    (List.seq 0 (List.length h)) = h).
  { transitivity (map (fun i => nth i h []) (List.seq 0 (List.length h)));
      [|apply map_nth_seq].
    apply map_ext_in. intros i Hi.
    rewrite str_eqb_neq by (apply Hidx; exact Hi). reflexivity. }
  rewrite Hun, Hna, Hth, app_nil_r.
  apply dedup_names_distinct.
  - exact Hnd.
  - apply seq_NoDup.
  - intros i Hi. apply in_seq in Hi. lia.
  - intros k Hk. exfalso. apply Hk. reflexivity.
Qed.

Lemma count_distinct (names : list str) (col : str) :
  NoDup names -> (2 <=? List.length (filter (str_eqb col) names)) = false.
Proof.
  intro Hnd. apply Nat.leb_gt.
  induction Hnd as [|x l Hx Hnd IH]; [simpl; lia|].
  cbn [filter]. destruct (str_eqb col x) eqn:E; [|lia].
  apply str_eqb_eq in E. subst x.
  assert (Hf : filter (str_eqb col) l = []).
  { clear IH Hnd. induction l as [|y l IH]; [reflexivity|].
    cbn [filter]. rewrite str_eqb_neq.
    - apply IH. intro H. apply Hx. right. exact H.
    - intro H. apply Hx. left. symmetry. exact H. }
  rewrite Hf. simpl. lia.
Qed.

(** ** Columns without booleans are stripped without error *)

Lemma convert_tokens_no_bool (toks : list str) :
  (forall tok, In tok toks -> to_boolean tok = None) ->
  existsb is_bool (s_values (convert_tokens toks)) = false.
Proof.
  intro Hb. pose proof (convert_tokens_cells toks) as H.
  destruct (existsb is_bool (s_values (convert_tokens toks))) eqn:E; [|reflexivity].
  apply existsb_exists in E. destruct E as (v & Hv & Hbool).
  rewrite Forall_forall in H. specialize (H v Hv).
  destruct v; try discriminate Hbool.
  destruct H as (_ & word & Hin & Hw). rewrite (Hb word Hin) in Hw. discriminate Hw.
Qed.

Lemma column_tokens_no_bool (n j : nat) (body : list (list str)) :
  Forall (Forall (fun c => to_boolean c = None)) body ->
  forall tok, In tok (column j (map (pad n) body)) -> to_boolean tok = None.
Proof.
  intros Hb.
  apply Forall_forall. apply column_tokens; [reflexivity|].
  apply pad_tokens; [reflexivity|exact Hb].
Qed.

Lemma strip_object_columns_ok (all_names : list str) :
  NoDup all_names ->
  forall (names : list str) (data : list Series),
    Forall (fun s => existsb is_bool (s_values s) = false) data ->
    exists data', strip_object_columns all_names names data = Ok data'.
Proof.
  intros Hnd names. induction names as [|col names IH]; intros data Hd.
  - exists []. reflexivity.
  - destruct data as [|s data]; [exists []; reflexivity|].
    inversion Hd as [|? ? Hs Hd']; subst.
    cbn [strip_object_columns]. rewrite (count_distinct _ col Hnd).
    destruct (IH data Hd') as [rest Hrest]. rewrite Hrest.
    unfold str_strip. rewrite Hs.
    destruct (s_dtype s); eexists; reflexivity.
Qed.

Lemma cells_stripped (line : str) : Forall (fun c => strip c = c) (cells_of line).
Proof.
  unfold cells_of. apply Forall_forall. intros c Hc.
  apply in_map_iff in Hc. destruct Hc as (x & <- & _). apply SqlFacts.strip_strip.
Qed.

Lemma map_strip_cells (line : str) : map strip (cells_of line) = cells_of line.
Proof.
  pose proof (cells_stripped line) as H.
  induction H as [|c l Hc H IH]; [reflexivity|].
  cbn [map]. rewrite Hc, IH. reflexivity.
Qed.





End TableFacts.

(** * The report of all validations *)

Module ReportFacts.
Import Py Validator ValidatorSpec ReportSpec ValidatorFacts.
Local Open Scope Q_scope.

Lemma validate_profitability_claims_blocks (df : DataFrame) :
  validate_profitability_claims df =
  Ok (block (restaurant_contrib df) restaurant_contribution_result
      ++ block (controllable_profit df) controllable_profit_result).
Proof.
  unfold validate_profitability_claims, block.
  destruct (restaurant_contrib df) as [|r1 l1], (controllable_profit df) as [|r2 l2];
    simpl; rewrite ?variance_pct_of_ok; simpl; rewrite ?variance_pct_of_ok; reflexivity.
Qed.

Lemma validate_promotional_claims_blocks (df : DataFrame) :
  validate_promotional_claims df =
  Ok (block (map abs_row (promotions df)) promotions_result).
Proof.
  unfold validate_promotional_claims, block.
  destruct (promotions df) as [|r1 l1]; simpl; rewrite ?variance_pct_of_ok; reflexivity.
Qed.

Lemma validate_employee_meals_claims_blocks (df : DataFrame) :
  validate_employee_meals_claims df =
  Ok (block (map abs_row (employee_meals df)) employee_meals_result).
Proof.
  unfold validate_employee_meals_claims, block.
  destruct (employee_meals df) as [|r1 l1]; simpl; rewrite ?variance_pct_of_ok;
    reflexivity.
Qed.

Lemma sum_ones (A : Type) (l : list A) :
  sum (map (fun _ => 1%Z) l) = Z.of_nat (List.length l).
Proof.
  unfold sum.
  assert (H : forall (l : list A) acc,
             fold_left Z.add (map (fun _ => 1%Z) l) acc
             = (acc + Z.of_nat (List.length l))%Z).
  { clear l. induction l as [|x l IH]; intro acc; simpl List.length; simpl map;
      simpl fold_left.
    - lia.
    - rewrite IH. lia. }
  rewrite H. lia.
Qed.

Lemma filter_length_le {A : Type} (P : A -> bool) (l : list A) :
  (List.length (filter P l) <= List.length l)%nat.
Proof.
  induction l as [|x l IH]; simpl; [lia|]. destruct (P x); simpl; lia.
Qed.

Lemma run_all_validations_report (df : DataFrame) :
  run_all_validations df = Ok (report_of (outcomes df)).
Proof.
  unfold run_all_validations.
  rewrite validate_revenue_claims_blocks, validate_profitability_claims_blocks,
    validate_promotional_claims_blocks, validate_employee_meals_claims_blocks,
    validate_summary_metrics_blocks.
  cbn [bind]. fold (outcomes df).
  rewrite sum_ones. unfold report_of. cbv zeta.
  destruct (0 <? Z.of_nat (List.length (outcomes df)))%Z eqn:E; cbn [bind];
    [|reflexivity].
  unfold div.
  assert (Hne : Qeq_bool (inject_Z (Z.of_nat (List.length (outcomes df)))) 0 = false).
  { destruct (Qeq_bool _ 0) eqn:E0; [|reflexivity].
    apply Qeq_bool_eq in E0. apply Z.ltb_lt in E.
    unfold Qeq in E0. simpl in E0. lia. }
  rewrite Hne. reflexivity.
Qed.

Lemma block_length sel mk : (List.length (block sel mk) <= 1)%nat.
Proof. destruct sel; simpl; lia. Qed.

Lemma summary_block_length df c : (List.length (summary_block df c) <= 1)%nat.
Proof. unfold summary_block. destruct (claim_data df c); simpl; lia. Qed.

Lemma outcomes_length (df : DataFrame) : (List.length (outcomes df) <= 10)%nat.
Proof.
  unfold outcomes. rewrite !length_app.
  pose proof (block_length (food_sales df) food_result).
  pose proof (block_length (beverage_sales df) beverage_result).
  pose proof (block_length (retail_sales df) retail_result).
  pose proof (block_length (restaurant_contrib df) restaurant_contribution_result).
  pose proof (block_length (controllable_profit df) controllable_profit_result).
  pose proof (block_length (map abs_row (promotions df)) promotions_result).
  pose proof (block_length (map abs_row (employee_meals df)) employee_meals_result).
  unfold financial_claims. cbn [flat_map]. rewrite !length_app.
  pose proof (summary_block_length df food_sales_summary).
  pose proof (summary_block_length df beverage_sales_summary).
  pose proof (summary_block_length df controllable_profit_summary).
  simpl List.length. lia.
Qed.

(** X1: [run_all_validations] returns a report on every fact table: the
    total is the number of outcomes, at most ten; the valid count is the
    number of outcomes with [is_valid]; the invalid count is the number of
    the others, and the two counts add up to the total. *)
Theorem run_all_validations_counts (df : DataFrame) :
  exists rep,
    run_all_validations df = Ok rep
    /\ total_validations rep = Z.of_nat (List.length (detailed_results rep))
    /\ (total_validations rep <= 10)%Z
    /\ valid_count rep = Z.of_nat (List.length (filter is_valid (detailed_results rep)))
    /\ invalid_count rep
       = Z.of_nat (List.length (filter (fun r => negb (is_valid r)) (detailed_results rep)))
    /\ (valid_count rep + invalid_count rep = total_validations rep)%Z.
Proof.
  exists (report_of (outcomes df)).
  split; [apply run_all_validations_report|].
  unfold report_of; cbn [total_validations valid_count invalid_count detailed_results].
  pose proof (outcomes_length df) as Hlen.
  assert (Hpart : forall l : list ValidationResult,
             (List.length (filter is_valid l)
              + List.length (filter (fun r => negb (is_valid r)) l)
              = List.length l)%nat).
  { induction l as [|x l IH]; simpl; [reflexivity|].
    destruct (is_valid x); simpl; lia. }
  specialize (Hpart (outcomes df)).
  repeat split; lia.
Qed.

Lemma ratio_bounds (k n : Z) :
  (0 <= k <= n)%Z -> (0 < n)%Z ->
  0 <= inject_Z k / inject_Z n * 100 /\ inject_Z k / inject_Z n * 100 <= 100.
Proof.
  intros Hk Hn.
  assert (Hn' : 0 < inject_Z n)
    by (change (inject_Z 0 < inject_Z n); rewrite <- Zlt_Qlt; exact Hn).
  assert (Hne : ~ inject_Z n == 0) by (intro E; rewrite E in Hn'; discriminate).
  assert (Hd : inject_Z k / inject_Z n * inject_Z n == inject_Z k)
    by (rewrite Qmult_comm; apply Qmult_div_r; exact Hne).
  assert (Hk0 : 0 <= inject_Z k)
    by (change (inject_Z 0 <= inject_Z k); rewrite <- Zle_Qle; lia).
  assert (Hkn : inject_Z k <= inject_Z n) by (rewrite <- Zle_Qle; lia).
  set (q := inject_Z k / inject_Z n) in *.
  assert (H0 : 0 <= q).
  { apply (Qmult_le_r _ _ (inject_Z n) Hn'). rewrite Hd. lra. }
  assert (H1 : q <= 1).
  { apply (Qmult_le_r _ _ (inject_Z n) Hn'). rewrite Hd. lra. }
  split; lra.
Qed.

(** X2: the accuracy rate of the report is 0 when there is no outcome and
    100 times the valid count over the total otherwise; it lies between 0
    and 100. *)
Theorem accuracy_rate_bounded (df : DataFrame) :
  exists rep,
    run_all_validations df = Ok rep
    /\ (detailed_results rep = [] -> accuracy_rate rep = 0)
    /\ (detailed_results rep <> [] ->
        accuracy_rate rep
        = inject_Z (valid_count rep) / inject_Z (total_validations rep) * 100)
    /\ 0 <= accuracy_rate rep /\ accuracy_rate rep <= 100.
Proof.
  exists (report_of (outcomes df)).
  split; [apply run_all_validations_report|].
  unfold report_of;
    cbn [total_validations valid_count accuracy_rate detailed_results].
  pose proof (filter_length_le is_valid (outcomes df)) as Hle.
  destruct (outcomes df) as [|r l] eqn:E.
  - change (if (0 <? Z.of_nat (List.length (@nil ValidationResult)))%Z
            then inject_Z (Z.of_nat (List.length (filter is_valid [])))
                 / inject_Z (Z.of_nat (List.length (@nil ValidationResult))) * 100
            else 0) with 0.
    repeat split; try reflexivity; try (intro H; congruence); lra.
  - assert (Hpos : (0 <? Z.of_nat (List.length (r :: l)))%Z = true)
      by (apply Z.ltb_lt; simpl List.length; lia).
    rewrite Hpos.
    destruct (ratio_bounds (Z.of_nat (List.length (filter is_valid (r :: l))))
                (Z.of_nat (List.length (r :: l)))) as [H0 H1];
      [lia | simpl List.length; lia |].
    repeat split; try assumption; try reflexivity. intro H; discriminate H.
Qed.

Lemma ratio_all_or_below (k n : Z) :
  (0 <= k <= n)%Z -> (0 < n <= 10)%Z ->
  (k = n -> inject_Z k / inject_Z n * 100 == 100)
  /\ (k <> n -> inject_Z k / inject_Z n * 100 <= 90).
Proof.
  intros Hk Hn.
  assert (Hn' : 0 < inject_Z n)
    by (change (inject_Z 0 < inject_Z n); rewrite <- Zlt_Qlt; lia).
  assert (Hne : ~ inject_Z n == 0) by (intro E; rewrite E in Hn'; discriminate).
  assert (Hd : inject_Z k / inject_Z n * inject_Z n == inject_Z k)
    by (rewrite Qmult_comm; apply Qmult_div_r; exact Hne).
  split.
  - intros ->. set (q := inject_Z n / inject_Z n) in *.
    assert (H1 : q == 1).
    { apply (Qmult_inj_r _ _ (inject_Z n) Hne). rewrite Hd. lra. }
    rewrite H1. reflexivity.
  - intro Hkn.
    assert (Hz : (10 * k <= 9 * n)%Z) by lia.
    rewrite Zle_Qle in Hz. rewrite !inject_Z_mult in Hz.
    set (q := inject_Z k / inject_Z n) in *.
    assert (H9 : 10 * q <= 9).
    { apply (Qmult_le_r _ _ (inject_Z n) Hn').
      rewrite <- Qmult_assoc, Hd. exact Hz. }
    lra.
Qed.

(** X3: the rating printed for the report is EXCELLENT exactly when there
    is at least one outcome and every outcome is valid, and it is POOR
    when there is no outcome. *)
Theorem excellent_iff_all_valid (df : DataFrame) :
  exists rep,
    run_all_validations df = Ok rep
    /\ (rating (accuracy_rate rep) = EXCELLENT
        <-> detailed_results rep <> []
            /\ Forall (fun r => is_valid r = true) (detailed_results rep))
    /\ (detailed_results rep = [] -> rating (accuracy_rate rep) = POOR).
Proof.
  exists (report_of (outcomes df)).
  split; [apply run_all_validations_report|].
  unfold report_of; cbn [accuracy_rate detailed_results].
  pose proof (outcomes_length df) as Hlen.
  pose proof (filter_length_le is_valid (outcomes df)) as Hle.
  assert (Hall : List.length (filter is_valid (outcomes df)) = List.length (outcomes df)
                 <-> Forall (fun r => is_valid r = true) (outcomes df)).
  { clear. induction (outcomes df) as [|x l IH]; simpl.
    - split; [constructor|reflexivity].
    - pose proof (filter_length_le is_valid l) as Hl.
      destruct (is_valid x) eqn:Ex; simpl.
      + split.
        * intro H. constructor; [exact Ex|]. apply IH. lia.
        * intro H. inversion H; subst. f_equal. apply IH. assumption.
      + split; [intro H; lia|].
        intro H. inversion H; subst. congruence. }
  destruct (outcomes df) as [|r l] eqn:E.
  - split.
    + split; [intro H; vm_compute in H; discriminate H|].
      intros [H _]. congruence.
    + intros _. reflexivity.
  - assert (Hpos : (0 <? Z.of_nat (List.length (r :: l)))%Z = true)
      by (apply Z.ltb_lt; simpl List.length; lia).
    rewrite Hpos.
    destruct (ratio_all_or_below
                (Z.of_nat (List.length (filter is_valid (r :: l))))
                (Z.of_nat (List.length (r :: l)))) as [Hsame Hbelow];
      [lia | simpl List.length in *; lia |].
    set (acc := inject_Z _ / inject_Z _ * 100) in *.
    split; [|intro H; discriminate H].
    unfold rating. split.
    + intro Hr. split; [intro H; discriminate H|].
      apply Hall.
      destruct (Nat.eq_dec (List.length (filter is_valid (r :: l)))
                           (List.length (r :: l))) as [Heq|Hneq]; [exact Heq|].
      exfalso.
      assert (Hacc : acc <= 90) by (apply Hbelow; lia).
      destruct (Qle_bool 95 acc) eqn:E95.
      * apply Qle_bool_iff in E95. lra.
      * destruct (Qle_bool 85 acc) eqn:E85; [discriminate Hr|].
        destruct (Qle_bool 70 acc); discriminate Hr.
    + intros [_ Hv]. apply Hall in Hv.
      assert (Hacc : acc == 100) by (apply Hsame; lia).
      assert (E95 : Qle_bool 95 acc = true) by (apply Qle_bool_iff; lra).
      rewrite E95. reflexivity.
Qed.






Lemma claim_data_food (df : DataFrame) : claim_data df food_sales_summary = food_sales df.
Proof. reflexivity. Qed.

Lemma claim_data_beverage (df : DataFrame) :
  claim_data df beverage_sales_summary = beverage_sales df.
Proof. reflexivity. Qed.

Lemma claim_data_controllable (df : DataFrame) :
  claim_data df controllable_profit_summary = controllable_profit df.
Proof. reflexivity. Qed.




Lemma Qabs_opp_eq (x : Q) : Qabs (- x) = Qabs x.
Proof. destruct x as [n d]. unfold Qabs, Qopp. simpl. rewrite Z.abs_opp. reflexivity. Qed.

Lemma abs_row_negate (wa wp : Row -> bool) (r : Row) :
  abs_row (negate_where wa wp r) = abs_row r.
Proof.
  unfold abs_row, negate_where. cbn [Type_ LineItem Actual Plan].
  destruct (wa r), (wp r); rewrite ?Qabs_opp_eq; reflexivity.
Qed.

Lemma filter_map_commute (A : Type) (f : A -> A) (P : A -> bool) (l : list A) :
  (forall x, P (f x) = P x) -> filter P (map f l) = map f (filter P l).
Proof.
  intro H. induction l as [|x l IH]; simpl; [reflexivity|].
  rewrite H. destruct (P x); simpl; rewrite IH; reflexivity.
Qed.

(** X6: the promotional and the employee-meals validations work on
    absolute values: turning the sign of the actual or of the plan of any
    rows of the fact table changes neither result. *)
Theorem promotional_claims_ignore_sign (which_actual which_plan : Row -> bool)
        (df : DataFrame) :
  validate_promotional_claims (map (negate_where which_actual which_plan) df)
  = validate_promotional_claims df
  /\ validate_employee_meals_claims (map (negate_where which_actual which_plan) df)
     = validate_employee_meals_claims df.
Proof.
  rewrite !validate_promotional_claims_blocks, !validate_employee_meals_claims_blocks.
  unfold promotions, employee_meals.
  rewrite !filter_map_commute by reflexivity.
  rewrite !map_map.
  split; do 2 f_equal; apply map_ext; intro r; apply abs_row_negate.
Qed.

Lemma block_app sel extra mk : sel <> [] -> block (sel ++ extra) mk = block sel mk.
Proof. destruct sel; [congruence|reflexivity]. Qed.

Lemma empty_false (sel : DataFrame) : negb (empty sel) = true -> sel <> [].
Proof. destruct sel; [discriminate|congruence]. Qed.

Lemma claim_data_app (df extra : DataFrame) (c : Claim) :
  claim_data (df ++ extra) c = claim_data df c ++ claim_data extra c.
Proof. unfold claim_data. destruct (has_filter (line_item_filter c)); apply filter_app. Qed.

Lemma summary_block_app (df extra : DataFrame) (c : Claim) :
  claim_data df c <> [] -> summary_block (df ++ extra) c = summary_block df c.
Proof.
  intro H. unfold summary_block. rewrite claim_data_app.
  destruct (claim_data df c); [congruence|reflexivity].
Qed.

(** X7: once every selection of the validations has a row in the fact
    table, rows appended to the table change nothing in the report. *)
Theorem appended_rows_ignored (df extra : DataFrame) :
  every_claim_matched df = true ->
  run_all_validations (df ++ extra) = run_all_validations df.
Proof.
  unfold every_claim_matched. intro H.
  repeat (apply andb_true_iff in H; destruct H as [H ?]).
  repeat match goal with
         | Hx : negb (empty _) = true |- _ => apply empty_false in Hx
         end.
  rewrite !run_all_validations_report. do 2 f_equal.
  assert (HS : flat_map (summary_block (df ++ extra)) financial_claims
               = flat_map (summary_block df) financial_claims).
  { unfold financial_claims. cbn [flat_map].
    rewrite !summary_block_app; [reflexivity| ..];
      rewrite ?claim_data_food, ?claim_data_beverage, ?claim_data_controllable;
      assumption. }
  unfold outcomes. rewrite HS.
  unfold food_sales, beverage_sales, retail_sales, restaurant_contrib,
    controllable_profit, promotions, employee_meals in *.
  rewrite !filter_app, !map_app.
  rewrite !block_app by (try assumption;
                         intro Hm; apply map_eq_nil in Hm; contradiction).
  reflexivity.
Qed.

Lemma appended_rows_ignored_witness :
  run_all_validations
    (df_all_claims ++ [ {| Type_ := Some (L "Net Sales");
                           LineItem := Some (L "Sales_Food");
                           Actual := 1; Plan := 2 |} ])
  = run_all_validations df_all_claims.
Proof.
  exact (appended_rows_ignored df_all_claims
           [ {| Type_ := Some (L "Net Sales"); LineItem := Some (L "Sales_Food");
                Actual := 1; Plan := 2 |} ] eq_refl).
Defined.

Lemma filter_filter_sub (A : Type) (P Q : A -> bool) (l : list A) :
  (forall x, P x = true -> Q x = true) -> filter P (filter Q l) = filter P l.
Proof.
  intro H. induction l as [|x l IH]; simpl; [reflexivity|].
  destruct (Q x) eqn:EQ; simpl.
  - rewrite IH. reflexivity.
  - destruct (P x) eqn:EP; [|exact IH].
    rewrite (H x EP) in EQ. discriminate EQ.
Qed.

(** X8: the report depends only on the rows whose type is Net Sales,
    Restaurant Contribution or Controllable Profit: leaving out every
    other row of the fact table gives the same report. *)
Theorem other_types_ignored (df : DataFrame) :
  run_all_validations (filter relevant df) = run_all_validations df.
Proof.
  rewrite !run_all_validations_report. do 2 f_equal.
  unfold outcomes. unfold financial_claims. cbn [flat_map]. unfold summary_block.
  rewrite !claim_data_food, !claim_data_beverage, !claim_data_controllable.
  unfold food_sales, beverage_sales, retail_sales, restaurant_contrib,
    controllable_profit, promotions, employee_meals.
  rewrite !filter_filter_sub; [reflexivity| ..];
    intros x Hx; unfold relevant;
    try (apply andb_true_iff in Hx; destruct Hx as [Hx _]);
    rewrite Hx; rewrite ?orb_true_r; reflexivity.
Qed.

Lemma cell_eqb_eq (a b : option str) : cell_eqb a b = true <-> a = b.
Proof.
  destruct a as [x|], b as [y|]; simpl; try (split; [discriminate|congruence]).
  - rewrite TableFacts.str_eqb_eq. split; congruence.
  - split; reflexivity.
Qed.

Lemma seen_iff (c : option str) (seen : list (option str)) :
  existsb (cell_eqb c) seen = true <-> In c seen.
Proof.
  rewrite existsb_exists. split.
  - intros (y & Hy & E). apply cell_eqb_eq in E. subst. exact Hy.
  - intro H. exists c. split; [exact H|]. apply cell_eqb_eq. reflexivity.
Qed.

Lemma in_unique (cells : list (option str)) : forall seen x,
  In x (unique seen cells) <-> In x cells /\ ~ In x seen.
Proof.
  induction cells as [|c rest IH]; intros seen x; simpl.
  - tauto.
  - destruct (existsb (cell_eqb c) seen) eqn:E.
    + apply seen_iff in E. rewrite IH. split.
      * intros [H1 H2]. tauto.
      * intros [[H1|H1] H2]; [subst; contradiction|tauto].
    + assert (Hc : ~ In c seen).
      { intro H. apply seen_iff in H. congruence. }
      simpl. rewrite IH. simpl.
      destruct (cell_eqb c x) eqn:Ex.
      * apply cell_eqb_eq in Ex. subst. tauto.
      * assert (c <> x) by (intro H; apply cell_eqb_eq in H; congruence). tauto.
Qed.

Lemma type_in_iff (t : str) (df : DataFrame) :
  type_in t (present_types df) = true <-> exists r, In r df /\ Type_ r = Some t.
Proof.
  unfold type_in, present_types. rewrite existsb_exists. split.
  - intros ([s|] & Hin & E); [|discriminate].
    apply TableFacts.str_eqb_eq in E. subst s.
    apply in_unique in Hin. destruct Hin as [Hin _].
    apply in_map_iff in Hin. destruct Hin as (r & Hr & Hin). exists r. tauto.
  - intros (r & Hin & Hr). exists (Some t). split.
    + apply in_unique. split; [|intros []].
      rewrite <- Hr. apply in_map. exact Hin.
    + apply TableFacts.str_eqb_refl.
Qed.

Lemma type_is_iff (t : str) (r : Row) : type_is t r = true <-> Type_ r = Some t.
Proof.
  unfold type_is. destruct (Type_ r) as [s|].
  - rewrite TableFacts.str_eqb_eq. split; congruence.
  - split; discriminate.
Qed.

Lemma present_selected (t : str) (df : DataFrame) :
  type_in t (present_types df) = true -> filter (type_is t) df <> [].
Proof.
  intro H. apply type_in_iff in H. destruct H as (r & Hin & Hr).
  intro E.
  assert (Hf : In r (filter (type_is t) df))
    by (apply filter_In; split; [exact Hin|apply type_is_iff; exact Hr]).
  rewrite E in Hf. destruct Hf.
Qed.

(** X9: the completeness check lists as missing exactly the required
    types that no row of the fact table has; when it lists none, the
    profitability validation finds a row for each of its two claims and
    returns both outcomes. *)
Theorem missing_types_are_absent (df : DataFrame) :
  (forall t, In t (missing_types df)
             <-> In t required_types /\ forall r, In r df -> Type_ r <> Some t)
  /\ (missing_types df = [] ->
      exists r1 r2,
        validate_profitability_claims df = Ok [r1; r2]
        /\ claim r1 = restaurant_contribution_claim
        /\ claim r2 = controllable_profit_claim).
Proof.
  split.
  - intro t. unfold missing_types. rewrite filter_In, negb_true_iff.
    split; intros [H1 H2]; (split; [exact H1|]).
    + intros r Hin Hr.
      assert (Ht : type_in t (present_types df) = true)
        by (apply type_in_iff; exists r; tauto).
      congruence.
    + destruct (type_in t (present_types df)) eqn:E; [|reflexivity].
      apply type_in_iff in E. destruct E as (r & Hin & Hr).
      exfalso. exact (H2 r Hin Hr).
  - intro Hnone. unfold missing_types in Hnone.
    assert (Hall : forall t, In t required_types ->
                             type_in t (present_types df) = true).
    { intros t Ht.
      destruct (type_in t (present_types df)) eqn:E; [reflexivity|].
      assert (Hin : In t (filter (fun t => negb (type_in t (present_types df)))
                                 required_types))
        by (apply filter_In; split; [exact Ht|rewrite E; reflexivity]).
      rewrite Hnone in Hin. destruct Hin. }
    assert (H1 : restaurant_contrib df <> []).
    { apply present_selected, Hall. unfold required_types. simpl. tauto. }
    assert (H2 : controllable_profit df <> []).
    { apply present_selected, Hall. unfold required_types. simpl. tauto. }
    rewrite validate_profitability_claims_blocks.
    destruct (restaurant_contrib df) as [|x1 l1]; [congruence|].
    destruct (controllable_profit df) as [|x2 l2]; [congruence|].
    eexists. eexists. split; [reflexivity|]. split; reflexivity.
Qed.

End ReportFacts.

(** * The clients and the API layer *)

Module ServiceFacts.
Import Py Re Pandas Langchain ServiceSpec.

Lemma lstrip_nil_iff (p : ascii -> bool) (s : str) :
  lstrip_by p s = [] <-> forallb p s = true.
Proof.
  induction s as [|c s IH]; simpl; [tauto|].
  destruct (p c); simpl; [exact IH|]. split; discriminate.
Qed.

Lemma lstrip_idem (p : ascii -> bool) (s : str) :
  lstrip_by p (lstrip_by p s) = lstrip_by p s.
Proof.
  induction s as [|c s IH]; simpl; [reflexivity|].
  destruct (p c) eqn:E; [exact IH|]. simpl. rewrite E. reflexivity.
Qed.

Lemma strip_nil_iff (s : str) : strip s = [] <-> forallb isspace s = true.
Proof.
  unfold strip, strip_by. rewrite SqlFacts.rstrip_nil_lstrip, lstrip_idem.
  apply lstrip_nil_iff.
Qed.

Lemma strip_not_nil (c : ascii) (s : str) : isspace c = false -> strip (c :: s) <> [].
Proof.
  intros Hc H. apply strip_nil_iff in H. simpl in H. rewrite Hc in H. discriminate H.
Qed.

(** The answer of the two clients, by the agent's reply. *)
Lemma answer_cases (agent : Agent) (question : str) :
  GenieDatabricks.answer (GenieDatabricks.ask_genie_structured agent question)
  = match agent (GenieDatabricks.enhanced_question question) with
    | Ok result =>
        match GenieDatabricks.content_of result with
        | [] => L "No response from Genie"
        | content => content
        end
    | Raise e => L "Error calling Genie: " ++ GenieDatabricks.str_of_exn e
    end.
Proof.
  unfold GenieDatabricks.ask_genie_structured.
  destruct (agent _) as [result|e]; [|reflexivity].
  destruct (GenieDatabricks.content_of result); reflexivity.
Qed.

Lemma answer_cases_local (agent : Agent) (question : str) :
  GenieLocal.answer (GenieLocal.ask_genie_structured agent question)
  = match agent (GenieLocal.enhanced_question question) with
    | Ok result =>
        match GenieLocal.content_of result with
        | [] => L "No response from Genie"
        | content => content
        end
    | Raise e => L "Error calling Genie: " ++ GenieLocal.str_of_exn e
    end.
Proof.
  unfold GenieLocal.ask_genie_structured.
  destruct (agent _) as [result|e]; [|reflexivity].
  destruct (GenieLocal.content_of result); reflexivity.
Qed.

(** X10: the answer of [ask_genie_structured] is never the empty string,
    whatever the agent returns or raises, in both clients. *)
Theorem answer_never_empty (agent : Agent) (question : str) :
  GenieDatabricks.answer (GenieDatabricks.ask_genie_structured agent question) <> []
  /\ GenieLocal.answer (GenieLocal.ask_genie_structured agent question) <> [].
Proof.
  rewrite answer_cases, answer_cases_local. split.
  - destruct (agent _) as [result|e]; [|discriminate].
    destruct (GenieDatabricks.content_of result); discriminate.
  - destruct (agent _) as [result|e]; [|discriminate].
    destruct (GenieLocal.content_of result); discriminate.
Qed.

Lemma health_by_reply (agent : Agent) :
  GenieDatabricks.get_genie_health_status agent
  = if blank_reply (agent probe) then L "error: No response from Genie" else L "healthy".
Proof.
  unfold GenieDatabricks.get_genie_health_status, GenieDatabricks.ask_genie.
  rewrite answer_cases. fold probe. unfold blank_reply.
  destruct (agent probe) as [result|e].
  - destruct (GenieDatabricks.content_of result) as [|c s] eqn:E.
    + reflexivity.
    + cbn [GenieDatabricks.truthy andb].
      destruct (forallb isspace (c :: s)) eqn:Hb.
      * apply strip_nil_iff in Hb. rewrite Hb. reflexivity.
      * destruct (strip (c :: s)) eqn:Hs; [|reflexivity].
        apply strip_nil_iff in Hs. congruence.
  - change (L "Error calling Genie: " ++ GenieDatabricks.str_of_exn e)
      with ("E"%char :: L "rror calling Genie: " ++ GenieDatabricks.str_of_exn e).
    cbn [GenieDatabricks.truthy andb].
    destruct (strip _) eqn:Hs; [|reflexivity].
    exfalso. revert Hs. apply strip_not_nil. reflexivity.
Qed.


(** X11: [get_genie_health_status] reports an error only when the agent
    answers the probe with a text that is not empty and holds blanks only;
    when the agent raises, or answers with no content at all, the status is
    healthy. *)
Theorem health_status_by_reply (agent : Agent) :
  (GenieDatabricks.get_genie_health_status agent
   = if blank_reply (agent probe) then L "error: No response from Genie"
     else L "healthy")
  /\ (forall e, agent probe = Raise e ->
        GenieDatabricks.get_genie_health_status agent = L "healthy")
  /\ (forall result, agent probe = Ok result ->
        GenieDatabricks.content_of result = [] ->
        GenieDatabricks.get_genie_health_status agent = L "healthy").
Proof.
  split; [apply health_by_reply|].
  split.
  - intros e He. rewrite health_by_reply, He. reflexivity.
  - intros result Hr Hc. rewrite health_by_reply, Hr. unfold blank_reply.
    rewrite Hc. reflexivity.
Qed.

Lemma scan_skipped (after : list Message) : forall rest,
  forallb skipped after = true ->
  GenieDatabricks.scan_messages (rev after ++ rest) = GenieDatabricks.scan_messages rest.
Proof.
  induction after as [|m after IH]; intros rest H; [reflexivity|].
  simpl in H. apply andb_true_iff in H. destruct H as [Hm Hafter].
  simpl rev. rewrite <- app_assoc. rewrite IH by exact Hafter.
  simpl. destruct m as [role content|[c|]]; simpl in Hm.
  - apply negb_true_iff in Hm. rewrite Hm. reflexivity.
  - discriminate Hm.
  - reflexivity.
Qed.

(** X12: the response text is taken from the last message that the scan
    does not pass over, an assistant dict with content or an object with a
    [content] attribute, whatever comes before it; when the scan passes
    over every message, the text is empty. *)
Theorem last_answering_message_wins (before after : list Message) (msg : Message) :
  forallb skipped after = true ->
  (skipped msg = false ->
   GenieDatabricks.content_of (DictResult (Some (before ++ msg :: after)))
   = message_content msg)
  /\ GenieDatabricks.content_of (DictResult (Some after)) = [].
Proof.
  intro Hafter. split.
  - intro Hmsg. unfold GenieDatabricks.content_of.
    rewrite rev_app_distr. simpl rev. rewrite <- app_assoc.
    rewrite scan_skipped by exact Hafter. simpl.
    destruct msg as [role content|[c|]]; simpl in Hmsg.
    + apply negb_false_iff in Hmsg. rewrite Hmsg.
      apply andb_true_iff in Hmsg. destruct Hmsg as [_ Ht].
      destruct content; [reflexivity|discriminate Ht].
    + reflexivity.
    + discriminate Hmsg.
  - unfold GenieDatabricks.content_of.
    rewrite <- (app_nil_r (rev after)). rewrite scan_skipped by exact Hafter.
    reflexivity.
Qed.

Lemma last_answering_message_wins_witness :
  GenieDatabricks.content_of answered_then_asked = L "Sales are up.".
Proof.
  exact (proj1 (last_answering_message_wins
                  [DictMessage (Some (L "user")) (Some (L "Hi"))]
                  [DictMessage (Some (L "user")) (Some (L "Thanks"))]
                  (DictMessage (Some (L "assistant")) (Some (L "Sales are up.")))
                  eq_refl) eq_refl).
Defined.

(** X13: the Databricks client module passes its environment check
    exactly when GENIE_SPACE_ID and LLM_ENDPOINT_NAME are set and not
    empty; the local client module passes its checks exactly when DB_HOST
    and DB_PAT are set and not empty as well. *)
Theorem environment_checks (env : str -> option str) :
  (GenieDatabricks.environment_error env = None
   <-> is_set env "GENIE_SPACE_ID" /\ is_set env "LLM_ENDPOINT_NAME")
  /\ (GenieLocal.environment_error env = None
      <-> is_set env "DB_HOST" /\ is_set env "DB_PAT"
          /\ is_set env "GENIE_SPACE_ID" /\ is_set env "LLM_ENDPOINT_NAME").
Proof.
  unfold GenieDatabricks.environment_error, GenieLocal.environment_error,
    GenieDatabricks._missing, GenieLocal._missing, GenieLocal.has_pat_auth, is_set.
  change GenieLocal.truthy with GenieDatabricks.truthy.
  cbn [filter snd fst map].
  destruct (GenieDatabricks.truthy (env (L "GENIE_SPACE_ID")));
    destruct (GenieDatabricks.truthy (env (L "LLM_ENDPOINT_NAME")));
    destruct (GenieDatabricks.truthy (env (L "DB_HOST")));
    destruct (GenieDatabricks.truthy (env (L "DB_PAT")));
    cbn [negb andb map fst filter snd];
    (split; (split; [ intro H; try discriminate H; repeat split; reflexivity
                     | intro H; try reflexivity; exfalso;
                       decompose [and] H; discriminate ])).
Qed.

End ServiceFacts.

Module AppFacts.
Import Py Re Pandas Langchain ServiceSpec ServiceFacts.













End AppFacts.

(** * More on the SQL extractor *)

Module ExtractionFacts.
Import Py Re GenieDatabricks SqlSpec ExtractionSpec SqlFacts.

(** X17: the SQL that [extract_sql_from_text] returns has no blank at
    either end: stripping it again changes nothing. *)
Theorem extracted_sql_is_stripped (text : str) :
  strip (extract_sql_from_text text) = extract_sql_from_text text.
Proof.
  unfold extract_sql_from_text. generalize sql_patterns. intro patterns.
  induction patterns as [|p rest IH]; [reflexivity|].
  cbn [first_match]. destruct (findall p text) as [|match0 tl]; [exact IH|].
  apply strip_strip.
Qed.

(** ** Where no pattern can begin *)

Lemma occurs_ci_cons (p : str) (c : ascii) (t : str) :
  occurs_ci p (c :: t) = false -> startswith_ci p (c :: t) = false /\ occurs_ci p t = false.
Proof.
  intro H. change (startswith_ci p (c :: t) || occurs_ci p t = false) in H.
  apply orb_false_iff in H. exact H.
Qed.

Lemma occurs_ci_here (p s : str) : occurs_ci p s = false -> startswith_ci p s = false.
Proof.
  destruct s as [|c t]; intro H.
  - simpl in H. rewrite orb_false_r in H. exact H.
  - apply occurs_ci_cons in H. tauto.
Qed.

Lemma search_from_none (r : re) (p : str) :
  (forall pos s, startswith_ci p s = false -> match_here r pos s = None) ->
  forall s pos, occurs_ci p s = false -> search_from r pos s = None.
Proof.
  intro Hr. induction s as [|c t IH]; intros pos H.
  - simpl. rewrite Hr; [reflexivity|]. apply occurs_ci_here. exact H.
  - apply occurs_ci_cons in H. destruct H as [H1 H2].
    change (search_from r pos (c :: t))
      with (match match_here r pos (c :: t) with
            | Some x => Some x
            | None => search_from r (S pos) t
            end).
    rewrite (Hr _ _ H1). apply IH. exact H2.
Qed.

Lemma starts_with_lit (p : str) (r : re) (pos : nat) (s : str) :
  startswith_ci p s = false -> match_here (Seq (lit p) r) pos s = None.
Proof.
  intro H. unfold match_here. rewrite m_seq, m_lit, H. reflexivity.
Qed.

Lemma starts_with_lit_grp (p : str) (r : re) (pos : nat) (s : str) :
  startswith_ci p s = false -> match_here (Grp (Seq (lit p) r)) pos s = None.
Proof.
  intro H. unfold match_here. rewrite m_grp, m_seq, m_lit, H. reflexivity.
Qed.

Lemma startswith_ci_prefix (p q s : str) :
  startswith_ci (p ++ q) s = true -> startswith_ci p s = true.
Proof.
  revert s. induction p as [|x p IH]; intros s H; [reflexivity|].
  destruct s as [|y s]; simpl in *; [discriminate|].
  apply andb_true_iff in H. destruct H as [H1 H2].
  rewrite H1. simpl. apply IH. exact H2.
Qed.

Lemma occurs_ci_prefix (p q s : str) :
  occurs_ci p s = false -> occurs_ci (p ++ q) s = false.
Proof.
  induction s as [|c t IH]; intro H.
  - apply occurs_ci_here in H. simpl. rewrite orb_false_r.
    destruct (startswith_ci (p ++ q) []) eqn:E; [|reflexivity].
    apply startswith_ci_prefix in E. congruence.
  - apply occurs_ci_cons in H. destruct H as [H1 H2].
    change (startswith_ci (p ++ q) (c :: t) || occurs_ci (p ++ q) t = false).
    rewrite (IH H2), orb_false_r.
    destruct (startswith_ci (p ++ q) (c :: t)) eqn:E; [|reflexivity].
    apply startswith_ci_prefix in E. congruence.
Qed.

Lemma no_fence_no_block (text : str) :
  occurs_ci fence text = false ->
  search_from sql_block 0 text = None /\ search_from code_block 0 text = None.
Proof.
  intro H. split.
  - apply (search_from_none sql_block (L "```sql")).
    + intros pos s Hs. apply match_sql_block_none. exact Hs.
    + apply (occurs_ci_prefix fence (L "sql")). exact H.
  - apply (search_from_none code_block fence); [|exact H].
    intros pos s Hs. apply starts_with_lit. exact Hs.
Qed.

Lemma no_keyword_no_statement (kw : str) (r : re) (text : str) :
  occurs_ci kw text = false -> search_from (Grp (Seq (lit kw) r)) 0 text = None.
Proof.
  intro H. apply (search_from_none _ kw); [|exact H].
  intros pos s Hs. apply starts_with_lit_grp. exact Hs.
Qed.

(** X18: on a text that holds neither three backticks in a row nor one
    of the words SELECT, INSERT, UPDATE and DELETE, in any case of
    letters, [extract_sql_from_text] returns the empty string. *)
Theorem no_sql_without_fence_or_keyword (text : str) :
  mentions_sql text = false -> extract_sql_from_text text = [].
Proof.
  unfold mentions_sql. intro H.
  repeat (apply orb_false_iff in H; destruct H as [H ?]).
  destruct (no_fence_no_block text H) as [Hb1 Hb2].
  unfold extract_sql_from_text, sql_patterns.
  rewrite first_match_search, Hb1, first_match_search, Hb2.
  rewrite first_match_search.
  unfold inline_select at 1. cbn [cat]. rewrite no_keyword_no_statement by assumption.
  rewrite first_match_search.
  unfold inline_insert at 1. cbn [cat]. rewrite no_keyword_no_statement by assumption.
  rewrite first_match_search.
  unfold inline_update at 1. cbn [cat]. rewrite no_keyword_no_statement by assumption.
  rewrite first_match_search.
  unfold inline_delete at 1. cbn [cat]. rewrite no_keyword_no_statement by assumption.
  reflexivity.
Qed.

Lemma no_sql_without_fence_or_keyword_witness :
  extract_sql_from_text (L "Sales rose by 5% against plan.") = [].
Proof.
  exact (no_sql_without_fence_or_keyword (L "Sales rose by 5% against plan.") eq_refl).
Defined.

(** ** What a match is made of *)

Lemma end_of_refl (s : str) : end_of s s.
Proof. exists []. reflexivity. Qed.

Lemma end_of_trans (a b c : str) : end_of a b -> end_of b c -> end_of a c.
Proof. intros [x ->] [y ->]. exists (y ++ x). rewrite app_assoc. reflexivity. Qed.

Lemma end_of_tail (c : ascii) (t : str) : end_of t (c :: t).
Proof. exists [c]. reflexivity. Qed.

Section Pieces.
Variable A : Type.
Variable text : str.

Lemma star_greedy_end (p : ascii -> bool) (k : nat -> str -> option A) (x : A) :
  forall s pos, star_greedy p pos s k = Some x ->
  exists pos' s', end_of s' s /\ k pos' s' = Some x.
Proof.
  induction s as [|c t IH]; intros pos H; simpl in H.
  - exists pos, []. split; [apply end_of_refl|exact H].
  - destruct (p c).
    + destruct (star_greedy p (S pos) t k) as [y|] eqn:E; simpl in H.
      * injection H as ->. destruct (IH _ E) as (pos' & s' & Hs & Hk).
        exists pos', s'. split; [|exact Hk].
        apply (end_of_trans _ t); [exact Hs|apply end_of_tail].
      * exists pos, (c :: t). split; [apply end_of_refl|exact H].
    + exists pos, (c :: t). split; [apply end_of_refl|exact H].
Qed.

Lemma star_lazy_end (p : ascii -> bool) (k : nat -> str -> option A) (x : A) :
  forall s pos, star_lazy p pos s k = Some x ->
  exists pos' s', end_of s' s /\ k pos' s' = Some x.
Proof.
  induction s as [|c t IH]; intros pos H; simpl in H.
  - destruct (k pos []) eqn:E; simpl in H; [|discriminate H].
    injection H as ->. exists pos, []. split; [apply end_of_refl|exact E].
  - destruct (k pos (c :: t)) eqn:E; simpl in H.
    + injection H as ->. exists pos, (c :: t). split; [apply end_of_refl|exact E].
    + destruct (p c); [|discriminate H].
      destruct (IH _ H) as (pos' & s' & Hs & Hk).
      exists pos', s'. split; [|exact Hk].
      apply (end_of_trans _ t); [exact Hs|apply end_of_tail].
Qed.

Lemma group_piece (s s' : str) :
  end_of s text -> end_of s' s ->
  piece_of (firstn (List.length s - List.length s') s) text.
Proof.
  intros [b ->] [a ->]. exists b, s'.
  rewrite length_app. replace (List.length a + List.length s' - List.length s')
    with (List.length a + 0) by lia.
  rewrite firstn_app_2. simpl. rewrite app_nil_r. reflexivity.
Qed.

(** The continuation of a match is reached at an end of the text that is
    left, with a group text that is a piece of the whole text. *)
Lemma m_end (r : re) : forall pos s g (k : cont A) x,
  end_of s text -> group_in text g ->
  m r pos s g k = Some x ->
  exists pos' s' g', end_of s' s /\ group_in text g' /\ k pos' s' g' = Some x.
Proof.
  induction r as [|p|r1 IH1 r2 IH2|r1 IH1 r2 IH2|greedy p|r1 IH1| |];
    intros pos s g k x Hs Hg H.
  - exists pos, s, g. split; [apply end_of_refl|]. split; [exact Hg|exact H].
  - simpl in H. destruct s as [|c t]; [discriminate H|].
    destruct (p c); [|discriminate H].
    exists (S pos), t, g. split; [apply end_of_tail|]. split; [exact Hg|exact H].
  - rewrite m_seq in H.
    destruct (IH1 _ _ _ _ _ Hs Hg H) as (pos1 & s1 & g1 & Hs1 & Hg1 & H1).
    destruct (IH2 _ _ _ _ _ (end_of_trans _ _ _ Hs1 Hs) Hg1 H1)
      as (pos2 & s2 & g2 & Hs2 & Hg2 & H2).
    exists pos2, s2, g2. split; [|split; assumption].
    apply (end_of_trans _ s1); assumption.
  - simpl in H. destruct (m r1 pos s g k) as [y|] eqn:E; simpl in H.
    + injection H as ->. apply (IH1 _ _ _ _ _ Hs Hg E).
    + apply (IH2 _ _ _ _ _ Hs Hg H).
  - destruct greedy.
    + rewrite m_star_greedy in H. apply star_greedy_end in H.
      destruct H as (pos' & s' & Hs' & Hk). exists pos', s', g. tauto.
    + rewrite m_star_lazy in H. apply star_lazy_end in H.
      destruct H as (pos' & s' & Hs' & Hk). exists pos', s', g. tauto.
  - rewrite m_grp in H.
    destruct (IH1 _ _ _ _ _ Hs Hg H) as (pos1 & s1 & g1 & Hs1 & Hg1 & H1).
    exists pos1, s1, (Some (firstn (List.length s - List.length s1) s)).
    split; [exact Hs1|]. split; [|exact H1].
    apply group_piece; assumption.
  - simpl in H. destruct (pos =? 0); [|discriminate H].
    exists pos, s, g. split; [apply end_of_refl|]. split; [exact Hg|exact H].
  - simpl in H. exists pos, s, g. split; [apply end_of_refl|]. split; [exact Hg|].
    destruct s as [|c [|d t]]; try discriminate H; [exact H|].
    destruct (chr_eqb c LF); [exact H|discriminate H].
Qed.

End Pieces.

Lemma piece_of_nil (text : str) : piece_of [] text.
Proof. exists [], text. reflexivity. Qed.

Lemma match_here_piece (text : str) (r : re) (pos : nat) (s g s' : str) :
  end_of s text -> match_here r pos s = Some (g, s') -> piece_of g text.
Proof.
  intros Hs H. unfold match_here in H.
  apply (m_end _ text) in H; [|exact Hs|exact I].
  destruct H as (pos' & s1 & g' & _ & Hg & H).
  injection H as <- _. destruct g'; [exact Hg|apply piece_of_nil].
Qed.

Lemma search_from_piece (text : str) (r : re) (g s' : str) : forall s pos,
  end_of s text -> search_from r pos s = Some (g, s') -> piece_of g text.
Proof.
  induction s as [|c t IH]; intros pos Hs H.
  - simpl in H. destruct (match_here r pos []) as [x|] eqn:E; [|discriminate H].
    injection H as ->. apply (match_here_piece _ _ _ _ _ _ Hs E).
  - change (search_from r pos (c :: t))
      with (match match_here r pos (c :: t) with
            | Some x => Some x
            | None => search_from r (S pos) t
            end) in H.
    destruct (match_here r pos (c :: t)) as [x|] eqn:E.
    + injection H as ->. apply (match_here_piece _ _ _ _ _ _ Hs E).
    + apply (IH _ (end_of_trans _ _ _ (end_of_tail c t) Hs) H).
Qed.

Lemma lstrip_end (p : ascii -> bool) (s : str) : end_of (lstrip_by p s) s.
Proof.
  induction s as [|c t IH]; simpl; [apply end_of_refl|].
  destruct (p c); [|apply end_of_refl].
  apply (end_of_trans _ t); [exact IH|apply end_of_tail].
Qed.

Lemma strip_piece (g text : str) : piece_of g text -> piece_of (strip g) text.
Proof.
  intros (a & b & ->). unfold strip, strip_by.
  destruct (lstrip_end isspace g) as [u Hu].
  set (v := lstrip_by isspace g) in *.
  pose proof (rstrip_prefix isspace v) as Hp.
  pose proof (firstn_skipn (List.length (rstrip_by isspace v)) v) as Hv.
  rewrite Hp in Hv.
  exists (a ++ u), (skipn (List.length (rstrip_by isspace v)) v ++ b).
  rewrite Hu, <- Hv at 1. rewrite <- !app_assoc. reflexivity.
Qed.

(** X19: the SQL that [extract_sql_from_text] returns is a contiguous
    piece of the text it was given: the extractor adds and changes no
    character. *)
Theorem extracted_sql_is_piece_of_text (text : str) :
  piece_of (extract_sql_from_text text) text.
Proof.
  unfold extract_sql_from_text. generalize sql_patterns. intro patterns.
  induction patterns as [|p rest IH]; [apply piece_of_nil|].
  rewrite first_match_search.
  destruct (search_from p 0 text) as [[g s']|] eqn:E; [|exact IH].
  apply strip_piece. apply (search_from_piece text p g s' text 0); [|exact E].
  apply end_of_refl.
Qed.

(** X20: the notebook carries three of the six patterns.  Whenever the
    notebook's extractor finds SQL in a text, the backend's extractor
    returns the same SQL; and whenever the backend's finds none, so does
    the notebook's. *)
Theorem notebook_sql_agrees (text : str) :
  (Notebook.extract_sql_from_text text <> [] ->
   extract_sql_from_text text = Notebook.extract_sql_from_text text)
  /\ (extract_sql_from_text text = [] -> Notebook.extract_sql_from_text text = []).
Proof.
  unfold Notebook.extract_sql_from_text, extract_sql_from_text,
    Notebook.sql_patterns, sql_patterns.
  change Notebook.sql_block with sql_block.
  change Notebook.code_block with code_block.
  change Notebook.inline_select with inline_select.
  cbn [Notebook.first_match first_match].
  destruct (findall sql_block text); [|split; [reflexivity|tauto]].
  destruct (findall code_block text); [|split; [reflexivity|tauto]].
  destruct (findall inline_select text); [|split; [reflexivity|tauto]].
  split; [intro H; congruence|reflexivity].
Qed.

(** ** An inline SELECT statement *)

Lemma m_chr (A : Type) p pos c t g (k : cont A) :
  m (Chr p) pos (c :: t) g k = if p c then k (S pos) t g else None.
Proof. reflexivity. Qed.

Lemma m_alt (A : Type) r1 r2 pos s g (k : cont A) :
  m (Alt r1 r2) pos s g k = orelse (m r1 pos s g k) (m r2 pos s g k).
Proof. reflexivity. Qed.

Lemma m_eol_long (A : Type) pos c d t g (k : cont A) :
  m Eol pos (c :: d :: t) g k = None.
Proof. reflexivity. Qed.

Lemma m_chr_semicolon (A : Type) pos t g (k : cont A) :
  m (Chr (ci ";"%char)) pos (SEMICOLON :: t) g k = k (S pos) t g.
Proof. reflexivity. Qed.

Lemma ci_semicolon (y : ascii) : ci ";"%char y = chr_eqb SEMICOLON y.
Proof.
  destruct y as [[] [] [] [] [] [] [] []]; reflexivity.
Qed.

Lemma star_lazy_stop (A : Type) (k : nat -> str -> option A) (stop : str) :
  forall body pos,
    (forall a c t pos', body = a ++ c :: t -> k pos' (c :: t ++ stop) = None) ->
    star_lazy any pos (body ++ stop) k = star_lazy any (pos + List.length body) stop k.
Proof.
  induction body as [|c t IH]; intros pos H.
  - simpl. rewrite Nat.add_0_r. reflexivity.
  - change (star_lazy any pos ((c :: t) ++ stop) k)
      with (orelse (k pos (c :: t ++ stop)) (star_lazy any (S pos) (t ++ stop) k)).
    rewrite (H [] c t pos eq_refl). cbn [orelse].
    rewrite IH.
    + simpl List.length. rewrite Nat.add_succ_r. reflexivity.
    + intros a c' t' pos' E. apply (H (c :: a) c' t' pos'). rewrite E. reflexivity.
Qed.

Lemma contains_chr_lstrip (x : ascii) (p : ascii -> bool) (s : str) :
  contains_chr x s = false -> contains_chr x (lstrip_by p s) = false.
Proof.
  induction s as [|c t IH]; intro H; [reflexivity|].
  simpl. destruct (p c); [|exact H].
  apply IH. unfold contains_chr in *. simpl in H. apply orb_false_iff in H. tauto.
Qed.

Lemma contains_chr_split (x : ascii) (a : str) (c : ascii) (t : str) :
  contains_chr x (a ++ c :: t) = false -> chr_eqb x c = false.
Proof.
  unfold contains_chr. rewrite existsb_app. simpl. intro H.
  apply orb_false_iff in H. destruct H as [_ H].
  apply orb_false_iff in H. tauto.
Qed.

Lemma firstn_but (a b : str) :
  firstn (List.length (a ++ b) - List.length b) (a ++ b) = a.
Proof.
  rewrite length_app.
  replace (List.length a + List.length b - List.length b) with (List.length a + 0) by lia.
  rewrite firstn_app_2. simpl. apply app_nil_r.
Qed.

Lemma match_inline_select (kw : str) (w : ascii) (body post : str) (pos : nat) :
  ci_equal kw (L "SELECT") = true -> isspace w = true ->
  contains_chr SEMICOLON body = false ->
  match_here inline_select pos (kw ++ w :: body ++ SEMICOLON :: post)
  = Some (kw ++ w :: body ++ [SEMICOLON], post).
Proof.
  intros Hkw Hw Hbody. unfold match_here, inline_select. cbn [cat]. unfold plus.
  set (whole := kw ++ w :: body ++ SEMICOLON :: post).
  rewrite m_grp, m_seq, m_lit. unfold whole at 1 2.
  destruct (startswith_ci_app _ _ (w :: body ++ SEMICOLON :: post) Hkw) as [-> ->].
  rewrite m_seq, m_seq, m_chr, Hw, m_star_greedy.
  apply star_greedy_success.
  rewrite lstrip_app_stop by reflexivity.
  set (b := lstrip_by isspace body).
  assert (Hb : contains_chr SEMICOLON b = false)
    by (apply contains_chr_lstrip; exact Hbody).
  rewrite m_seq, m_star_lazy.
  rewrite star_lazy_stop.
  - change (star_lazy any ?p (SEMICOLON :: post) ?k)
      with (orelse (k p (SEMICOLON :: post)) (star_lazy any (S p) post k)).
    cbv beta. rewrite m_seq, m_alt, m_chr_semicolon.
    rewrite m_eps. cbn [orelse].
    f_equal. f_equal.
    replace whole with ((kw ++ w :: body ++ [SEMICOLON]) ++ post).
    + apply firstn_but.
    + unfold whole. rewrite <- app_assoc. simpl. rewrite <- app_assoc. reflexivity.
  - intros a c t pos' E. cbv beta.
    rewrite m_seq, m_alt, m_chr, ci_semicolon.
    rewrite E in Hb. rewrite (contains_chr_split _ _ _ _ Hb).
    destruct t as [|d t]; reflexivity.
Qed.

Lemma none_starts_suffix (p pre rest a b : str) :
  none_starts_in p pre rest = true -> pre = a ++ b -> b <> [] ->
  startswith_ci p (b ++ rest) = false.
Proof.
  revert pre. induction a as [|c a IH]; intros pre H E Hb; simpl in E; subst pre.
  - destruct b as [|c b]; [congruence|].
    simpl in H. apply andb_true_iff in H. destruct H as [H _].
    apply negb_true_iff in H. exact H.
  - simpl in H. apply andb_true_iff in H. destruct H as [_ H].
    apply (IH (a ++ b) H eq_refl Hb).
Qed.

Lemma keyword_not_blank (kw : str) :
  ci_equal kw (L "SELECT") = true ->
  exists c kw', kw = c :: kw' /\ isspace c = false.
Proof.
  destruct kw as [|c kw']; [discriminate|].
  intro H. exists c, kw'. split; [reflexivity|].
  simpl in H. apply andb_true_iff in H. destruct H as [H _].
  revert H. destruct c as [[] [] [] [] [] [] [] []]; vm_compute; congruence.
Qed.

Lemma rstrip_keeps (p : ascii -> bool) (d : ascii) (s : str) :
  p d = false -> rstrip_by p (s ++ [d]) = s ++ [d].
Proof.
  intro Hd. induction s as [|c t IH]; simpl.
  - rewrite Hd. reflexivity.
  - rewrite IH. destruct (t ++ [d]) eqn:E; [|reflexivity].
    destruct t; discriminate E.
Qed.

Lemma strip_keeps (c d : ascii) (s : str) :
  isspace c = false -> isspace d = false -> strip (c :: s ++ [d]) = c :: s ++ [d].
Proof.
  intros Hc Hd. unfold strip, strip_by. simpl lstrip_by. rewrite Hc.
  apply (rstrip_keeps isspace d (c :: s) Hd).
Qed.

(** X21: in a text without three backticks in a row, where the first
    SELECT, in any case of letters, is followed by a blank, the extractor
    returns the text from that SELECT up to and including the first
    semicolon after it; what follows the semicolon is left out. *)
Theorem inline_select_to_first_semicolon (pre kw : str) (w : ascii) (body post : str) :
  occurs_ci fence (pre ++ kw ++ w :: body ++ SEMICOLON :: post) = false ->
  none_starts_in (L "SELECT") pre (kw ++ w :: body ++ SEMICOLON :: post) = true ->
  ci_equal kw (L "SELECT") = true -> isspace w = true ->
  contains_chr SEMICOLON body = false ->
  extract_sql_from_text (pre ++ kw ++ w :: body ++ SEMICOLON :: post)
  = kw ++ w :: body ++ [SEMICOLON].
Proof.
  intros Hfence Hpre Hkw Hw Hbody.
  destruct (no_fence_no_block _ Hfence) as [Hb1 Hb2].
  unfold extract_sql_from_text, sql_patterns.
  rewrite first_match_search, Hb1, first_match_search, Hb2, first_match_search.
  rewrite search_skips.
  - rewrite (search_from_hit _ _ _ _ (match_inline_select kw w body post _ Hkw Hw Hbody)).
    destruct (keyword_not_blank kw Hkw) as (c & kw' & -> & Hc).
    replace ((c :: kw') ++ w :: body ++ [SEMICOLON])
      with (c :: (kw' ++ w :: body) ++ [SEMICOLON])
      by (simpl; rewrite <- app_assoc; reflexivity).
    apply strip_keeps; [exact Hc|reflexivity].
  - intros pos a b E Hne. unfold inline_select. cbn [cat].
    apply starts_with_lit_grp.
    apply (none_starts_suffix _ _ _ _ _ Hpre E Hne).
Qed.

Lemma inline_select_to_first_semicolon_witness :
  extract_sql_from_text
    (L "I ran " ++ L "select" ++ " "%char :: L "a, b from t" ++ SEMICOLON :: L " and it worked.")
  = L "select" ++ " "%char :: L "a, b from t" ++ [SEMICOLON].
Proof.
  exact (inline_select_to_first_semicolon (L "I ran ") (L "select") " "%char
           (L "a, b from t") (L " and it worked.") eq_refl eq_refl eq_refl eq_refl
           eq_refl).
Defined.

End ExtractionFacts.

(** * More on the table extractor *)

Module FrameFacts.
Import Py Re Pandas GenieDatabricks TableSpec FrameSpec TableFacts.

(** ** The scan of the lines *)

Lemma count_lstrip (x : ascii) (p : ascii -> bool) (s : str) :
  count x (lstrip_by p s) <= count x s.
Proof.
  unfold count. induction s as [|c t IH]; simpl; [lia|].
  destruct (p c); simpl; destruct (chr_eqb x c); simpl; lia.
Qed.

Lemma count_rstrip (x : ascii) (p : ascii -> bool) (s : str) :
  count x (rstrip_by p s) <= count x s.
Proof.
  unfold count. induction s as [|c t IH]; simpl; [lia|].
  destruct (rstrip_by p t) as [|d r].
  - destruct (p c); simpl; destruct (chr_eqb x c); simpl; lia.
  - simpl in *. destruct (chr_eqb x c); simpl; lia.
Qed.

Lemma count_strip (x : ascii) (s : str) : count x (strip s) <= count x s.
Proof.
  unfold strip, strip_by.
  pose proof (count_rstrip x isspace (lstrip_by isspace s)).
  pose proof (count_lstrip x isspace s). lia.
Qed.

Lemma contains_chr_count (x : ascii) (s : str) :
  contains_chr x s = false <-> count x s = 0.
Proof.
  unfold contains_chr, count. induction s as [|c t IH]; simpl; [tauto|].
  destruct (chr_eqb x c); simpl; [split; [discriminate|lia]|exact IH].
Qed.

Lemma collect_no_row (lines : list str) : forall acc,
  Forall (fun line => count PIPE line < 2) lines ->
  collect_table_lines lines acc false = acc.
Proof.
  induction lines as [|line rest IH]; intros acc H; [reflexivity|].
  inversion H as [|? ? Hline Hrest]; subst.
  cbn [collect_table_lines]. cbv zeta.
  pose proof (count_strip PIPE line) as Hc.
  assert (E : (2 <=? count PIPE (strip line)) = false) by (apply Nat.leb_gt; lia).
  rewrite E, andb_false_r. cbn [andb]. apply IH. exact Hrest.
Qed.

(** X22: a text in which no line has two pipe characters holds no table:
    [extract_data_from_text] returns the empty frame. *)
Theorem no_table_without_two_pipes (text : str) :
  Forall (fun line => count PIPE line < 2) (split LF text) ->
  extract_data_from_text text = empty_frame.
Proof.
  intro H. unfold extract_data_from_text.
  rewrite (collect_no_row _ [] H). reflexivity.
Qed.

Lemma no_table_without_two_pipes_witness :
  extract_data_from_text (L "Sales | up" ++ LF :: L "Costs | down") = empty_frame.
Proof.
  apply no_table_without_two_pipes.
  repeat constructor.
Defined.

Lemma collect_invariant (P : str -> Prop) (lines : list str) : forall acc b,
  Forall P acc ->
  (forall line, In line lines -> table_row (strip line) = true ->
                re_match separator_pattern (strip line) = false -> P (strip line)) ->
  Forall P (collect_table_lines lines acc b).
Proof.
  induction lines as [|line rest IH]; intros acc b Hacc H; [exact Hacc|].
  cbn [collect_table_lines]. cbv zeta.
  fold (table_row (strip line)).
  destruct (table_row (strip line)) eqn:Erow.
  - destruct (re_match separator_pattern (strip line)) eqn:Esep; cbn [negb].
    + apply IH; [exact Hacc|]. intros l Hl. apply H. right. exact Hl.
    + apply IH.
      * apply Forall_app. split; [exact Hacc|].
        constructor; [|constructor]. apply H; [left; reflexivity|exact Erow|exact Esep].
      * intros l Hl. apply H. right. exact Hl.
  - destruct (b && str_eqb (strip line) []); [exact Hacc|].
    destruct (b && negb (contains_chr PIPE (strip line))); [exact Hacc|].
    apply IH; [exact Hacc|]. intros l Hl. apply H. right. exact Hl.
Qed.

(** X23: every line that the scan collects is a line of the text with the
    blanks at its ends removed; it has at least two pipe characters and is
    not a separator line. *)
Theorem collected_lines_are_rows (text : str) :
  Forall (fun line =>
            (exists raw, In raw (split LF text) /\ line = strip raw)
            /\ strip line = line
            /\ 2 <= count PIPE line
            /\ re_match separator_pattern line = false)
         (table_lines text).
Proof.
  unfold table_lines. apply collect_invariant; [constructor|].
  intros line Hin Hrow Hsep.
  split; [exists line; tauto|]. split; [apply SqlFacts.strip_strip|].
  split; [|exact Hsep].
  unfold table_row in Hrow. apply andb_true_iff in Hrow. destruct Hrow as [_ Hrow].
  apply Nat.leb_le in Hrow. exact Hrow.
Qed.

(** ** Where the scan ends *)

Lemma split_app (sep : ascii) (a b : str) :
  split sep (a ++ sep :: b) = split sep a ++ split sep b.
Proof.
  induction a as [|c a IH]; simpl.
  - assert (E : chr_eqb sep sep = true) by (unfold chr_eqb; apply Ascii.eqb_refl).
    rewrite E. reflexivity.
  - destruct (chr_eqb c sep); [rewrite IH; reflexivity|].
    rewrite IH. pose proof (split_not_nil sep a) as Hn.
    destruct (split sep a) as [|w ws]; [congruence|reflexivity].
Qed.

Lemma split_one (sep : ascii) (s : str) :
  contains_chr sep s = false -> split sep s = [s].
Proof.
  unfold contains_chr. induction s as [|c t IH]; simpl; [reflexivity|].
  intro H. apply orb_false_iff in H. destruct H as [Hc Ht].
  assert (E : chr_eqb c sep = false).
  { unfold chr_eqb in *. rewrite Ascii.eqb_sym. exact Hc. }
  rewrite E, (IH Ht). reflexivity.
Qed.

Lemma collect_stop (ls1 : list str) (stop : str) (ls2 : list str) : forall acc b,
  b = true \/ existsb (fun line => table_row (strip line)) ls1 = true ->
  contains_chr PIPE (strip stop) = false ->
  collect_table_lines (ls1 ++ stop :: ls2) acc b = collect_table_lines ls1 acc b.
Proof.
  induction ls1 as [|line rest IH]; intros acc b Hb Hstop.
  - destruct Hb as [->|Hb]; [|discriminate Hb].
    cbn [app collect_table_lines]. cbv zeta.
    rewrite Hstop. cbn [andb negb].
    destruct (str_eqb (strip stop) []); reflexivity.
  - cbn [app collect_table_lines]. cbv zeta.
    fold (table_row (strip line)).
    destruct (table_row (strip line)) eqn:Erow.
    + destruct (negb (re_match separator_pattern (strip line)));
        apply IH; try exact Hstop; left; reflexivity.
    + destruct (b && str_eqb (strip line) []); [reflexivity|].
      destruct (b && negb (contains_chr PIPE (strip line))); [reflexivity|].
      apply IH; [|exact Hstop].
      destruct Hb as [Hb|Hb]; [left; exact Hb|right].
      cbn [existsb] in Hb. rewrite Erow in Hb. exact Hb.
Qed.

Lemma contains_chr_strip (x : ascii) (s : str) :
  contains_chr x s = false -> contains_chr x (strip s) = false.
Proof.
  rewrite !contains_chr_count. pose proof (count_strip x s). lia.
Qed.

(** X24: the scan ends at the first line without a pipe that follows a
    line of a table: whatever the text holds after that line, a second
    table included, is not read. *)
Theorem text_after_table_ignored (head stop rest : str) :
  has_table_row head = true ->
  contains_chr LF stop = false -> contains_chr PIPE stop = false ->
  extract_data_from_text (head ++ LF :: stop ++ LF :: rest)
  = extract_data_from_text head.
Proof.
  intros Hhead Hlf Hpipe. unfold extract_data_from_text.
  rewrite split_app, split_app, (split_one _ _ Hlf). cbn [app].
  rewrite collect_stop.
  - reflexivity.
  - right. exact Hhead.
  - apply contains_chr_strip. exact Hpipe.
Qed.

Lemma text_after_table_ignored_witness :
  extract_data_from_text
    (two_tables_head ++ LF :: [] ++ LF :: L "| Store | Costs |" ++ LF :: L "| Airport | 7 |")
  = extract_data_from_text two_tables_head.
Proof.
  exact (text_after_table_ignored two_tables_head []
           (L "| Store | Costs |" ++ LF :: L "| Airport | 7 |") eq_refl eq_refl eq_refl).
Defined.

(** ** The tokenizer on rows of one length *)

Lemma add_lines_same (n : nat) (rows : list (list str)) : forall ls,
  (forall prev rest, ls = prev :: rest -> List.length prev = n) ->
  Forall (fun r => List.length r = n) rows ->
  add_lines ls rows = Ok (rev rows ++ ls).
Proof.
  induction rows as [|r rows IH]; intros ls Hls H; [reflexivity|].
  inversion H as [|? ? Hr Hrows]; subst.
  cbn [add_lines]. unfold add_line.
  destruct ls as [|prev rest].
  - cbn [bind]. rewrite IH; [|intros p q E; injection E as <- _; reflexivity|exact Hrows].
    cbn [rev]. rewrite <- app_assoc. reflexivity.
  - rewrite (Hls prev rest eq_refl), Nat.ltb_irrefl, andb_false_r, Nat.sub_diag.
    cbn [repeat bind]. rewrite app_nil_r.
    rewrite IH; [|intros p q E; injection E as <- _; reflexivity|exact Hrows].
    cbn [rev]. rewrite <- app_assoc. reflexivity.
Qed.

(** X25: the CSV text that [extract_data_from_text] writes for the lines
    it has collected is read back by the tokenizer of [read_csv] cell by
    cell: when the rows have one length and no cell holds a double quote
    or a NUL character, the words are the cells, commas inside the cells
    included. *)
Theorem tokenizer_round_trip (text : str) (n : nat) :
  table_lines text <> [] ->
  Forall (fun x => List.length x = n) (table_cells text) ->
  Forall (Forall (fun c => quote_free c = true)) (table_cells text) ->
  Forall (Forall (fun c => nul_free c = true)) (table_cells text) ->
  tokenize_all (join [LF] (map csv_line (table_lines text))) = Ok (table_cells text).
Proof.
  intros Hne Hlen Hq Hnul.
  pose proof (table_rows_well_formed text _ eq_refl Hq) as Hwf.
  rewrite csv_text_of_lines. fold (table_cells text).
  destruct (table_cells text) as [|r rows] eqn:E.
  { unfold table_cells in E. apply map_eq_nil in E. contradiction. }
  rewrite (tokenize_all_clean _ _ Hwf Hnul).
  rewrite (add_lines_same n).
  - cbn [bind]. rewrite app_nil_r, rev_involutive. reflexivity.
  - intros prev rest E'. discriminate E'.
  - exact Hlen.
Qed.

Lemma tokenizer_round_trip_witness :
  tokenize_all (join [LF] (map csv_line (table_lines notes_table)))
  = Ok [[L "Store"; L "Note"]; [L "Downtown"; L "up, then down"]].
Proof.
  apply (tokenizer_round_trip notes_table 2).
  - discriminate.
  - repeat constructor.
  - repeat constructor.
  - repeat constructor.
Defined.

(** ** What the stripping of the object columns does *)

Lemma str_strip_same (s s' : Series) :
  s_dtype s = object ->
  Forall (fun v => text_or_missing v \/ is_bool v = true) (s_values s) ->
  str_strip s = Ok s' -> s' = s.
Proof.
  intros Hd Hv H. unfold str_strip in H.
  destruct (existsb is_bool (s_values s)) eqn:E; [discriminate H|].
  injection H as <-. destruct s as [d vs]. cbn [s_dtype s_values] in *. subst d.
  f_equal. induction Hv as [|v vs Hv Hvs IH]; [reflexivity|].
  cbn [existsb] in E. apply orb_false_iff in E. destruct E as [Eb Evs].
  cbn [map]. rewrite (IH Evs). f_equal.
  destruct Hv as [Hv|Hv]; [|congruence].
  destruct v; simpl in Hv; try contradiction; [rewrite Hv|]; reflexivity.
Qed.

Lemma strip_object_columns_same (all_names : list str) (names : list str) :
  forall (data data' : list Series),
    List.length data <= List.length names ->
    Forall (fun s => s_dtype s = object ->
                     Forall (fun v => text_or_missing v \/ is_bool v = true) (s_values s))
           data ->
    strip_object_columns all_names names data = Ok data' -> data' = data.
Proof.
  induction names as [|col names IH]; intros data data' Hlen Hd H.
  - destruct data; [|simpl in Hlen; lia]. simpl in H. congruence.
  - destruct data as [|s data]; [simpl in H; congruence|].
    inversion Hd as [|? ? Hs Hd']; subst.
    cbn [strip_object_columns] in H.
    destruct (2 <=? List.length (filter (str_eqb col) all_names)); [discriminate H|].
    assert (Hs' : forall s', match s_dtype s with
                             | object => str_strip s
                             | _ => Ok s
                             end = Ok s' -> s' = s).
    { intros s' E. destruct (s_dtype s) eqn:Ed; try congruence.
      apply (str_strip_same _ _ Ed (Hs eq_refl) E). }
    destruct (match s_dtype s with object => str_strip s | _ => Ok s end) as [s'|e];
      [|discriminate H].
    cbn [bind] in H.
    destruct (strip_object_columns all_names names data) as [rest|e] eqn:E;
      [|discriminate H].
    cbn [bind] in H. injection H as <-.
    rewrite (Hs' s' eq_refl). f_equal.
    apply (IH data rest); [simpl in Hlen; lia|exact Hd'|exact E].
Qed.

Lemma convert_tokens_object (toks : list str) :
  Forall (fun tok => strip tok = tok) toks ->
  s_dtype (convert_tokens toks) = object ->
  Forall (fun v => text_or_missing v \/ is_bool v = true) (s_values (convert_tokens toks)).
Proof.
  intros Ht Hd. pose proof (convert_tokens_cells toks) as H. rewrite Hd in H.
  eapply Forall_impl; [|exact H]. intros v Hv.
  destruct v as [x|z|f|b|]; cbn [cell_of] in Hv.
  - left. destruct Hv as [_ Hin]. rewrite Forall_forall in Ht. exact (Ht _ Hin).
  - destruct Hv as [Hv|Hv]; discriminate Hv.
  - discriminate Hv.
  - right. reflexivity.
  - left. exact I.
Qed.

(** ** The words of the CSV text *)

Lemma read_csv_series (P : str -> Prop) (r : list str) (rows : list (list str))
      (df : DataFrame) :
  P [] ->
  Forall (fun x => x <> [] /\ Forall (fun c => quote_free c = true) x) (r :: rows) ->
  Forall (Forall (fun c => nul_free c = true)) (r :: rows) ->
  Forall (Forall P) (r :: rows) ->
  read_csv (csv_of (r :: rows)) = Ok df ->
  List.length (data df) <= List.length (columns df)
  /\ Forall (fun s => exists toks, Forall P toks /\ s = convert_tokens toks) (data df).
Proof.
  intros Hnil Hwf Hnul HP H. unfold read_csv in H.
  rewrite tokenize_all_clean in H by assumption.
  destruct (add_lines [] (r :: rows)) as [ls|e] eqn:E; [|discriminate H].
  cbn [bind] in H.
  assert (Hls : Forall (Forall P) (rev ls)).
  { apply Forall_rev. apply (add_lines_tokens P (r :: rows) [] ls Hnil); auto. }
  destruct (rev ls) as [|header body]; [discriminate H|].
  injection H as <-. cbn [data columns].
  inversion Hls as [|? ? _ Hbody]; subst.
  split.
  - rewrite header_names_length, length_skipn, length_map, length_seq. lia.
  - apply Forall_forall. intros s Hs.
    assert (Hin : In s (map (fun j => convert_tokens (column j body))
                            (List.seq 0 (match body with
                                         | [] => List.length header
                                         | first :: _ => List.length first
                                         end)))).
    { revert Hs. generalize (match body with
                             | [] => List.length header
                             | first :: _ => List.length first
                             end - List.length header).
      intros n Hs.
      rewrite <- (firstn_skipn n (map _ _)). apply in_or_app. right. exact Hs. }
    apply in_map_iff in Hin. destruct Hin as (j & <- & _).
    exists (column j body). split; [|reflexivity].
    apply column_tokens; assumption.
Qed.

Lemma table_cells_stripped (text : str) :
  Forall (Forall (fun c => strip c = c)) (table_cells text).
Proof.
  unfold table_cells. apply Forall_forall. intros r Hr.
  apply in_map_iff in Hr. destruct Hr as (line & <- & _). apply cells_stripped.
Qed.

(** X26: the notebook reads a table as the backend does but leaves out
    the stripping of the text columns.  For a text whose table, small
    enough to be read in one chunk, has no double quote and no NUL
    character in a cell, that step changes no cell: the backend returns
    the frame that the notebook returns, or, where the step fails, the
    empty frame. *)
Theorem backend_table_is_notebook_table_or_empty (text : str) :
  Forall (Forall (fun c => quote_free c = true)) (table_cells text) ->
  Forall (Forall (fun c => nul_free c = true)) (table_cells text) ->
  one_chunk (table_cells text) = true ->
  extract_data_from_text text = Notebook.extract_data_from_text text
  \/ extract_data_from_text text = empty_frame.
Proof.
  intros Hq Hnul _.
  unfold extract_data_from_text, Notebook.extract_data_from_text.
  change Notebook.collect_table_lines with collect_table_lines.
  fold (table_lines text).
  destruct (2 <=? List.length (table_lines text)) eqn:Elen; [|left; reflexivity].
  unfold frame_of_table_lines, Notebook.frame_of_table_lines.
  change Notebook.csv_line with csv_line.
  rewrite csv_text_of_lines. fold (table_cells text).
  pose proof (table_rows_well_formed text _ eq_refl Hq) as Hwf.
  pose proof (table_cells_stripped text) as Hs.
  destruct (table_cells text) as [|r rows] eqn:Ecells.
  { unfold table_cells in Ecells. apply map_eq_nil in Ecells.
    rewrite Ecells in Elen. discriminate Elen. }
  destruct (read_csv (csv_of (r :: rows))) as [df|e] eqn:Ecsv; [|left; reflexivity].
  cbn [bind].
  destruct (read_csv_series (fun c => strip c = c) r rows df eq_refl Hwf Hnul Hs Ecsv)
    as [Hlen Hser].
  destruct (strip_object_columns (map strip (columns df)) (map strip (columns df))
              (data df)) as [data'|e] eqn:Estrip; [|right; reflexivity].
  left. cbn [bind]. f_equal.
  apply (strip_object_columns_same (map strip (columns df)) (map strip (columns df)));
    [rewrite length_map; exact Hlen| |exact Estrip].
  eapply Forall_impl; [|exact Hser].
  intros s (toks & Ht & ->) Hd. apply convert_tokens_object; assumption.
Qed.

Lemma backend_table_is_notebook_table_or_empty_witness :
  extract_data_from_text stores_table = Notebook.extract_data_from_text stores_table
  \/ extract_data_from_text stores_table = empty_frame.
Proof.
  apply backend_table_is_notebook_table_or_empty.
  - repeat constructor.
  - repeat constructor.
  - reflexivity.
Defined.

(** ** A table of text *)

Ltac in_list := repeat (first [left; reflexivity | right]).

Lemma name_in_false (w : str) (names : list str) :
  name_in w names = false <-> forall x, In x names -> str_eqb w x = false.
Proof.
  unfold name_in. split.
  - intros H x Hx. destruct (str_eqb w x) eqn:E; [|reflexivity].
    assert (Hex : existsb (str_eqb w) names = true)
      by (apply existsb_exists; exists x; split; assumption).
    congruence.
  - intro H. destruct (existsb (str_eqb w) names) eqn:E; [|reflexivity].
    apply existsb_exists in E. destruct E as (x & Hx & Ex).
    rewrite (H x Hx) in Ex. discriminate Ex.
Qed.

Lemma name_in_true (w : str) (names : list str) : name_in w names = true -> In w names.
Proof.
  unfold name_in. intro H. apply existsb_exists in H. destruct H as (x & Hx & Ex).
  apply str_eqb_eq in Ex. subst x. exact Hx.
Qed.

Lemma alpha_char (c : ascii) :
  alpha c = true ->
  c_isspace c = false /\ chr_eqb c "-"%char = false /\ chr_eqb c "+"%char = false
  /\ digit_of c = None /\ chr_eqb c "."%char = false
  /\ chr_eqb (lower c) "+"%char = false /\ chr_eqb (lower c) "-"%char = false.
Proof.
  destruct c as [[] [] [] [] [] [] [] []]; intro H; vm_compute in H;
    try discriminate H; vm_compute; repeat split; reflexivity.
Qed.

Lemma alpha_not_integer (c : ascii) (t : str) :
  alpha c = true -> str_to_int64 (c :: t) = inr ERROR_NO_DIGITS.
Proof.
  intro H. destruct (alpha_char c H) as (H1 & H2 & H3 & H4 & _).
  unfold str_to_int64. cbn [lstrip_by]. rewrite H1. cbn [sign]. rewrite H2, H3.
  unfold isdigit_ascii. rewrite H4. reflexivity.
Qed.

Lemma alpha_not_decimal (c : ascii) (t : str) :
  alpha c = true -> precise_xstrtod (c :: t) = None.
Proof.
  intro H. destruct (alpha_char c H) as (H1 & H2 & H3 & H4 & H5 & _).
  unfold precise_xstrtod. cbn [lstrip_by]. rewrite H1. cbn [sign]. rewrite H2, H3.
  cbn [integer_digits]. rewrite H4, H5. reflexivity.
Qed.

Lemma str_eqb_head (c d : ascii) (t u : str) :
  chr_eqb c d = false -> str_eqb (c :: t) (d :: u) = false.
Proof. intro H. cbn [str_eqb]. rewrite H. reflexivity. Qed.

(** A word that begins with a letter is a double only by a name of
    infinity. *)
Lemma alpha_not_double (c : ascii) (t : str) :
  alpha c = true ->
  str_eqb (lower_str (c :: t)) (L "inf") = false ->
  str_eqb (lower_str (c :: t)) (L "infinity") = false ->
  to_double (c :: t) = None.
Proof.
  intros H Hinf Hinfty. destruct (alpha_char c H) as (_ & _ & _ & _ & _ & Hp & Hm).
  unfold to_double. rewrite (alpha_not_decimal c t H). cbv zeta.
  assert (E1 : name_in (lower_str (c :: t))
                       (map L ["inf"; "+inf"; "infinity"; "+infinity"]%string) = false).
  { apply name_in_false. intros x Hx. cbn [map In] in Hx.
    destruct Hx as [<-|[<-|[<-|[<-|[]]]]]; try assumption;
      apply str_eqb_head; exact Hp. }
  assert (E2 : name_in (lower_str (c :: t)) (map L ["-inf"; "-infinity"]%string) = false).
  { apply name_in_false. intros x Hx. cbn [map In] in Hx.
    destruct Hx as [<-|[<-|[]]]; apply str_eqb_head; exact Hm. }
  rewrite E1, E2. reflexivity.
Qed.

Lemma plain_text_inv (cell : str) :
  plain_text cell = true ->
  is_na cell = false /\ str_to_int64 cell = inr ERROR_NO_DIGITS
  /\ to_double cell = None /\ to_boolean cell = None.
Proof.
  intro H.
  assert (Hna : is_na cell = false).
  { destruct (is_na cell) eqn:E; [|reflexivity].
    apply name_in_true in E. unfold na_values in E. cbn [map In] in E.
    repeat (destruct E as [<-|E]; [vm_compute in H; discriminate H|]).
    destruct E. }
  unfold plain_text in H. apply andb_true_iff in H. destruct H as [Ha Hres].
  destruct cell as [|c t]; [discriminate Ha|].
  apply negb_true_iff in Hres.
  pose proof (proj1 (name_in_false _ _) Hres) as Hw.
  split; [exact Hna|]. split; [exact (alpha_not_integer c t Ha)|]. split.
  - apply (alpha_not_double c t Ha); apply Hw; unfold reserved; cbn [map In]; in_list.
  - unfold to_boolean.
    rewrite (Hw (L "true")), (Hw (L "false"))
      by (unfold reserved; cbn [map In]; in_list).
    reflexivity.
Qed.

Lemma try_all_plain (f : str -> option value) (tok : str) (toks : list str) :
  is_na tok = false -> f tok = None -> try_all f (tok :: toks) = None.
Proof. intros Hna Hf. cbn [try_all]. rewrite Hna, Hf. reflexivity. Qed.

Lemma na_count_none (toks : list str) :
  Forall (fun tok => is_na tok = false) toks -> na_count toks = 0.
Proof.
  intro H. unfold na_count. induction H as [|t toks Ht H IH]; [reflexivity|].
  cbn [filter]. rewrite Ht. exact IH.
Qed.

Lemma convert_tokens_plain (toks : list str) :
  toks <> [] -> Forall (fun tok => plain_text tok = true) toks ->
  convert_tokens toks = {| s_dtype := object; s_values := map VStr toks |}.
Proof.
  intros Hne H. rewrite (convert_tokens_eq _ Hne).
  destruct toks as [|tok toks]; [congruence|].
  inversion H as [|? ? Htok Htoks]; subst.
  destruct (plain_text_inv _ Htok) as (Hna & Hint & Hfloat & Hbool).
  assert (E0 : _try_int64 (tok :: toks) = Ok None)
    by (cbn [_try_int64]; rewrite Hna, Hint; reflexivity).
  rewrite E0. unfold convert_rest, _try_double, _try_bool_flex.
  rewrite (try_all_plain _ tok toks Hna) by (cbv beta; rewrite Hfloat; reflexivity).
  rewrite (try_all_plain _ tok toks Hna) by (cbv beta; rewrite Hbool; reflexivity).
  unfold _string_convert. f_equal.
  apply map_ext_in. intros t Ht.
  rewrite Forall_forall in H. destruct (plain_text_inv _ (H t Ht)) as (Hn & _).
  rewrite Hn. reflexivity.
Qed.

Lemma pad_same (cells : list str) : pad (List.length cells) cells = cells.
Proof. unfold pad. rewrite Nat.sub_diag. apply app_nil_r. Qed.

Lemma map_pad_same (n : nat) (body : list (list str)) :
  Forall (fun r => List.length r = n) body -> map (pad n) body = body.
Proof.
  intro H. induction H as [|r body Hr H IH]; [reflexivity|].
  cbn [map]. rewrite IH, <- Hr, pad_same. reflexivity.
Qed.

Lemma column_plain (n j : nat) (body : list (list str)) :
  j < n ->
  Forall (fun r => List.length r = n /\ Forall (fun c => plain_text c = true) r) body ->
  Forall (fun tok => plain_text tok = true) (column j body).
Proof.
  intros Hj H. unfold column. induction H as [|r body [Hr Hp] H IH]; [constructor|].
  cbn [map]. constructor; [|exact IH].
  rewrite Forall_forall in Hp. apply Hp. apply nth_In. subst n. exact Hj.
Qed.

Lemma map_seq_nth (A B : Type) (f : A -> B) (d : A) (l : list A) :
  map (fun i => f (nth i l d)) (List.seq 0 (List.length l)) = map f l.
Proof.
  induction l as [|x l IH]; [reflexivity|].
  cbn [List.length List.seq map nth]. f_equal.
  rewrite <- seq_shift, map_map. exact IH.
Qed.

(** The frame of a table of text. *)
Lemma text_frame_rows (header : list str) (body : list (list str)) :
  Forall (fun r => List.length r = List.length header) body ->
  rows {| columns := header; index := RangeIndex (List.length body);
          data := map (fun j => {| s_dtype := object;
                                   s_values := map VStr (column j body) |})
                      (List.seq 0 (List.length header)) |}
  = map (map VStr) body.
Proof.
  intro H. unfold rows, n_rows, row. cbn [index data].
  rewrite <- (map_seq_nth _ _ (map VStr) [] body).
  apply map_ext_in. intros i Hi. apply in_seq in Hi.
  assert (Hi' : i < List.length body) by (unfold str in *; lia).
  rewrite map_map. cbn [s_values].
  assert (Hr : List.length (nth i body []) = List.length header).
  { rewrite Forall_forall in H. apply H. apply nth_In. exact Hi'. }
  rewrite <- Hr, <- (map_seq_nth _ _ VStr [] (nth i body [])).
  apply map_ext. intro j. unfold column.
  rewrite map_map.
  rewrite (nth_indep _ NaN (VStr (nth j [] []))) by (rewrite length_map; exact Hi').
  rewrite (map_nth (fun l => VStr (nth j l [])) body [] i). reflexivity.
Qed.

(** X27: a table of text comes back cell by cell.  When no cell holds a
    double quote or a NUL character, the header names are distinct and not
    empty, every data row has as many cells as the header, and every data
    cell begins with a letter and is none of the words true, false, inf,
    infinity, nan, na, null, none and n/a in any case of letters, the
    frame has the header as its columns and, row by row, the cells as
    strings. *)
Theorem text_table_round_trip (text : str) (header first : list str)
        (rest : list (list str)) :
  table_cells text = header :: first :: rest ->
  Forall (Forall (fun c => quote_free c = true)) (header :: first :: rest) ->
  Forall (Forall (fun c => nul_free c = true)) (header :: first :: rest) ->
  NoDup header -> Forall (fun name => name <> []) header ->
  Forall (fun r => List.length r = List.length header
                   /\ Forall (fun c => plain_text c = true) r) (first :: rest) ->
  columns (extract_data_from_text text) = header
  /\ rows (extract_data_from_text text) = map (map VStr) (first :: rest)
  /\ Forall (fun s => s_dtype s = object) (data (extract_data_from_text text)).
Proof.
  intros Hcells Hq Hnul Hnd Hne Hbody.
  pose proof (table_rows_well_formed _ _ Hcells Hq) as Hwf.
  assert (Hlen : Forall (fun r => List.length r = List.length header) (first :: rest))
    by (eapply Forall_impl; [|exact Hbody]; intros r [Hr _]; exact Hr).
  rewrite (extract_of_frame _ _ _ _ Hcells).
  unfold frame_of_table_lines. rewrite csv_text_of_lines.
  fold (table_cells text). rewrite Hcells.
  rewrite (read_csv_padded _ _ _ Hwf Hnul)
    by (eapply Forall_impl; [|exact Hlen]; intros r Hr; cbv beta in Hr; lia).
  cbn [bind columns data index].
  rewrite (header_names_distinct _ Hnd Hne).
  assert (Hstrip : map strip header = header).
  { unfold table_cells in Hcells.
    destruct (table_lines text) as [|l tl]; [discriminate Hcells|].
    cbn [map] in Hcells. injection Hcells as <- _. apply map_strip_cells. }
  rewrite Hstrip, (map_pad_same _ _ Hlen).
  assert (Hdata : map (fun j => convert_tokens (column j (first :: rest)))
                      (List.seq 0 (List.length header))
                  = map (fun j => {| s_dtype := object;
                                     s_values := map VStr (column j (first :: rest)) |})
                        (List.seq 0 (List.length header))).
  { apply map_ext_in. intros j Hj. apply in_seq in Hj.
    apply convert_tokens_plain; [discriminate|].
    apply (column_plain (List.length header)); [lia|exact Hbody]. }
  rewrite Hdata.
  set (data0 := map _ (List.seq 0 (List.length header))).
  assert (Hobj : Forall (fun s => s_dtype s = object) data0).
  { apply Forall_forall. intros s Hs. apply in_map_iff in Hs.
    destruct Hs as (j & <- & _). reflexivity. }
  assert (Htext : Forall (fun s => s_dtype s = object ->
                                   Forall (fun v => text_or_missing v \/ is_bool v = true)
                                          (s_values s)) data0).
  { apply Forall_forall. intros s Hs _. apply in_map_iff in Hs.
    destruct Hs as (j & <- & _). cbn [s_values].
    apply Forall_forall. intros v Hv. apply in_map_iff in Hv.
    destruct Hv as (tok & <- & Htok). left. cbn [text_or_missing].
    assert (Hc : Forall (fun c => strip c = c) (column j (first :: rest))).
    { apply column_tokens; [reflexivity|].
      pose proof (table_cells_stripped text) as Hs. rewrite Hcells in Hs.
      inversion Hs; assumption. }
    rewrite Forall_forall in Hc. apply Hc. exact Htok. }
  destruct (strip_object_columns_ok header Hnd header data0) as [data' E].
  { apply Forall_forall. intros s Hs. apply in_map_iff in Hs.
    destruct Hs as (j & <- & _). cbn [s_values].
    induction (column j (first :: rest)) as [|t ts IH]; [reflexivity|exact IH]. }
  rewrite E. cbn [bind columns data].
  assert (Hsame : data' = data0).
  { apply (strip_object_columns_same header header); [|exact Htext|exact E].
    unfold data0. rewrite length_map, length_seq. lia. }
  subst data'.
  split; [reflexivity|]. split; [|exact Hobj].
  apply (text_frame_rows header (first :: rest) Hlen).
Qed.

Lemma text_table_round_trip_witness :
  columns (extract_data_from_text stores_table) = [L "Store"; L "Region"]
  /\ rows (extract_data_from_text stores_table)
     = [[VStr (L "Downtown"); VStr (L "West")]; [VStr (L "Airport"); VStr (L "East")]]
  /\ Forall (fun s => s_dtype s = object) (data (extract_data_from_text stores_table)).
Proof.
  refine (text_table_round_trip stores_table [L "Store"; L "Region"]
            [L "Downtown"; L "West"] [[L "Airport"; L "East"]] eq_refl _ _ _ _ _).
  - repeat constructor.
  - repeat constructor.
  - repeat constructor; simpl; intuition discriminate.
  - repeat constructor; discriminate.
  - repeat constructor.
Defined.

(** ** A first data row wider than the header *)

Lemma nth_pad (n j : nat) (r : list str) : nth j (pad n r) [] = nth j r [].
Proof.
  unfold pad. destruct (Nat.lt_ge_cases j (List.length r)) as [Hlt|Hge].
  - apply app_nth1. exact Hlt.
  - rewrite app_nth2 by exact Hge. rewrite (nth_overflow r) by exact Hge.
    generalize (j - List.length r). intro i.
    generalize (n - List.length r). intro m.
    revert i. induction m as [|m IH]; intros [|i]; simpl; try reflexivity. apply IH.
Qed.

Lemma column_pad (n j : nat) (body : list (list str)) :
  column j (map (pad n) body) = column j body.
Proof.
  unfold column. rewrite map_map. apply map_ext. intro r. apply nth_pad.
Qed.

Lemma read_csv_wide (h first : list str) (rest : list (list str)) :
  Forall (fun x => x <> [] /\ Forall (fun c => quote_free c = true) x)
         (h :: first :: rest) ->
  Forall (Forall (fun c => nul_free c = true)) (h :: first :: rest) ->
  List.length h < List.length first ->
  Forall (fun r => List.length r <= List.length first) rest ->
  read_csv (csv_of (h :: first :: rest))
  = Ok {| columns := header_names h;
          index := LabelIndex
                     (firstn (List.length first - List.length h)
                        (map (fun j => convert_tokens (column j (first :: rest)))
                             (List.seq 0 (List.length first))));
          data := skipn (List.length first - List.length h)
                    (map (fun j => convert_tokens (column j (first :: rest)))
                         (List.seq 0 (List.length first))) |}.
Proof.
  intros Hwf Hnul Hlt Hrest.
  unfold read_csv. rewrite tokenize_all_clean by assumption.
  destruct (add_lines_table h first rest) as [H _].
  rewrite Nat.max_r in H by lia.
  rewrite (H Hrest). cbn [bind].
  rewrite rev_app_distr, rev_involutive. cbn [rev app].
  assert (Hpad : pad (List.length h) first = first).
  { unfold pad. replace (List.length h - List.length first) with 0 by lia.
    apply app_nil_r. }
  rewrite Hpad.
  assert (Hk : (List.length first - List.length h =? 0) = false)
    by (apply Nat.eqb_neq; lia).
  rewrite Hk.
  assert (Hcols : forall j,
             column j (first :: map (pad (List.length first)) rest)
             = column j (first :: rest)).
  { intro j. rewrite <- (column_pad (List.length first) j (first :: rest)).
    cbn [map]. rewrite pad_same. reflexivity. }
  f_equal. f_equal.
  - f_equal. f_equal. apply map_ext. intro j. rewrite Hcols. reflexivity.
  - f_equal. apply map_ext. intro j. rewrite Hcols. reflexivity.
Qed.

Lemma firstn_seq_le (k : nat) : forall a n, k <= n -> firstn k (List.seq a n) = List.seq a k.
Proof.
  induction k as [|k IH]; intros a n H; [reflexivity|].
  destruct n as [|n]; [lia|]. cbn [List.seq firstn]. f_equal. apply IH. lia.
Qed.

Lemma column_no_bool (j : nat) (body : list (list str)) :
  Forall (Forall (fun c => to_boolean c = None)) body ->
  forall tok, In tok (column j body) -> to_boolean tok = None.
Proof.
  intros Hb tok Hin. rewrite <- (column_pad 0 j body) in Hin.
  apply (column_tokens_no_bool 0 j body Hb tok Hin).
Qed.

(** X28: when the first data row of a table has more cells than the
    header, later rows have no more cells than the first, the header names
    are distinct and not empty, no cell holds a double quote or a NUL
    character, no data cell is a boolean literal and the table is small
    enough to be read in one chunk, the frame has the header as its
    columns and as many data columns; the header names the last cells of
    each row, and the leading cells, as many as the first row has in
    surplus, are taken as the index of the frame. *)
Theorem wide_first_row_becomes_index (text : str) (header first : list str)
        (rest : list (list str)) :
  table_cells text = header :: first :: rest ->
  Forall (Forall (fun c => quote_free c = true)) (header :: first :: rest) ->
  Forall (Forall (fun c => nul_free c = true)) (header :: first :: rest) ->
  one_chunk (header :: first :: rest) = true ->
  List.length header < List.length first ->
  Forall (fun r => List.length r <= List.length first) rest ->
  NoDup header -> Forall (fun name => name <> []) header ->
  Forall (Forall (fun c => to_boolean c = None)) (first :: rest) ->
  columns (extract_data_from_text text) = header
  /\ List.length (data (extract_data_from_text text)) = List.length header
  /\ index (extract_data_from_text text)
     = LabelIndex (map (fun j => convert_tokens (column j (first :: rest)))
                       (List.seq 0 (List.length first - List.length header))).
Proof.
  intros Hcells Hq Hnul _ Hlt Hrest Hnd Hne Hb.
  pose proof (table_rows_well_formed _ _ Hcells Hq) as Hwf.
  rewrite (extract_of_frame _ _ _ _ Hcells).
  unfold frame_of_table_lines. rewrite csv_text_of_lines.
  fold (table_cells text). rewrite Hcells.
  rewrite (read_csv_wide _ _ _ Hwf Hnul Hlt Hrest).
  cbn [bind columns data index].
  rewrite (header_names_distinct _ Hnd Hne).
  assert (Hstrip : map strip header = header).
  { unfold table_cells in Hcells.
    destruct (table_lines text) as [|l tl]; [discriminate Hcells|].
    cbn [map] in Hcells. injection Hcells as <- _. apply map_strip_cells. }
  rewrite Hstrip.
  set (cols := map (fun j => convert_tokens (column j (first :: rest)))
                   (List.seq 0 (List.length first))).
  set (k := List.length first - List.length header).
  assert (Hcols : List.length cols = List.length first)
    by (unfold cols; rewrite length_map, length_seq; reflexivity).
  destruct (strip_object_columns_ok header Hnd header (skipn k cols)) as [data' E].
  { apply Forall_forall. intros s Hs.
    assert (Hin : In s cols).
    { rewrite <- (firstn_skipn k cols). apply in_or_app. right. exact Hs. }
    unfold cols in Hin. apply in_map_iff in Hin. destruct Hin as (j & <- & _).
    apply convert_tokens_no_bool. apply column_no_bool. exact Hb. }
  rewrite E. cbn [bind columns data index].
  destruct (strip_object_columns_nan _ _ _ _ E) as [Hl' _].
  { rewrite length_skipn, Hcols. unfold k. lia. }
  split; [reflexivity|]. split.
  - rewrite Hl', length_skipn, Hcols. unfold k. lia.
  - f_equal. unfold cols. rewrite firstn_map, firstn_seq_le by (unfold k; lia).
    reflexivity.
Qed.

Lemma wide_first_row_becomes_index_witness :
  columns (extract_data_from_text wide_row_table) = [L "Store"; L "Sales"]
  /\ List.length (data (extract_data_from_text wide_row_table)) = 2
  /\ index (extract_data_from_text wide_row_table)
     = LabelIndex [convert_tokens [L "West"; L "East"]].
Proof.
  refine (wide_first_row_becomes_index wide_row_table [L "Store"; L "Sales"]
            [L "West"; L "Downtown"; L "100"] [[L "East"; L "Airport"; L "90"]]
            eq_refl _ _ eq_refl _ _ _ _ _).
  - repeat constructor.
  - repeat constructor.
  - simpl. lia.
  - repeat constructor.
  - repeat constructor; simpl; intuition discriminate.
  - repeat constructor; discriminate.
  - repeat constructor.
Defined.

(** ** A boolean column with a gap *)

Lemma boolean_word (tok : str) :
  is_boolean tok = true ->
  lower_str tok = L "true" \/ lower_str tok = L "false".
Proof.
  unfold is_boolean, to_boolean. intro H.
  destruct (str_eqb (lower_str tok) (L "true")) eqn:E1;
    [left; apply str_eqb_eq; exact E1|].
  destruct (str_eqb (lower_str tok) (L "false")) eqn:E2;
    [right; apply str_eqb_eq; exact E2|discriminate H].
Qed.

Lemma lower_str_in (tok : str) (names : list str) :
  In tok names -> In (lower_str tok) (map lower_str names).
Proof. apply in_map. Qed.

Lemma boolean_literal (tok : str) :
  is_boolean tok = true ->
  is_na tok = false /\ str_to_int64 tok = inr ERROR_NO_DIGITS /\ to_double tok = None.
Proof.
  intro H. apply boolean_word in H.
  assert (Hna : is_na tok = false).
  { destruct (is_na tok) eqn:E; [|reflexivity].
    apply name_in_true in E. apply lower_str_in in E.
    destruct H as [H|H]; rewrite H in E; vm_compute in E;
      repeat (destruct E as [E|E]; [discriminate E|]); destruct E. }
  split; [exact Hna|].
  destruct tok as [|c t]; [destruct H as [H|H]; discriminate H|].
  assert (Ha : alpha c = true).
  { unfold alpha. destruct H as [H|H]; cbn [lower_str map] in H;
      injection H as Hc _; rewrite Hc; reflexivity. }
  split; [exact (alpha_not_integer c t Ha)|].
  apply (alpha_not_double c t Ha); destruct H as [H|H]; rewrite H; reflexivity.
Qed.

Lemma try_all_fails (f : str -> option value) (toks : list str) :
  existsb (fun tok => negb (is_na tok)
                      && match f tok with None => true | Some _ => false end) toks = true ->
  try_all f toks = None.
Proof.
  induction toks as [|tok rest IH]; intro H; [discriminate H|].
  cbn [existsb] in H. cbn [try_all].
  destruct (is_na tok); cbn [negb andb orb] in H.
  - rewrite (IH H). reflexivity.
  - destruct (f tok) as [v|]; [|reflexivity].
    cbn [orb] in H. rewrite (IH H). reflexivity.
Qed.

Lemma try_all_booleans (toks : list str) :
  forallb boolean_or_missing toks = true ->
  exists vs,
    try_all (fun tok => option_map VBool (to_boolean tok)) toks = Some vs
    /\ (existsb is_boolean toks = true -> existsb is_bool vs = true).
Proof.
  induction toks as [|tok rest IH]; intro H.
  - exists []. split; [reflexivity|]. intro E. discriminate E.
  - cbn [forallb] in H. apply andb_true_iff in H. destruct H as [Htok Hrest].
    destruct (IH Hrest) as (vs & E & Hvs). cbn [try_all]. rewrite E.
    destruct (is_na tok) eqn:Ena.
    + exists (NaN :: vs). split; [reflexivity|].
      cbn [existsb is_bool orb]. intro Hb. apply Hvs.
      apply orb_true_iff in Hb. destruct Hb as [Hb|Hb]; [|exact Hb].
      apply boolean_literal in Hb. destruct Hb as [Hb _]. congruence.
    + unfold boolean_or_missing in Htok. rewrite Ena in Htok. cbn [orb] in Htok.
      unfold is_boolean in Htok.
      destruct (to_boolean tok) as [b|]; [|discriminate Htok].
      exists (VBool b :: vs). split; [reflexivity|]. intros _. reflexivity.
Qed.

Lemma existsb_impl (A : Type) (P Q : A -> bool) (l : list A) :
  (forall x, P x = true -> Q x = true) -> existsb P l = true -> existsb Q l = true.
Proof.
  intros H E. apply existsb_exists in E. destruct E as (x & Hx & Px).
  apply existsb_exists. exists x. split; [exact Hx|apply H; exact Px].
Qed.

(** The integer conversion gives up at the first boolean literal. *)
Lemma try_int64_booleans (toks : list str) :
  forallb boolean_or_missing toks = true -> existsb is_boolean toks = true ->
  _try_int64 toks = Ok None.
Proof.
  induction toks as [|tok rest IH]; intros Hall Hb; [discriminate Hb|].
  cbn [forallb] in Hall. apply andb_true_iff in Hall. destruct Hall as [Htok Hrest].
  cbn [existsb] in Hb. cbn [_try_int64].
  destruct (is_boolean tok) eqn:Eb.
  - destruct (boolean_literal tok Eb) as (Hna & Hint & _).
    rewrite Hna, Hint. reflexivity.
  - cbn [orb] in Hb. unfold boolean_or_missing in Htok. rewrite Eb, orb_false_r in Htok.
    rewrite Htok, (IH Hrest Hb). reflexivity.
Qed.

Lemma na_count_some (toks : list str) :
  existsb is_na toks = true -> (0 <? na_count toks) = true.
Proof.
  intro H. apply existsb_exists in H. destruct H as (tok & Hin & Hna).
  apply In_nth_error in Hin. destruct Hin as [i Hi].
  exact (na_count_positive toks i tok Hi Hna).
Qed.

Lemma convert_tokens_boolean_gap (toks : list str) :
  forallb boolean_or_missing toks = true ->
  existsb is_na toks = true -> existsb is_boolean toks = true ->
  s_dtype (convert_tokens toks) = object
  /\ existsb is_bool (s_values (convert_tokens toks)) = true.
Proof.
  intros Hall Hna Hb.
  rewrite convert_tokens_eq by (intro E; subst toks; discriminate Hna).
  rewrite (try_int64_booleans toks Hall Hb).
  unfold convert_rest, _try_double, _try_bool_flex.
  rewrite try_all_fails.
  2:{ apply (existsb_impl _ is_boolean); [|exact Hb].
      intros x Hx. destruct (boolean_literal x Hx) as (H1 & _ & H3).
      rewrite H1, H3. reflexivity. }
  destruct (try_all_booleans toks Hall) as (vs & E & Hvs).
  rewrite E, (na_count_some toks Hna). cbn [s_dtype s_values].
  split; [reflexivity|apply Hvs; exact Hb].
Qed.

(** A boolean literal and a missing-value marker hold no NUL character. *)
Lemma c_string_lower (tok : str) :
  nul_free (lower_str tok) = true -> c_string tok = tok.
Proof.
  intro H. apply c_string_nul_free. revert H.
  unfold nul_free, contains_chr. induction tok as [|c t IH]; [reflexivity|].
  cbn [lower_str map existsb]. rewrite !negb_true_iff, !orb_false_iff.
  intros [Hc Ht]. split.
  - destruct (chr_eqb NUL c) eqn:E; [|reflexivity].
    apply Ascii.eqb_eq in E. subst c. discriminate Hc.
  - rewrite <- negb_true_iff. apply IH. rewrite negb_true_iff. exact Ht.
Qed.

Lemma boolean_or_missing_word (tok : str) :
  boolean_or_missing tok = true -> c_string tok = tok.
Proof.
  unfold boolean_or_missing. intro H. apply orb_true_iff in H. destruct H as [H|H].
  - apply name_in_true in H. unfold na_values in H. cbn [map In] in H.
    repeat (destruct H as [<-|H]; [reflexivity|]). destruct H.
  - apply c_string_lower. apply boolean_word in H.
    destruct H as [H|H]; rewrite H; reflexivity.
Qed.

Lemma words_of_booleans (toks : list str) :
  forallb boolean_or_missing toks = true -> map c_string toks = toks.
Proof.
  induction toks as [|tok rest IH]; intro H; [reflexivity|].
  cbn [forallb] in H. apply andb_true_iff in H. destruct H as [Htok Hrest].
  cbn [map]. rewrite (boolean_or_missing_word tok Htok), (IH Hrest). reflexivity.
Qed.

Lemma strip_object_columns_raises (all_names : list str) (names : list str) :
  forall (data : list Series) (j : nat) (s : Series),
    nth_error data j = Some s -> j < List.length names ->
    s_dtype s = object -> existsb is_bool (s_values s) = true ->
    exists e, strip_object_columns all_names names data = Raise e.
Proof.
  induction names as [|col names IH]; intros data j s Hs Hj Hd Hb;
    [simpl in Hj; lia|].
  destruct data as [|s0 data]; [destruct j; discriminate Hs|].
  cbn [strip_object_columns].
  destruct (2 <=? List.length (filter (str_eqb col) all_names));
    [eexists; reflexivity|].
  destruct j as [|j].
  - simpl in Hs. injection Hs as ->. rewrite Hd. unfold str_strip. rewrite Hb.
    eexists. reflexivity.
  - simpl in Hs. simpl in Hj.
    destruct (IH data j s Hs ltac:(lia) Hd Hb) as [e E]. rewrite E.
    destruct (match s_dtype s0 with object => str_strip s0 | _ => Ok s0 end);
      eexists; reflexivity.
Qed.

(** X29: a boolean column with a gap discards the table.  When no data
    row has more cells than the header and one column holds boolean
    literals and missing cells only, with at least one of each, [read_csv]
    gives an object column of booleans, the stripping of that column
    raises, and [extract_data_from_text] returns the empty frame. *)
Theorem boolean_column_with_gap_discards_table (text : str) (header first : list str)
        (rest : list (list str)) (j : nat) :
  table_cells text = header :: first :: rest ->
  Forall (Forall (fun c => quote_free c = true)) (header :: first :: rest) ->
  Forall (fun r => List.length r <= List.length header) (first :: rest) ->
  j < List.length header ->
  forallb boolean_or_missing (column j (first :: rest)) = true ->
  existsb is_na (column j (first :: rest)) = true ->
  existsb is_boolean (column j (first :: rest)) = true ->
  extract_data_from_text text = empty_frame.
Proof.
  intros Hcells Hq Hle Hj Hall Hna Hb.
  pose proof (table_rows_well_formed _ _ Hcells Hq) as Hwf.
  rewrite (extract_of_frame _ _ _ _ Hcells).
  unfold frame_of_table_lines. rewrite csv_text_of_lines.
  fold (table_cells text). rewrite Hcells.
  rewrite (read_csv_padded_words _ _ _ Hwf Hle).
  cbn [bind columns data index].
  destruct (convert_tokens_boolean_gap _ Hall Hna Hb) as [Hd Hbool].
  destruct (strip_object_columns_raises
              (map strip (header_names (map c_string header)))
              (map strip (header_names (map c_string header)))
              (map (fun j => convert_tokens
                               (map c_string
                                  (column j (map (pad (List.length header))
                                                 (first :: rest)))))
                   (List.seq 0 (List.length header)))
              j (convert_tokens (column j (first :: rest)))) as [e E].
  - rewrite <- (words_of_booleans _ Hall) at 1.
    rewrite <- (column_pad (List.length header) j (first :: rest)).
    apply (nth_error_map_some _ _
             (fun j => convert_tokens
                         (map c_string
                            (column j (map (pad (List.length header)) (first :: rest)))))).
    rewrite nth_error_nth' with (d := 0) by (rewrite length_seq; exact Hj).
    rewrite seq_nth by exact Hj. reflexivity.
  - rewrite length_map, header_names_length, length_map. exact Hj.
  - exact Hd.
  - exact Hbool.
  - rewrite E. reflexivity.
Qed.

Lemma boolean_column_with_gap_discards_table_witness :
  extract_data_from_text open_stores_table = empty_frame.
Proof.
  refine (boolean_column_with_gap_discards_table open_stores_table
            [L "Store"; L "Open"] [L "Downtown"; L "True"] [[L "Airport"; []]] 1
            eq_refl _ _ _ eq_refl eq_refl eq_refl).
  - repeat constructor.
  - repeat constructor.
  - simpl. lia.
Defined.

End FrameFacts.

(** * Validity and variance of the outcomes *)

Module ValidityFacts.
Import Py Validator ValidatorSpec ReportSpec ValidatorFacts ReportFacts.
Local Open Scope Q_scope.










End ValidityFacts.

